(** * Sockeon client: connection lifecycle, reconnection, heartbeat and
      envelope validation.

    A shallow embedding of [src/index.ts] (class [Sockeon]) and of the
    transport layer (class [WebSocketTransport]).  Every method is a
    computation in a small state-and-exception monad over one [System]
    value: the controller's private fields, the transport's private
    fields, and the part of the browser the two classes talk to (the
    WebSocket objects they created, the pending [window] timers, the
    calls made on sockets, and the calls made on the event emitter).

    Conventions of the embedding:
    - a JavaScript [number] that holds a duration ([delay], [maxDelay],
      [factor], the delay of a timer) is an IEEE 754 double, with its
      rounding to nearest, its two zeros, its infinities and NaN
      ([Double.Number]); [*], [**] and [Math.min] are those of the
      language, the product and the order being checked on samples
      against the binary64 floats of the proof assistant, and where the
      language leaves the last bit of a power to the implementation the
      nearest double is taken;
    - [Date.now()] is the argument [now] of the callback that reads it;
    - [JSON.parse] is the platform's: an inbound text frame carries the
      decoded value, or [None] when decoding throws;
    - [this.events.emit(name, payload)] appends to the [emitted] trace,
      which is what reaches the application's handlers;
    - the URL of the options is well formed, so [new WebSocket] returns a
      socket, and the values sent are JSON values, so [JSON.stringify]
      returns: the [catch] branches of [connect] and [send] are not taken;
    - debug logging has no effect on the state and is left out.

    Beside the two classes, the emitter itself ([src/events.ts], class
    [EventEmitter]) is embedded as functions on its map of handler lists,
    a handler being known by its identity and by whether it throws; and
    [buildUrl] as a function on the name-value pairs of the URL's query
    ([URLSearchParams]), parsing and serialising the URL being the
    platform's. *)

From Stdlib Require Import List String Ascii Bool Arith ZArith QArith Qpower Qminmax
  Qround Qabs Lia Lqa Floats.
Import ListNotations.

Local Open Scope string_scope.
Local Open Scope list_scope.

(** ** Values exchanged with the peer *)

#[local] Set Warnings "-register-all".

Inductive JSON : Type :=
| JNull
| JBool (b : bool)
| JNum (q : Q)
| JStr (s : string)
| JArr (items : list JSON)
| JObj (fields : list (string * JSON)).

Module Js.

(** [typeof v] *)
Definition typeof (v : JSON) : string :=
  match v with
  | JNull => "object"
  | JBool _ => "boolean"
  | JNum _ => "number"
  | JStr _ => "string"
  | JArr _ => "object"
  | JObj _ => "object"
  end.

(** [!v] is [negb (truthy v)] *)
Definition truthy (v : JSON) : bool :=
  match v with
  | JNull => false
  | JBool b => b
  | JNum q => negb (Qeq_bool q 0)
  | JStr s => negb (String.eqb s "")
  | JArr _ => true
  | JObj _ => true
  end.

(** Own property [k] of a decoded object; when the text repeated a key,
    [JSON.parse] kept the last occurrence. *)
Fixpoint lookup (k : string) (fields : list (string * JSON)) : option JSON :=
  match fields with
  | [] => None
  | (k', v) :: rest =>
      match lookup k rest with
      | Some w => Some w
      | None => if String.eqb k k' then Some v else None
      end
  end.

(** [v.k]; [None] is [undefined].  A decoded array has index properties
    and [length] only, and the names read by this program are neither. *)
Definition get (v : JSON) (k : string) : option JSON :=
  match v with
  | JObj fields => lookup k fields
  | _ => None
  end.

(** [k in v] for a decoded object or array [v] *)
Definition has (k : string) (v : JSON) : bool :=
  match get v k with Some _ => true | None => false end.

(** [/^[a-zA-Z0-9._-]+$/] : one character of the class *)
Definition class_char (c : ascii) : bool :=
  let n := nat_of_ascii c in
  ((97 <=? n) && (n <=? 122)          (* a-z *)
   || (65 <=? n) && (n <=? 90)        (* A-Z *)
   || (48 <=? n) && (n <=? 57)        (* 0-9 *)
   || (n =? 46) || (n =? 95) || (n =? 45))%nat.   (* . _ - *)

Fixpoint all_class (s : string) : bool :=
  match s with
  | EmptyString => true
  | String c rest => class_char c && all_class rest
  end.

(** [/^[a-zA-Z0-9._-]+$/.test(s)]: without the [m] flag, [$] is the end
    of the input, so the test holds exactly for a non-empty string made
    of class characters. *)
Definition event_name_test (s : string) : bool :=
  match s with
  | EmptyString => false
  | String _ _ => all_class s
  end.

End Js.

(** ** Numbers of the language *)

Module Double.

(** A [number] is an IEEE 754 binary64 value.  [Finite q] is written for
    the Number value of the rational [q], as a numeric literal of the
    language is: the double nearest to [q], which [value] computes. *)
Inductive Number : Type :=
| NaN
| Infinity (negative : bool)
| Zero (negative : bool)
| Finite (q : Q).

Definition two (e : Z) : Q := (2 ^ e)%Q.

(** Floor of the binary logarithm of a positive rational *)
Definition ilog2 (a : Q) : Z :=
  if Qle_bool 1%Q a then Z.log2 (Qfloor a)
  else (- Z.log2_up (Qceiling (/ a)))%Z.

(** The exponent of the last place of the doubles of [a]'s binade: 53
    significant bits, and no exponent below that of the subnormals. *)
Definition ulp_exponent (a : Q) : Z := Z.max (ilog2 a - 52) (-1074).

(** Nearest integer, ties to even *)
Definition round_half_even (x : Q) : Z :=
  let f := Qfloor x in
  match (x - inject_Z f ?= 1 # 2)%Q with
  | Lt => f
  | Gt => (f + 1)%Z
  | Eq => if Z.even f then f else (f + 1)%Z
  end.

(** The multiple of the last place nearest to the positive rational [a] *)
Definition nearest (a : Q) : Q :=
  (inject_Z (round_half_even (a / two (ulp_exponent a))) * two (ulp_exponent a))%Q.

(** The double of sign [negative] and magnitude [r], a multiple of the
    last place: 2^1024 stands for the infinity *)
Definition of_magnitude (negative : bool) (r : Q) : Number :=
  if Qle_bool (two 1024) r then Infinity negative
  else if Qeq_bool r 0%Q then Zero negative
  else Finite (Qred (if negative then - r else r)).

(** The Number value for [q]: the nearest double, where 0 gives +0 and a
    magnitude that rounds to 0 gives the zero of the sign of [q] *)
Definition of_Q (q : Q) : Number :=
  match (q ?= 0)%Q with
  | Eq => Zero false
  | Lt => of_magnitude true (nearest (Qabs q))
  | Gt => of_magnitude false (nearest (Qabs q))
  end.

Definition value (x : Number) : Number :=
  match x with
  | Finite q => of_Q q
  | _ => x
  end.

(** A number that holds an integer *)
Definition of_Z (z : Z) : Number := Finite (inject_Z z).

Definition zero : Number := Zero false.
Definition one : Number := Finite 1%Q.

Definition is_NaN (x : Number) : bool :=
  match value x with
  | NaN => true
  | _ => false
  end.

Definition sign (x : Number) : bool :=
  match x with
  | NaN => false
  | Infinity b | Zero b => b
  | Finite q => match (q ?= 0)%Q with Lt => true | _ => false end
  end.

(** The product of two doubles *)
Definition times (x y : Number) : Number :=
  match x, y with
  | NaN, _ | _, NaN => NaN
  | Infinity _, Zero _ | Zero _, Infinity _ => NaN
  | Infinity a, v | v, Infinity a => Infinity (xorb a (sign v))
  | Zero a, v | v, Zero a => Zero (xorb a (sign v))
  | Finite a, Finite b => of_Q (a * b)%Q
  end.

(** [x * y] *)
Definition mul (x y : Number) : Number := times (value x) (value y).

(** [base ** exponent] for an exponent that is a counter.  For a finite
    base other than zero the language leaves the last bit of the result
    to the implementation; the nearest double is taken. *)
Definition exponentiate (base : Number) (exponent : nat) : Number :=
  match exponent with
  | O => one
  | S _ =>
    match value base with
    | NaN => NaN
    | Infinity neg => Infinity (neg && Nat.odd exponent)
    | Zero neg => Zero (neg && Nat.odd exponent)
    | Finite q => of_Q (q ^ Z.of_nat exponent)%Q
    end
  end.

(** The order of the doubles: none with NaN, and the two zeros are equal *)
Definition order (x y : Number) : option comparison :=
  match x, y with
  | NaN, _ | _, NaN => None
  | Infinity a, Infinity b =>
    Some (if a then if b then Eq else Lt else if b then Gt else Eq)
  | Infinity a, _ => Some (if a then Lt else Gt)
  | _, Infinity b => Some (if b then Gt else Lt)
  | Zero _, Zero _ => Some Eq
  | Zero _, Finite q => Some (0 ?= q)%Q
  | Finite q, Zero _ => Some (q ?= 0)%Q
  | Finite p, Finite q => Some (p ?= q)%Q
  end.

Definition before (x y : Number) : bool :=
  match order x y with
  | Some Lt => true
  | _ => false
  end.

Definition not_after (x y : Number) : bool :=
  match order x y with
  | Some Lt | Some Eq => true
  | _ => false
  end.

(** [x < y] and [x <= y] *)
Definition lt (x y : Number) : bool := before (value x) (value y).
Definition le (x y : Number) : bool := not_after (value x) (value y).

(** The lower of two doubles, where -0 is below +0 *)
Definition lowest (x y : Number) : Number :=
  match x, y with
  | NaN, _ | _, NaN => NaN
  | Zero false, Zero true => Zero true
  | a, b => if before b a then b else a
  end.

(** [Math.min(x, y)] *)
Definition min (x y : Number) : Number := lowest (value x) (value y).

(** The finite doubles other than zero: [m * 2^e] with at most 53 bits
    in [m], and fewer than 53 only at the least exponent *)
Definition representable (q : Q) : Prop :=
  exists (m e : Z),
    (Qabs q == inject_Z m * two e)%Q
    /\ (1 <= m < 2 ^ 53)%Z /\ (-1074 <= e <= 971)%Z
    /\ ((m < 2 ^ 52)%Z -> e = (-1074)%Z).

(** The double that a binary64 float of the proof assistant holds *)
Definition of_float (x : float) : Number :=
  match Prim2SF x with
  | S754_zero s => Zero s
  | S754_infinity s => Infinity s
  | S754_nan => NaN
  | S754_finite s m e =>
    Finite (Qred ((if s then - inject_Z (Zpos m) else inject_Z (Zpos m)) * two e))%Q
  end.

(** Doubles to check the operations on: 1000, 1.5, 1.1, 1e200, 1e-200,
    30000, -2.5, the least subnormal, the least normal, the largest
    double, the zeros, the infinities and NaN *)
Definition samples : list float :=
  [1000; 1.5; 0x1.199999999999ap+0; 0x1.4e718d7d7625ap+664;
   0x1.87e92154ef7acp-665; 30000; -2.5; 0x0.0000000000001p-1022; 0x1p-1022;
   0x1.fffffffffffffp+1023; 0; -0; infinity; neg_infinity; nan]%float.

(** Where a double stands: below, among or above the finite ones, and
    at which rational among them *)
Definition tier (x : Number) : Z :=
  match x with
  | Infinity true => -1
  | Infinity false => 1
  | _ => 0
  end.

Definition amount (x : Number) : Q :=
  match x with
  | Finite q => q
  | _ => 0%Q
  end.

Definition stands_not_after (x y : Number) : Prop :=
  x <> NaN /\ y <> NaN
  /\ ((tier x < tier y)%Z \/ tier x = tier y /\ (amount x <= amount y)%Q).

End Double.

(** ** Types of [types.ts] *)

Inductive ConnectionState : Type :=
| disconnected
| connecting
| connected
| reconnecting
| closing.

Definition ConnectionState_eqb (a b : ConnectionState) : bool :=
  match a, b with
  | disconnected, disconnected
  | connecting, connecting
  | connected, connected
  | reconnecting, reconnecting
  | closing, closing => true
  | _, _ => false
  end.

Record ReconnectConfig : Type := {
  reconnect_enabled : bool;
  maxAttempts : Z;
  delay : Double.Number;
  maxDelay : Double.Number;
  factor : Double.Number
}.

Record HeartbeatConfig : Type := {
  heartbeat_enabled : bool;
  interval : Z;
  timeout : Z
}.

Record NormalizedSockeonOptions : Type := {
  namespace : string;
  reconnect : ReconnectConfig;
  heartbeat : HeartbeatConfig
}.

Record SockeonMessage : Type := {
  event : string;
  data : JSON
}.

(** The defaults of [normalizeOptions] *)
Definition default_reconnect : ReconnectConfig :=
  {| reconnect_enabled := true; maxAttempts := 5; delay := Double.Finite 1000;
     maxDelay := Double.Finite 30000; factor := Double.Finite (3 # 2) |}.

Definition default_heartbeat : HeartbeatConfig :=
  {| heartbeat_enabled := true; interval := 30000; timeout := 5000 |}.

Definition default_options : NormalizedSockeonOptions :=
  {| namespace := "/"; reconnect := default_reconnect;
     heartbeat := default_heartbeat |}.

(** ** The browser as seen by the two classes *)

Inductive ReadyState : Type := CONNECTING | OPEN | CLOSING | CLOSED.

Definition ReadyState_eqb (a b : ReadyState) : bool :=
  match a, b with
  | CONNECTING, CONNECTING | OPEN, OPEN | CLOSING, CLOSING | CLOSED, CLOSED => true
  | _, _ => false
  end.

(** Calls made on WebSocket objects, oldest first *)
Inductive WsCall : Type :=
| WsNew (id : nat)
| WsSend (id : nat) (m : SockeonMessage)
| WsClose (id : nat) (code : Z) (reason : string).

(** What a pending timer runs when it fires: the three closures passed to
    [window.setTimeout] / [window.setInterval] in the source. *)
Inductive TimerCallback : Type :=
| ReconnectCallback                 (* Sockeon.scheduleReconnect *)
| HeartbeatCallback                 (* Sockeon.startHeartbeat *)
| PingCallback (timeout_ms : Z).    (* WebSocketTransport.startHeartbeat *)

Record Timer : Type := {
  handle : nat;
  repeating : bool;
  after : Double.Number;
  callback : TimerCallback
}.

(** Payloads handed to [events.emit] *)
Inductive Payload : Type :=
| PConnect (ns : string) (timestamp : Z)
| PDisconnect (code : Z) (reason : string)
| PError (message : string) (timestamp : Z)
| PReconnectAttempt (attempt : nat) (delay_ms : Double.Number)
| PReconnectFailed (attempts : nat) (max : Z)
| PData (d : JSON).

Record Emitted : Type := {
  ev_name : string;
  ev_payload : Payload
}.

Record World : Type := {
  sockets : list (nat * ReadyState);   (* newest binding first *)
  timers : list Timer;                 (* newest first *)
  fresh : nat;                         (* next socket id / timer handle *)
  wire : list WsCall;
  emitted : list Emitted
}.

(** ** Private fields of the two classes *)

Record WebSocketTransport : Type := {
  ws : option nat;
  pingInterval : option nat;
  pongTimeout : option nat;
  lastPongTime : Z
}.

Record Sockeon : Type := {
  options : NormalizedSockeonOptions;
  transport : WebSocketTransport;
  state : ConnectionState;
  reconnectAttempts : nat;
  reconnectTimer : option nat;
  heartbeatTimer : option nat;
  connectedAt : option Z;
  rooms : list string;                 (* a Set, in insertion order *)
  manualDisconnect : bool
}.

Record System : Type := {
  client : Sockeon;
  world : World
}.

(** Field updates, one per field that the source assigns *)

Definition with_ws (v : option nat) (t : WebSocketTransport) :=
  {| ws := v; pingInterval := pingInterval t; pongTimeout := pongTimeout t;
     lastPongTime := lastPongTime t |}.
Definition with_pingInterval (v : option nat) (t : WebSocketTransport) :=
  {| ws := ws t; pingInterval := v; pongTimeout := pongTimeout t;
     lastPongTime := lastPongTime t |}.
Definition with_pongTimeout (v : option nat) (t : WebSocketTransport) :=
  {| ws := ws t; pingInterval := pingInterval t; pongTimeout := v;
     lastPongTime := lastPongTime t |}.
Definition with_lastPongTime (v : Z) (t : WebSocketTransport) :=
  {| ws := ws t; pingInterval := pingInterval t; pongTimeout := pongTimeout t;
     lastPongTime := v |}.

Definition with_transport (f : WebSocketTransport -> WebSocketTransport) (c : Sockeon) :=
  {| options := options c; transport := f (transport c); state := state c;
     reconnectAttempts := reconnectAttempts c; reconnectTimer := reconnectTimer c;
     heartbeatTimer := heartbeatTimer c; connectedAt := connectedAt c;
     rooms := rooms c; manualDisconnect := manualDisconnect c |}.
Definition with_state (v : ConnectionState) (c : Sockeon) :=
  {| options := options c; transport := transport c; state := v;
     reconnectAttempts := reconnectAttempts c; reconnectTimer := reconnectTimer c;
     heartbeatTimer := heartbeatTimer c; connectedAt := connectedAt c;
     rooms := rooms c; manualDisconnect := manualDisconnect c |}.
Definition with_reconnectAttempts (v : nat) (c : Sockeon) :=
  {| options := options c; transport := transport c; state := state c;
     reconnectAttempts := v; reconnectTimer := reconnectTimer c;
     heartbeatTimer := heartbeatTimer c; connectedAt := connectedAt c;
     rooms := rooms c; manualDisconnect := manualDisconnect c |}.
Definition with_reconnectTimer (v : option nat) (c : Sockeon) :=
  {| options := options c; transport := transport c; state := state c;
     reconnectAttempts := reconnectAttempts c; reconnectTimer := v;
     heartbeatTimer := heartbeatTimer c; connectedAt := connectedAt c;
     rooms := rooms c; manualDisconnect := manualDisconnect c |}.
Definition with_heartbeatTimer (v : option nat) (c : Sockeon) :=
  {| options := options c; transport := transport c; state := state c;
     reconnectAttempts := reconnectAttempts c; reconnectTimer := reconnectTimer c;
     heartbeatTimer := v; connectedAt := connectedAt c;
     rooms := rooms c; manualDisconnect := manualDisconnect c |}.
Definition with_connectedAt (v : option Z) (c : Sockeon) :=
  {| options := options c; transport := transport c; state := state c;
     reconnectAttempts := reconnectAttempts c; reconnectTimer := reconnectTimer c;
     heartbeatTimer := heartbeatTimer c; connectedAt := v;
     rooms := rooms c; manualDisconnect := manualDisconnect c |}.
Definition with_rooms (v : list string) (c : Sockeon) :=
  {| options := options c; transport := transport c; state := state c;
     reconnectAttempts := reconnectAttempts c; reconnectTimer := reconnectTimer c;
     heartbeatTimer := heartbeatTimer c; connectedAt := connectedAt c;
     rooms := v; manualDisconnect := manualDisconnect c |}.
Definition with_manualDisconnect (v : bool) (c : Sockeon) :=
  {| options := options c; transport := transport c; state := state c;
     reconnectAttempts := reconnectAttempts c; reconnectTimer := reconnectTimer c;
     heartbeatTimer := heartbeatTimer c; connectedAt := connectedAt c;
     rooms := rooms c; manualDisconnect := v |}.

Definition with_sockets (v : list (nat * ReadyState)) (w : World) :=
  {| sockets := v; timers := timers w; fresh := fresh w; wire := wire w;
     emitted := emitted w |}.
Definition with_timers (v : list Timer) (w : World) :=
  {| sockets := sockets w; timers := v; fresh := fresh w; wire := wire w;
     emitted := emitted w |}.
Definition with_fresh (v : nat) (w : World) :=
  {| sockets := sockets w; timers := timers w; fresh := v; wire := wire w;
     emitted := emitted w |}.
Definition with_wire (v : list WsCall) (w : World) :=
  {| sockets := sockets w; timers := timers w; fresh := fresh w; wire := v;
     emitted := emitted w |}.
Definition with_emitted (v : list Emitted) (w : World) :=
  {| sockets := sockets w; timers := timers w; fresh := fresh w; wire := wire w;
     emitted := v |}.

Definition on_client (f : Sockeon -> Sockeon) (s : System) : System :=
  {| client := f (client s); world := world s |}.
Definition on_world (f : World -> World) (s : System) : System :=
  {| client := client s; world := f (world s) |}.

(** ** Computations: state threading and [throw] *)

Inductive JsError : Type := Error (message : string).

Inductive Completion (A : Type) : Type :=
| Normal (a : A)
| Throw (e : JsError).
Arguments Normal {A} a.
Arguments Throw {A} e.

Definition M (A : Type) : Type := System -> Completion A * System.

Definition ret {A} (a : A) : M A := fun s => (Normal a, s).

Definition bind {A B} (m : M A) (k : A -> M B) : M B :=
  fun s =>
    match m s with
    | (Normal a, s') => k a s'
    | (Throw e, s') => (Throw e, s')
    end.

Definition throw {A} (e : JsError) : M A := fun s => (Throw e, s).
Definition gets {A} (f : System -> A) : M A := fun s => (Normal (f s), s).
Definition modify (f : System -> System) : M unit := fun s => (Normal tt, f s).

Declare Scope js_scope.
Delimit Scope js_scope with js.
Notation "x <- m ;; k" := (bind m (fun x => k))
  (at level 61, m at next level, right associativity) : js_scope.
Notation "m ;; k" := (bind m (fun _ => k))
  (at level 61, right associativity) : js_scope.
Local Open Scope js_scope.

(** The state a call leaves behind, and how the call completed *)
Definition exec {A} (m : M A) (s : System) : System := snd (m s).
Definition completion {A} (m : M A) (s : System) : Completion A := fst (m s).

(** ** Browser primitives *)

Module Window.

Definition readyState (id : nat) (w : World) : ReadyState :=
  match find (fun b => Nat.eqb (fst b) id) (sockets w) with
  | Some (_, r) => r
  | None => CLOSED
  end.

Definition set_readyState (id : nat) (r : ReadyState) : M unit :=
  modify (on_world (fun w => with_sockets ((id, r) :: sockets w) w)).

Definition call (c : WsCall) : M unit :=
  modify (on_world (fun w => with_wire (wire w ++ [c]) w)).

(** [new WebSocket(url, protocols)] for the well-formed URL of the options *)
Definition newWebSocket : M nat :=
  id <- gets (fun s => fresh (world s)) ;;
  modify (on_world (fun w => with_fresh (S id) (with_sockets ((id, CONNECTING) :: sockets w) w))) ;;
  call (WsNew id) ;;
  ret id.

(** [ws.send(json)] on an open socket *)
Definition send (id : nat) (m : SockeonMessage) : M unit :=
  call (WsSend id m).

(** [ws.close(code, reason)] on an open or connecting socket: the closing
    handshake starts, the close event comes later. *)
Definition close (id : nat) (code : Z) (reason : string) : M unit :=
  call (WsClose id code reason) ;;
  set_readyState id CLOSING.

Definition setTimer (rep : bool) (cb : TimerCallback) (ms : Double.Number) : M nat :=
  h <- gets (fun s => fresh (world s)) ;;
  modify (on_world (fun w =>
    with_fresh (S h)
      (with_timers ({| handle := h; repeating := rep; after := ms; callback := cb |}
                    :: timers w) w))) ;;
  ret h.

Definition setTimeout := setTimer false.
Definition setInterval := setTimer true.

(** [clearTimeout(h)] and [clearInterval(h)]; a handle that is no longer
    pending is ignored. *)
Definition clearTimer (h : nat) : M unit :=
  modify (on_world (fun w =>
    with_timers (filter (fun t => negb (Nat.eqb (handle t) h)) (timers w)) w)).

Definition pending (h : nat) (w : World) : option Timer :=
  find (fun t => Nat.eqb (handle t) h) (timers w).

End Window.

(** [events.emit(name, payload)] *)
Definition events_emit (name : string) (p : Payload) : M unit :=
  modify (on_world (fun w =>
    with_emitted (emitted w ++ [{| ev_name := name; ev_payload := p |}]) w)).

(** ** class WebSocketTransport *)

(** The callbacks registered with [transport.on(...)] *)
Record TransportEventHandlers : Type := {
  onOpen : Z -> M unit;
  onMessage : JSON -> M unit;
  onClose : Z -> string -> M unit;
  onError : JsError -> Z -> M unit;
  onPong : M unit
}.

(** What [ws.onmessage] receives: a binary payload ([ArrayBuffer] or
    [Blob]), or text together with the outcome of [JSON.parse] on it. *)
Inductive Frame : Type :=
| BinaryFrame
| TextFrame (decoded : option JSON).

Definition try_catch {A} (m : M A) (handler : JsError -> M A) : M A :=
  fun s =>
    match m s with
    | (Normal a, s') => (Normal a, s')
    | (Throw e, s') => handler e s'
    end.

Module Transport.

Definition this (s : System) : WebSocketTransport := transport (client s).
Definition assign (f : WebSocketTransport -> WebSocketTransport) : M unit :=
  modify (on_client (with_transport f)).

(** [this.ws && this.ws.readyState === r] *)
Definition ws_is (r : ReadyState) (s : System) : bool :=
  match ws (this s) with
  | Some id => ReadyState_eqb (Window.readyState id (world s)) r
  | None => false
  end.

Definition stopHeartbeat : M unit :=
  p <- gets (fun s => pingInterval (this s)) ;;
  match p with
  | Some h => Window.clearTimer h ;; assign (with_pingInterval None)
  | None => ret tt
  end ;;
  q <- gets (fun s => pongTimeout (this s)) ;;
  match q with
  | Some h => Window.clearTimer h ;; assign (with_pongTimeout None)
  | None => ret tt
  end.

Definition connect : M unit :=
  w <- gets (fun s => ws (this s)) ;;
  closed <- gets (ws_is CLOSED) ;;
  match w with
  | Some _ =>
      if negb closed then ret tt            (* already connected or connecting *)
      else id <- Window.newWebSocket ;; assign (with_ws (Some id))
  | None => id <- Window.newWebSocket ;; assign (with_ws (Some id))
  end.

Definition disconnect (code : Z) (reason : string) : M unit :=
  stopHeartbeat ;;
  w <- gets (fun s => ws (this s)) ;;
  match w with
  | Some id =>
      is_open <- gets (ws_is OPEN) ;;
      is_connecting <- gets (ws_is CONNECTING) ;;
      (if is_open || is_connecting then Window.close id code reason else ret tt) ;;
      assign (with_ws None)
  | None => ret tt
  end.

Definition send (message : SockeonMessage) : M unit :=
  w <- gets (fun s => ws (this s)) ;;
  is_open <- gets (ws_is OPEN) ;;
  match w with
  | Some id =>
      if negb is_open then throw (Error "WebSocket is not connected")
      else Window.send id message
  | None => throw (Error "WebSocket is not connected")
  end.

(** The body only logs: no frame is sent and no timestamp is updated. *)
Definition sendPing : M unit :=
  is_open <- gets (ws_is OPEN) ;;
  if negb is_open then ret tt else ret tt.

(** The interval callback of [startHeartbeat] *)
Definition heartbeatTick (timeout_ms : Z) (now : Z) : M unit :=
  last <- gets (fun s => lastPongTime (this s)) ;;
  let timeSinceLastPong := (now - last)%Z in
  if (timeout_ms <? timeSinceLastPong)%Z
  then disconnect 1000 "Heartbeat timeout"
  else sendPing.

Definition startHeartbeat (interval_ms timeout_ms : Z) : M unit :=
  stopHeartbeat ;;
  h <- Window.setInterval (PingCallback timeout_ms) (Double.of_Z interval_ms) ;;
  assign (with_pingInterval (Some h)).

Definition isValidMessage (message : JSON) : bool :=
  if negb (Js.truthy message) || negb (String.eqb (Js.typeof message) "object")
  then false
  else
    match Js.get message "event" with
    | Some (JStr e) =>
        if (String.length e =? 0)%nat then false
        else if negb (Js.has "data" message) then false
        else true
    | _ => false                      (* typeof msg.event !== "string" *)
    end.

Definition JSON_parse (decoded : option JSON) : M JSON :=
  match decoded with
  | Some v => ret v
  | None => throw (Error "SyntaxError")
  end.

Definition handleMessage (h : TransportEventHandlers) (payload : Frame) (now : Z) : M unit :=
  match payload with
  | BinaryFrame =>
      assign (with_lastPongTime now) ;;
      onPong h
  | TextFrame decoded =>
      try_catch
        (message <- JSON_parse decoded ;;
         if negb (isValidMessage message)
         then onError h (Error "Invalid message format") now
         else onMessage h message)
        (fun _ => onError h (Error "Failed to parse message") now)
  end.

(** The four callbacks installed by [setupEventHandlers] *)
Definition ws_onopen (h : TransportEventHandlers) (now : Z) : M unit :=
  assign (with_lastPongTime now) ;;
  onOpen h now.

Definition ws_onmessage (h : TransportEventHandlers) (payload : Frame) (now : Z) : M unit :=
  handleMessage h payload now.

Definition ws_onclose (h : TransportEventHandlers) (code : Z) (reason : string) : M unit :=
  stopHeartbeat ;;
  onClose h code reason.

Definition ws_onerror (h : TransportEventHandlers) (now : Z) : M unit :=
  onError h (Error "WebSocket error occurred") now.

End Transport.

(** ** class Sockeon *)

Module Sockeon.

Definition this (s : System) : Sockeon := client s.
Definition assign (f : Sockeon -> Sockeon) : M unit := modify (on_client f).

Definition state_is (st : ConnectionState) (s : System) : bool :=
  ConnectionState_eqb (state (this s)) st.

(** [Math.min(delay * factor ** attempts, maxDelay)] *)
Definition currentDelay (r : ReconnectConfig) (attempts : nat) : Double.Number :=
  Double.min (Double.mul (delay r) (Double.exponentiate (factor r) attempts))
    (maxDelay r).

(** [Set.prototype.add] and [Set.prototype.delete] on the insertion-ordered
    list of members *)
Definition set_add (x : string) (l : list string) : list string :=
  if existsb (String.eqb x) l then l else l ++ [x].

Definition set_delete (x : string) (l : list string) : list string :=
  filter (fun y => negb (String.eqb x y)) l.

Definition clearReconnectTimer : M unit :=
  t <- gets (fun s => reconnectTimer (this s)) ;;
  match t with
  | Some h => Window.clearTimer h ;; assign (with_reconnectTimer None)
  | None => ret tt
  end.

Definition clearHeartbeatTimer : M unit :=
  t <- gets (fun s => heartbeatTimer (this s)) ;;
  match t with
  | Some h => Window.clearTimer h ;; assign (with_heartbeatTimer None)
  | None => ret tt
  end.

(** The interval callback of [startHeartbeat] *)
Definition heartbeatTick : M unit :=
  is_connected <- gets (state_is connected) ;;
  if is_connected then Transport.sendPing else ret tt.

Definition startHeartbeat : M unit :=
  clearHeartbeatTimer ;;
  ms <- gets (fun s => interval (heartbeat (options (this s)))) ;;
  h <- Window.setInterval HeartbeatCallback (Double.of_Z ms) ;;
  assign (with_heartbeatTimer (Some h)).

(** The timeout callback of [scheduleReconnect] *)
Definition reconnectTick : M unit := Transport.connect.

Definition scheduleReconnect : M unit :=
  r <- gets (fun s => reconnect (options (this s))) ;;
  attempts <- gets (fun s => reconnectAttempts (this s)) ;;
  if (0 <? maxAttempts r)%Z && (maxAttempts r <=? Z.of_nat attempts)%Z
  then
    events_emit "reconnect_failed" (PReconnectFailed attempts (maxAttempts r))
  else
    let ms := currentDelay r attempts in
    assign (with_reconnectAttempts (S attempts)) ;;
    assign (with_state reconnecting) ;;
    events_emit "reconnect_attempt" (PReconnectAttempt (S attempts) ms) ;;
    h <- Window.setTimeout ReconnectCallback ms ;;
    assign (with_reconnectTimer (Some h)).

Definition handleConnect (now : Z) : M unit :=
  assign (with_state connected) ;;
  assign (with_connectedAt (Some now)) ;;
  assign (with_reconnectAttempts 0) ;;
  clearReconnectTimer ;;
  hb <- gets (fun s => heartbeat_enabled (heartbeat (options (this s)))) ;;
  (if hb then startHeartbeat else ret tt) ;;
  ns <- gets (fun s => namespace (options (this s))) ;;
  events_emit "connect" (PConnect ns now).

(** [const { event, data } = message], for a [message] that passed the
    transport's type guard: [event] is then a string and [data] is
    present (the two fallbacks below are never taken). *)
Definition destructure (message : JSON) : SockeonMessage :=
  {| event := match Js.get message "event" with Some (JStr e) => e | _ => "" end;
     data := match Js.get message "data" with Some d => d | None => JNull end |}.

Definition handleMessage (message : JSON) : M unit :=
  let m := destructure message in
  events_emit (event m) (PData (data m)).

Definition handleDisconnect (code : Z) (reason : string) : M unit :=
  clearHeartbeatTimer ;;
  wasConnected <- gets (state_is connected) ;;
  assign (with_state disconnected) ;;
  assign (with_connectedAt None) ;;
  assign (with_rooms []) ;;
  (if wasConnected then events_emit "disconnect" (PDisconnect code reason) else ret tt) ;;
  manual <- gets (fun s => manualDisconnect (this s)) ;;
  enabled <- gets (fun s => reconnect_enabled (reconnect (options (this s)))) ;;
  if negb manual && enabled then scheduleReconnect else ret tt.

Definition handleError (error : JsError) (now : Z) : M unit :=
  let 'Error message := error in
  events_emit "error" (PError message now).

Definition handlePong : M unit := ret tt.

(** [setupTransportHandlers] *)
Definition handlers : TransportEventHandlers :=
  {| onOpen := handleConnect;
     onMessage := handleMessage;
     onClose := handleDisconnect;
     onError := handleError;
     onPong := handlePong |}.

Definition connect : M unit :=
  is_connected <- gets (state_is connected) ;;
  is_connecting <- gets (state_is connecting) ;;
  if is_connected || is_connecting then ret tt
  else
    assign (with_manualDisconnect false) ;;
    assign (with_state connecting) ;;
    Transport.connect.

Definition disconnect : M unit :=
  assign (with_manualDisconnect true) ;;
  clearReconnectTimer ;;
  clearHeartbeatTimer ;;
  is_disconnected <- gets (state_is disconnected) ;;
  if negb is_disconnected then
    assign (with_state closing) ;;
    Transport.disconnect 1000 "Client disconnect"
  else ret tt.

Definition NotConnected : JsError := Error "Cannot emit: WebSocket is not connected".
Definition InvalidEventName : JsError :=
  Error "Invalid event name: only alphanumeric characters, dots, underscores, and hyphens are allowed".
Definition InvalidPayloadShape : JsError := Error "Data must be an object or array".

Definition is_null (v : JSON) : bool :=
  match v with JNull => true | _ => false end.

(** [emit(event, data = {})]; [None] is an omitted (or [undefined]) second
    argument, which takes the default. *)
Definition emit (event : string) (data : option JSON) : M unit :=
  let data := match data with Some d => d | None => JObj [] end in
  is_connected <- gets (state_is connected) ;;
  if negb is_connected then throw NotConnected
  else if negb (Js.event_name_test event) then throw InvalidEventName
  else if negb (String.eqb (Js.typeof data) "object") || is_null data
  then throw InvalidPayloadShape
  else Transport.send {| event := event; data := data |}.

Definition room_payload (room : string) (s : System) : JSON :=
  JObj [("room", JStr room); ("namespace", JStr (namespace (options (this s))))].

Definition joinRoom (room : string) : M unit :=
  is_connected <- gets (state_is connected) ;;
  if negb is_connected then throw (Error "Cannot join room: not connected")
  else
    assign (fun c => with_rooms (set_add room (rooms c)) c) ;;
    payload <- gets (room_payload room) ;;
    emit "join_room" (Some payload).

Definition leaveRoom (room : string) : M unit :=
  is_connected <- gets (state_is connected) ;;
  if negb is_connected then throw (Error "Cannot leave room: not connected")
  else
    assign (fun c => with_rooms (set_delete room (rooms c)) c) ;;
    payload <- gets (room_payload room) ;;
    emit "leave_room" (Some payload).

Definition getRooms (s : System) : list string := rooms (this s).
Definition getState (s : System) : ConnectionState := state (this s).
Definition isConnected (s : System) : bool := state_is connected s.

(** [new Sockeon(options)] in a browser that has run nothing yet *)
Definition create (o : NormalizedSockeonOptions) : System :=
  {| client :=
       {| options := o;
          transport := {| ws := None; pingInterval := None; pongTimeout := None;
                          lastPongTime := 0 |};
          state := disconnected;
          reconnectAttempts := 0;
          reconnectTimer := None;
          heartbeatTimer := None;
          connectedAt := None;
          rooms := [];
          manualDisconnect := false |};
     world := {| sockets := []; timers := []; fresh := 0; wire := []; emitted := [] |} |}.

End Sockeon.

(** ** The event loop: what the browser may run next *)

Module Browser.

Definition run_callback (cb : TimerCallback) (now : Z) : M unit :=
  match cb with
  | ReconnectCallback => Sockeon.reconnectTick
  | HeartbeatCallback => Sockeon.heartbeatTick
  | PingCallback timeout_ms => Transport.heartbeatTick timeout_ms now
  end.

(** A pending timer fires; a timeout is pending once, an interval stays. *)
Definition fire (h : nat) (now : Z) : M unit :=
  t <- gets (fun s => Window.pending h (world s)) ;;
  match t with
  | Some t =>
      (if repeating t then ret tt else Window.clearTimer h) ;;
      run_callback (callback t) now
  | None => ret tt
  end.

Definition ready (id : nat) (r : ReadyState) (s : System) : bool :=
  ReadyState_eqb (Window.readyState id (world s)) r.

(** The handshake of socket [id] completes. *)
Definition opened (id : nat) (now : Z) : M unit :=
  ok <- gets (ready id CONNECTING) ;;
  if ok then
    Window.set_readyState id OPEN ;;
    Transport.ws_onopen Sockeon.handlers now
  else ret tt.

(** A message arrives on the open socket [id]. *)
Definition message (id : nat) (payload : Frame) (now : Z) : M unit :=
  ok <- gets (ready id OPEN) ;;
  if ok then Transport.ws_onmessage Sockeon.handlers payload now else ret tt.

(** Socket [id] closes (gracefully, abruptly, or without ever opening);
    the close event of a socket is fired once. *)
Definition closed (id : nat) (code : Z) (reason : string) : M unit :=
  already <- gets (ready id CLOSED) ;;
  if already then ret tt
  else
    Window.set_readyState id CLOSED ;;
    Transport.ws_onclose Sockeon.handlers code reason.

Definition errored (id : nat) (now : Z) : M unit :=
  Transport.ws_onerror Sockeon.handlers now.

End Browser.

(** * Vocabulary of the statements *)

(** Appending one call of [events.emit] to the trace and nothing else *)
Definition delivered (name : string) (p : Payload) (s : System) : System :=
  on_world (fun w => with_emitted (emitted w ++ [{| ev_name := name; ev_payload := p |}]) w) s.

(** The shape the transport's type guard is documented to accept: an
    object whose [event] is a non-empty string and whose [data] key is
    present. *)
Definition envelope_shape (v : JSON) (e : string) (d : JSON) : Prop :=
  exists fields,
    v = JObj fields /\
    Js.lookup "event" fields = Some (JStr e) /\
    e <> "" /\
    Js.lookup "data" fields = Some d.

Definition chat_send_ok : JSON := JObj [("event", JStr "chat.send"); ("data", JObj [])].
Definition empty_event : JSON := JObj [("event", JStr ""); ("data", JObj [])].
Definition no_data_key : JSON := JObj [("event", JStr "chat.send")].
Definition no_event_key : JSON := JObj [("data", JObj [])].

(** A session that is up: [new Sockeon(defaults)], [connect()], and the
    handshake of the first socket completing at time 0. *)
Definition live : System :=
  exec (Browser.opened 0 0) (exec Sockeon.connect (Sockeon.create default_options)).

Definition spaced_event : JSON := JObj [("event", JStr "a b"); ("data", JObj [])].

(** What one inbound frame may add to the emitted trace *)
Definition inbound_emission (payload : Frame) (x : Emitted) : Prop :=
  match ev_payload x with
  | PData d =>
      exists v, payload = TextFrame (Some v) /\ envelope_shape v (ev_name x) d
  | PError _ _ => ev_name x = "error"
  | _ => False
  end.

(** The language of [^[A-Za-z0-9._-]+$], spelled out: one or more
    characters, each among the sixty-five listed. *)
Definition event_alphabet : list ascii :=
  list_ascii_of_string "abcdefghijklmnopqrstuvwxyzABCDEFGHIJKLMNOPQRSTUVWXYZ0123456789._-".

Definition matches_event_name (e : string) : Prop :=
  e <> "" /\ Forall (fun c => In c event_alphabet) (list_ascii_of_string e).

Definition object_or_array (v : JSON) : Prop :=
  (exists items, v = JArr items) \/ (exists fields, v = JObj fields).

(** The transport has no socket in use: [connect] on it opens one. *)
Definition transport_idle (s : System) : bool :=
  match ws (Transport.this s) with
  | Some id => ReadyState_eqb (Window.readyState id (world s)) CLOSED
  | None => true
  end.

(** [new WebSocket] followed by [this.ws = ...] *)
Definition socket_opened (s : System) : System :=
  let id := fresh (world s) in
  on_client (with_transport (with_ws (Some id)))
    (on_world (fun w =>
       with_wire (wire w ++ [WsNew id])
         (with_fresh (S id) (with_sockets ((id, CONNECTING) :: sockets w) w))) s).

(** The session of [live] after its socket dropped: reconnect attempt 1 is
    scheduled and the state is [reconnecting]. *)
Definition dropped : System := exec (Browser.closed 0 1006 "") live.

(** The two assignments of [connect()] past its guard *)
Definition begin_connecting (s : System) : System :=
  on_client (fun c => with_state connecting (with_manualDisconnect false c)) s.

(** [maxAttempts > 0 && this.reconnectAttempts >= maxAttempts] *)
Definition limit_reached (r : ReconnectConfig) (attempts : nat) : bool :=
  (0 <? maxAttempts r)%Z && (maxAttempts r <=? Z.of_nat attempts)%Z.

Definition reconnect_policy (s : System) : ReconnectConfig :=
  reconnect (options (client s)).

(** The effect of [scheduleReconnect] below the limit: the counter is
    incremented, the state is [reconnecting], [reconnect_attempt] is
    emitted and one single-shot timer is pending. *)
Definition attempt_scheduled (s : System) : System :=
  let r := reconnect_policy s in
  let n := reconnectAttempts (client s) in
  let ms := Sockeon.currentDelay r n in
  let h := fresh (world s) in
  on_client (fun c =>
      with_reconnectTimer (Some h)
        (with_state reconnecting (with_reconnectAttempts (S n) c)))
    (on_world (fun w =>
       with_fresh (S h)
         (with_timers ({| handle := h; repeating := false; after := ms;
                          callback := ReconnectCallback |} :: timers w)
            (with_emitted
               (emitted w ++ [{| ev_name := "reconnect_attempt";
                                 ev_payload := PReconnectAttempt (S n) ms |}]) w))) s).

Definition attempts_exhausted (s : System) : System :=
  delivered "reconnect_failed"
    (PReconnectFailed (reconnectAttempts (client s)) (maxAttempts (reconnect_policy s))) s.

(** The closed handler up to its reconnect decision *)
Definition torn_down (code : Z) (reason : string) (s : System) : System :=
  let s1 := exec Sockeon.clearHeartbeatTimer s in
  let s2 := on_client (fun c =>
              with_rooms [] (with_connectedAt None (with_state disconnected c))) s1 in
  if Sockeon.state_is connected s
  then delivered "disconnect" (PDisconnect code reason) s2
  else s2.

(** [!this.manualDisconnect && this.options.reconnect.enabled] *)
Definition wants_reconnect (s : System) : bool :=
  negb (manualDisconnect (client s)) && reconnect_enabled (reconnect_policy s).

Definition is_disconnect_event (x : Emitted) : bool := String.eqb (ev_name x) "disconnect".

Definition is_reconnect_timer (t : Timer) : bool :=
  match callback t with ReconnectCallback => true | _ => false end.

(** The handle of the pending reconnect timer, if there is one *)
Definition due_reconnect (w : World) : option nat :=
  option_map handle (find is_reconnect_timer (timers w)).

(** One unexpected close: the socket in use closes with [code] and
    [reason] (a dropped connection, or an attempt that never opened), and
    then the reconnect timer it caused, if any, runs. *)
Definition unexpected_close (code : Z) (reason : string) (now : Z) : M unit :=
  w <- gets (fun s => ws (Transport.this s)) ;;
  match w with
  | Some id => Browser.closed id code reason
  | None => ret tt
  end ;;
  t <- gets (fun s => due_reconnect (world s)) ;;
  match t with
  | Some h => Browser.fire h now
  | None => ret tt
  end.

(** One close event as the browser reports it, and the time at which the
    reconnect timer it causes is run *)
Record Close : Type := {
  close_code : Z;
  close_reason : string;
  close_time : Z
}.

Definition drop (c : Close) : System -> System :=
  exec (unexpected_close (close_code c) (close_reason c) (close_time c)).

(** An abnormal closure (code 1006, empty reason), the usual report of a
    lost connection or a failed attempt *)
Definition lost : Close := {| close_code := 1006; close_reason := ""; close_time := 0 |}.

(** [reconnect_attempt] and [reconnect_failed] events of a trace *)
Definition attempt_delays (l : list Emitted) : list Double.Number :=
  flat_map (fun x => match ev_payload x with
                     | PReconnectAttempt _ ms => [ms]
                     | _ => []
                     end) l.

Definition attempt_numbers (l : list Emitted) : list nat :=
  flat_map (fun x => match ev_payload x with
                     | PReconnectAttempt k _ => [k]
                     | _ => []
                     end) l.

Definition failures (l : list Emitted) : list (nat * Z) :=
  flat_map (fun x => match ev_payload x with
                     | PReconnectFailed k m => [(k, m)]
                     | _ => []
                     end) l.

(** A session with a socket that has not closed, no manual disconnect
    requested, reconnection enabled and no reconnect timer pending. *)
Definition supervised (s : System) : Prop :=
  manualDisconnect (client s) = false
  /\ reconnect_enabled (reconnect_policy s) = true
  /\ (exists id, ws (Transport.this s) = Some id
                 /\ Window.readyState id (world s) <> CLOSED)
  /\ due_reconnect (world s) = None.

(** What the closed transition leaves alone *)
Definition same_link (s s' : System) : Prop :=
  options (client s') = options (client s)
  /\ manualDisconnect (client s') = manualDisconnect (client s)
  /\ reconnectAttempts (client s') = reconnectAttempts (client s)
  /\ ws (Transport.this s') = ws (Transport.this s)
  /\ sockets (world s') = sockets (world s)
  /\ fresh (world s') = fresh (world s)
  /\ (due_reconnect (world s) = None -> due_reconnect (world s') = None).

Definition closed_socket (id : nat) (s : System) : System :=
  on_world (fun w => with_sockets ((id, CLOSED) :: sockets w) w) s.

(** The reconnect timer set by [attempt_scheduled] fires: it is no
    longer pending and the transport is asked to open. *)
Definition timer_fired (t : System) : System :=
  exec (Window.clearTimer (fresh (world t))) (attempt_scheduled t).

(** The state in which the closed handler takes its reconnect decision,
    for the socket [id] closing unexpectedly *)
Definition closed_mid (c : Close) (id : nat) (s : System) : System :=
  torn_down (close_code c) (close_reason c)
    (exec Transport.stopHeartbeat (closed_socket id s)).

(** Unexpected closes in a row, the first of the list first *)
Definition drops (cs : list Close) (s : System) : System :=
  fold_left (fun t c => drop c t) cs s.

(** The formula of the specification, [min(initialDelay * factor^k, maxDelay)],
    with the power as an iterated product *)
Fixpoint power (f : Q) (k : nat) : Q :=
  match k with
  | O => 1
  | S k' => f * power f k'
  end.

Definition spec_delay (initialDelay backoffFactor maxDelay_ : Q) (k : nat) : Q :=
  Qmin (initialDelay * power backoffFactor k) maxDelay_.


(** A policy within [factor >= 1] and [delay >= 0] whose power
    overflows: [{ delay: 0, factor: 1e200, maxDelay: 30000 }] *)
Definition overflowing : NormalizedSockeonOptions :=
  {| namespace := "/";
     reconnect := {| reconnect_enabled := true; maxAttempts := 5;
                     delay := Double.Finite 0;
                     maxDelay := Double.Finite 30000;
                     factor := Double.Finite (inject_Z (10 ^ 200)) |};
     heartbeat := default_heartbeat |}.

Definition live_overflowing : System :=
  exec (Browser.opened 0 0) (exec Sockeon.connect (Sockeon.create overflowing)).

(** A policy whose factor is not a dyadic rational:
    [{ delay: 1000, factor: 1.1, maxDelay: 30000 }] *)
Definition rounding : NormalizedSockeonOptions :=
  {| namespace := "/";
     reconnect := {| reconnect_enabled := true; maxAttempts := 5;
                     delay := Double.Finite 1000;
                     maxDelay := Double.Finite 30000;
                     factor := Double.Finite (11 # 10) |};
     heartbeat := default_heartbeat |}.

(** The double written [1.1] *)
Definition tenth_more : Q := 2476979795053773 # 2251799813685248.


(** The heartbeat of the transport class, had it been started on the live
    session: its first tick, 30000 ms after the last liveness signal,
    closes the socket. *)
Definition live_with_transport_heartbeat : System :=
  exec (Transport.startHeartbeat 30000 5000) live.

(** What can happen next: a call of the public interface, an event of a
    socket, or a timer firing. *)
Inductive Action : Type :=
| CallConnect
| CallDisconnect
| CallEmit (e : string) (d : option JSON)
| CallJoinRoom (room : string)
| CallLeaveRoom (room : string)
| SocketOpened (id : nat)
| SocketMessage (id : nat) (payload : Frame)
| SocketClosed (id : nat) (code : Z) (reason : string)
| SocketErrored (id : nat)
| TimerFired (h : nat).

Definition perform (a : Action) (now : Z) : M unit :=
  match a with
  | CallConnect => Sockeon.connect
  | CallDisconnect => Sockeon.disconnect
  | CallEmit e d => Sockeon.emit e d
  | CallJoinRoom room => Sockeon.joinRoom room
  | CallLeaveRoom room => Sockeon.leaveRoom room
  | SocketOpened id => Browser.opened id now
  | SocketMessage id payload => Browser.message id payload now
  | SocketClosed id code reason => Browser.closed id code reason
  | SocketErrored id => Browser.errored id now
  | TimerFired h => Browser.fire h now
  end.

(** A run: actions with the time at which each happens.  An exception
    thrown by a call is the caller's; the run goes on. *)
Fixpoint run (trace : list (Action * Z)) (s : System) : System :=
  match trace with
  | [] => s
  | (a, now) :: rest => run rest (exec (perform a now) s)
  end.

Definition is_ping_timer (t : Timer) : bool :=
  match callback t with PingCallback _ => true | _ => false end.

(** The heartbeat of the transport class is not armed, and the room set
    has no repeated member. *)
Definition well_formed (s : System) : Prop :=
  pingInterval (Transport.this s) = None
  /\ forallb (fun t => negb (is_ping_timer t)) (timers (world s)) = true
  /\ NoDup (Sockeon.getRooms s).

Definition preserves {A} (I : System -> Prop) (m : M A) : Prop :=
  forall s, I s -> I (exec m s).

(** A manual disconnect of the live session followed at once by a new
    [connect()], whose socket (id 2) completes its handshake before the
    close event of the old socket (id 0) is delivered. *)
Definition reconnect_race : list (Action * Z) :=
  [(CallDisconnect, 10%Z); (CallConnect, 11%Z); (SocketOpened 2, 20%Z);
   (SocketClosed 0 1000 "Client disconnect", 30%Z)].

(** ** class EventEmitter ([events.ts]) *)

(** What [on] and [once] are handed as a handler: a function, known by
    its identity, or a value that is not a function. *)
Inductive Listener : Type :=
| Function (id : nat)
| NotAFunction.

Record HandlerWrapper : Type := {
  handler : nat;
  once : bool
}.

(** One call [wrapper.handler(data)] *)
Record Invocation : Type := {
  callee : nat;
  argument : Payload
}.

(** The private [events] map, a [Map] in the insertion order of its keys.
    Handlers are taken not to call back into the emitter while they run;
    [throws f data] says whether the function [f] throws on [data]. *)
Module EventEmitter.

Definition Events : Type := list (string * list HandlerWrapper).

Fixpoint get (k : string) (m : Events) : option (list HandlerWrapper) :=
  match m with
  | [] => None
  | (k', v) :: rest => if String.eqb k k' then Some v else get k rest
  end.

Definition has (k : string) (m : Events) : bool :=
  match get k m with Some _ => true | None => false end.

(** [Map.prototype.set]: an existing key keeps its place *)
Fixpoint set (k : string) (v : list HandlerWrapper) (m : Events) : Events :=
  match m with
  | [] => [(k, v)]
  | (k', v') :: rest =>
      if String.eqb k k' then (k, v) :: rest else (k', v') :: set k v rest
  end.

Definition delete (k : string) (m : Events) : Events :=
  filter (fun kv => negb (String.eqb k (fst kv))) m.

(** [this.events.get(event) || []] *)
Definition listeners (event : string) (m : Events) : list HandlerWrapper :=
  match get event m with Some l => l | None => [] end.

Definition register (is_once : bool) (event : string) (h : Listener) (m : Events)
  : Completion unit * Events :=
  match h with
  | NotAFunction => (Throw (Error "Event handler must be a function"), m)
  | Function f =>
      (Normal tt, set event (listeners event m ++ [{| handler := f; once := is_once |}]) m)
  end.

Definition on : string -> Listener -> Events -> Completion unit * Events :=
  register false.

(** [off(event, handler?)]; [None] is an omitted handler. *)
Definition off (event : string) (h : option nat) (m : Events) : Events :=
  if negb (has event m) then m
  else
    match h with
    | None => delete event m
    | Some f =>
        let filtered := filter (fun w => negb (handler w =? f)%nat) (listeners event m) in
        if (List.length filtered =? 0)%nat then delete event m else set event filtered m
    end.

(** The loop of [callHandlers]: every wrapper is called; a wrapper marked
    [once] whose call returned is noted for removal. *)
Fixpoint call_each (throws : nat -> Payload -> bool)
    (handlers : list HandlerWrapper) (data : Payload) : list Invocation * list nat :=
  match handlers with
  | [] => ([], [])
  | w :: rest =>
      let (calls, toRemove) := call_each throws rest data in
      ({| callee := handler w; argument := data |} :: calls,
       if throws (handler w) data then toRemove
       else if once w then handler w :: toRemove else toRemove)
  end.

Definition callHandlers (throws : nat -> Payload -> bool)
    (event : string) (handlers : list HandlerWrapper) (data : Payload) (m : Events)
  : Events * list Invocation :=
  let (calls, toRemove) := call_each throws handlers data in
  if (0 <? List.length toRemove)%nat then
    let remaining :=
      filter (fun w => negb (existsb (Nat.eqb (handler w)) toRemove)) handlers in
    (if (List.length remaining =? 0)%nat then delete event m else set event remaining m,
     calls)
  else (m, calls).

Definition emit (throws : nat -> Payload -> bool)
    (event : string) (data : Payload) (m : Events) : Events * list Invocation :=
  let (m1, calls1) := callHandlers throws event (listeners event m) data m in
  let wildcardHandlers := listeners "*" m1 in
  if (0 <? List.length wildcardHandlers)%nat then
    let (m2, calls2) := callHandlers throws event wildcardHandlers data m1 in
    (m2, calls1 ++ calls2)
  else (m1, calls1).

Definition removeAllListeners (m : Events) : Events := [].

Definition eventNames (m : Events) : list string := map fst m.

Definition listenerCount (event : string) (m : Events) : nat :=
  List.length (listeners event m).

Definition hasListeners (event : string) (m : Events) : bool :=
  (0 <? listenerCount event m)%nat.

Definition once : string -> Listener -> Events -> Completion unit * Events :=
  register true.

End EventEmitter.

(** The calls of one wrapper list on [data], in order *)
Definition calls_of (l : list HandlerWrapper) (data : Payload) : list Invocation :=
  map (fun w => {| callee := handler w; argument := data |}) l.

(** The functions a round of [callHandlers] unregisters: those with a
    [once] wrapper in the list whose call returned *)
Definition completed_once (throws : nat -> Payload -> bool)
    (l : list HandlerWrapper) (data : Payload) (f : nat) : bool :=
  existsb (fun w => once w && negb (throws (handler w) data) && (handler w =? f)%nat) l.

(** The map of an emitter: no key is repeated and no key holds an empty list. *)
Definition emitter_ok (m : EventEmitter.Events) : Prop :=
  NoDup (map fst m) /\ Forall (fun kv => snd kv <> []) m.
(** What a round of [callHandlers] leaves of the list it ran *)
Definition kept (throws : nat -> Payload -> bool)
    (l : list HandlerWrapper) (data : Payload) : list HandlerWrapper :=
  filter (fun w => negb (completed_once throws l data (handler w))) l.

(** Whether a round of [callHandlers] on [l] unregisters anything *)
Definition any_completed (throws : nat -> Payload -> bool)
    (l : list HandlerWrapper) (data : Payload) : bool :=
  existsb (fun w => once w && negb (throws (handler w) data)) l.

(** Calls made on an emitter by its owner and by the application *)
Inductive EmitterCall : Type :=
| DoOn (event : string) (h : Listener)
| DoOnce (event : string) (h : Listener)
| DoOff (event : string) (h : option nat)
| DoEmit (event : string) (data : Payload)
| DoRemoveAll.

Definition emitter_step (throws : nat -> Payload -> bool)
    (m : EventEmitter.Events) (c : EmitterCall) : EventEmitter.Events :=
  match c with
  | DoOn e h => snd (EventEmitter.on e h m)
  | DoOnce e h => snd (EventEmitter.once e h m)
  | DoOff e h => EventEmitter.off e h m
  | DoEmit e d => fst (EventEmitter.emit throws e d m)
  | DoRemoveAll => EventEmitter.removeAllListeners m
  end.

(** The emitter after a sequence of calls on a new one *)
Definition emitter_after (throws : nat -> Payload -> bool)
    (calls : list EmitterCall) : EventEmitter.Events :=
  fold_left (emitter_step throws) calls [].

(** [on] or [once], by the flag the wrapper gets *)
Definition subscribe (is_once : bool) : string -> Listener -> EventEmitter.Events ->
    Completion unit * EventEmitter.Events :=
  if is_once then EventEmitter.once else EventEmitter.on.

(** An emitter with a plain and a one-time handler on ["chat"] and a
    plain wildcard handler *)
Definition sample_emitter : EventEmitter.Events :=
  [("chat", [{| handler := 1; once := false |}; {| handler := 2; once := true |}]);
   ("*", [{| handler := 3; once := false |}])].

(** The same with a one-time wildcard handler *)
Definition sample_emitter_wild_once : EventEmitter.Events :=
  [("chat", [{| handler := 1; once := false |}]);
   ("*", [{| handler := 3; once := true |}; {| handler := 4; once := false |}])].

(** Handler 1 throws on every payload, the others return. *)
Definition first_throws (f : nat) (d : Payload) : bool := (f =? 1)%nat.

(** ** Options as the application gives them ([SockeonOptions]) *)

(** [Partial<ReconnectConfig>] and [Partial<HeartbeatConfig>]: [None] is an
    absent property. *)
Record PartialReconnect : Type := {
  p_reconnect_enabled : option bool;
  p_maxAttempts : option Z;
  p_delay : option Double.Number;
  p_maxDelay : option Double.Number;
  p_factor : option Double.Number
}.

Record PartialHeartbeat : Type := {
  p_heartbeat_enabled : option bool;
  p_interval : option Z;
  p_timeout : option Z
}.

(** [boolean | Partial<Config>] *)
Inductive Switch (A : Type) : Type :=
| Flag (b : bool)
| Fields (p : A).
Arguments Flag {A} b.
Arguments Fields {A} p.

(** The options that [normalizeOptions] computes with; [url], [auth],
    [query], [protocols] and [debug] are handed on to the transport and do
    not enter the controller's decisions. *)
Record SockeonOptions : Type := {
  o_namespace : option string;
  o_reconnect : option (Switch PartialReconnect);
  o_heartbeat : option (Switch PartialHeartbeat)
}.

(** [a ?? b] on an optional property, as the spread of a partial object
    over the defaults computes it field by field *)
Definition or_default {A} (given : option A) (default : A) : A :=
  match given with Some a => a | None => default end.

Definition merge_reconnect (d : ReconnectConfig) (p : PartialReconnect) : ReconnectConfig :=
  {| reconnect_enabled := or_default (p_reconnect_enabled p) (reconnect_enabled d);
     maxAttempts := or_default (p_maxAttempts p) (maxAttempts d);
     delay := or_default (p_delay p) (delay d);
     maxDelay := or_default (p_maxDelay p) (maxDelay d);
     factor := or_default (p_factor p) (factor d) |}.

Definition merge_heartbeat (d : HeartbeatConfig) (p : PartialHeartbeat) : HeartbeatConfig :=
  {| heartbeat_enabled := or_default (p_heartbeat_enabled p) (heartbeat_enabled d);
     interval := or_default (p_interval p) (interval d);
     timeout := or_default (p_timeout p) (timeout d) |}.

(** [Sockeon.normalizeOptions] *)
Definition normalizeOptions (options_ : SockeonOptions) : NormalizedSockeonOptions :=
  let reconnect_ :=
    match o_reconnect options_ with
    | Some (Flag b) =>
        merge_reconnect default_reconnect
          {| p_reconnect_enabled := Some b; p_maxAttempts := None; p_delay := None;
             p_maxDelay := None; p_factor := None |}
    | Some (Fields p) => merge_reconnect default_reconnect p
    | None => default_reconnect
    end in
  let heartbeat_ :=
    match o_heartbeat options_ with
    | Some (Flag b) =>
        merge_heartbeat default_heartbeat
          {| p_heartbeat_enabled := Some b; p_interval := None; p_timeout := None |}
    | Some (Fields p) => merge_heartbeat default_heartbeat p
    | None => default_heartbeat
    end in
  {| namespace :=
       match o_namespace options_ with
       | Some ns => if String.eqb ns "" then "/" else ns     (* options.namespace || "/" *)
       | None => "/"
       end;
     reconnect := reconnect_;
     heartbeat := heartbeat_ |}.

(** A configuration written out in full as options *)
Definition spelled_out (n : NormalizedSockeonOptions) : SockeonOptions :=
  {| o_namespace := Some (namespace n);
     o_reconnect :=
       Some (Fields {| p_reconnect_enabled := Some (reconnect_enabled (reconnect n));
                       p_maxAttempts := Some (maxAttempts (reconnect n));
                       p_delay := Some (delay (reconnect n));
                       p_maxDelay := Some (maxDelay (reconnect n));
                       p_factor := Some (factor (reconnect n)) |});
     o_heartbeat :=
       Some (Fields {| p_heartbeat_enabled := Some (heartbeat_enabled (heartbeat n));
                       p_interval := Some (interval (heartbeat n));
                       p_timeout := Some (timeout (heartbeat n)) |}) |}.

(** ** Read-only queries *)

(** [ConnectionInfo], without the [url] *)
Record ConnectionInfo : Type := {
  ci_state : ConnectionState;
  ci_namespace : string;
  ci_connectedAt : option Z;
  ci_reconnectAttempts : nat;
  ci_isReconnecting : bool
}.

(** [Sockeon.getConnectionInfo] *)
Definition getConnectionInfo (s : System) : ConnectionInfo :=
  {| ci_state := state (client s);
     ci_namespace := namespace (options (client s));
     ci_connectedAt := connectedAt (client s);
     ci_reconnectAttempts := reconnectAttempts (client s);
     ci_isReconnecting := ConnectionState_eqb (state (client s)) reconnecting |}.

Module TransportQueries.

(** [WebSocketTransport.getState]: [this.ws?.readyState ?? WebSocket.CLOSED] *)
Definition getState (s : System) : ReadyState :=
  match ws (Transport.this s) with
  | Some id => Window.readyState id (world s)
  | None => CLOSED
  end.

(** [WebSocketTransport.isConnected]: [this.ws?.readyState === WebSocket.OPEN] *)
Definition isConnected (s : System) : bool :=
  match ws (Transport.this s) with
  | Some id => ReadyState_eqb (Window.readyState id (world s)) OPEN
  | None => false
  end.

End TransportQueries.

(** The fields of the controller that make up its lifecycle *)
Definition lifecycle (s : System) :
    NormalizedSockeonOptions * ConnectionState * nat * option Z * list string :=
  (options (client s), state (client s), reconnectAttempts (client s),
   connectedAt (client s), rooms (client s)).

(** What the lifecycle fields satisfy between any two callbacks *)
Definition lifecycle_ok (s : System) : Prop :=
  let c := client s in
  match state c with
  | connected => reconnectAttempts c = 0%nat /\ connectedAt c <> None
  | disconnected => rooms c = [] /\ connectedAt c = None
  | reconnecting => rooms c = [] /\ connectedAt c = None /\ (1 <= reconnectAttempts c)%nat
  | connecting | closing => True
  end
  /\ ((0 < maxAttempts (reconnect (options c)))%Z ->
      (Z.of_nat (reconnectAttempts c) <= maxAttempts (reconnect (options c)))%Z).

(** [lifecycle_ok] read off the lifecycle fields *)
Definition lifecycle_ok_at
    (x : NormalizedSockeonOptions * ConnectionState * nat * option Z * list string) : Prop :=
  let '(o, st, n, ca, rms) := x in
  match st with
  | connected => n = 0%nat /\ ca <> None
  | disconnected => rms = [] /\ ca = None
  | reconnecting => rms = [] /\ ca = None /\ (1 <= n)%nat
  | connecting | closing => True
  end
  /\ ((0 < maxAttempts (reconnect o))%Z -> (Z.of_nat n <= maxAttempts (reconnect o))%Z).

Definition is_heartbeat_timer (t : Timer) : bool :=
  match callback t with HeartbeatCallback => true | _ => false end.

(** The handles in use were all handed out by the window (they are below
    the next free one) and no two pending timers share one; a pending
    heartbeat interval is the one recorded in [heartbeatTimer], not the
    one recorded in [reconnectTimer], and repeats every
    [heartbeat.interval] ms; the transport's own two timers are unused. *)
Definition timers_ok (s : System) : Prop :=
  Forall (fun t => (handle t < fresh (world s))%nat) (timers (world s))
  /\ NoDup (map handle (timers (world s)))
  /\ (forall h, reconnectTimer (client s) = Some h -> (h < fresh (world s))%nat)
  /\ (forall h, heartbeatTimer (client s) = Some h -> (h < fresh (world s))%nat)
  /\ (forall t, In t (timers (world s)) -> is_heartbeat_timer t = true ->
        heartbeatTimer (client s) = Some (handle t))
  /\ (forall t, In t (timers (world s)) -> is_heartbeat_timer t = true ->
        reconnectTimer (client s) <> Some (handle t))
  /\ (forall t, In t (timers (world s)) -> is_heartbeat_timer t = true ->
        repeating t = true
        /\ after t = Double.of_Z (interval (heartbeat (options (client s)))))
  /\ pingInterval (Transport.this s) = None
  /\ pongTimeout (Transport.this s) = None.

(** [m], started in a state of [P], leaves a state of [Q], whether it
    returns or throws. *)
Definition hoare {A} (P : System -> Prop) (m : M A) (Q : System -> Prop) : Prop :=
  forall s, P s -> Q (exec m s).

Definition heartbeat_pending (s : System) : bool :=
  existsb is_heartbeat_timer (timers (world s)).

(** The heartbeat interval is pending exactly while the controller is
    connected with the heartbeat option enabled. *)
Definition heartbeat_coupled (s : System) : Prop :=
  (heartbeat_pending s = true -> state (client s) = connected)
  /\ (state (client s) = connected ->
      heartbeat_enabled (heartbeat (options (client s))) = true ->
      heartbeat_pending s = true).

(** What the calls that neither start nor stop a timer keep *)
Definition timer_frame (s : System) : list Timer * option nat * option nat :=
  (timers (world s), pingInterval (Transport.this s), pongTimeout (Transport.this s)).

(** [m] never throws. *)
Definition returns {A} (m : M A) : Prop :=
  forall s, exists a, completion m s = Normal a.

(** A socket whose handshake is under way or done *)
Definition is_live (r : ReadyState) : bool :=
  match r with CONNECTING | OPEN => true | _ => false end.

(** Every socket that is connecting or open is the one the transport
    holds in [ws]. *)
Definition sockets_ok (s : System) : Prop :=
  forall id, is_live (Window.readyState id (world s)) = true ->
             ws (Transport.this s) = Some id.

Definition is_reconnect_event (x : Emitted) : bool :=
  match ev_payload x with
  | PReconnectAttempt _ _ | PReconnectFailed _ _ => true
  | _ => false
  end.

(** The two ways the closed handler is kept from scheduling:
    [options.reconnect.enabled] is false, or [manualDisconnect] is set. *)
Inductive Suppression : Type := ByOption | ByManualDisconnect.

Definition reconnect_off (why : Suppression) (s : System) : Prop :=
  match why with
  | ByOption => reconnect_enabled (reconnect_policy s) = false
  | ByManualDisconnect => manualDisconnect (client s) = true
  end.

(** Nothing of the reconnect machinery has moved since a state with
    [n0] attempts counted, the reconnect events [X] emitted and the
    timers [T0] pending. *)
Definition quiet (why : Suppression) (n0 : nat) (X : list Emitted) (T0 : list Timer)
    (s : System) : Prop :=
  reconnect_off why s
  /\ state (client s) <> reconnecting
  /\ (reconnectAttempts (client s) <= n0)%nat
  /\ reconnectTimer (client s) = None
  /\ filter is_reconnect_event (emitted (world s)) = X
  /\ (forall u, In u (timers (world s)) -> is_reconnect_timer u = true -> In u T0).

(** [new Sockeon({url, reconnect: false})] *)
Definition without_reconnect : NormalizedSockeonOptions :=
  normalizeOptions {| o_namespace := None; o_reconnect := Some (Flag false);
                      o_heartbeat := None |}.

(** The first socket opens and is then lost. *)
Definition open_then_lost : list (Action * Z) :=
  [(CallConnect, 0%Z); (SocketOpened 0, 1%Z); (SocketClosed 0 1006 "", 2%Z)].

(** The close event of the socket [disconnect()] closed, and a late tick
    of the heartbeat interval *)
Definition closing_events : list (Action * Z) :=
  [(SocketClosed 0 1000 "Client disconnect", 5%Z); (TimerFired 1, 30000%Z)].

Definition calls_connect (a : Action) : bool :=
  match a with CallConnect => true | _ => false end.

(** One more call on a socket *)
Definition sent (c : WsCall) (s : System) : System :=
  on_world (fun w => with_wire (wire w ++ [c]) w) s.

(** Everything but the emitted events and the transport's [lastPongTime] *)
Definition connection (s : System) : Sockeon * World :=
  (with_transport (with_lastPongTime 0) (client s), with_emitted [] (world s)).

(** Once [disconnect()] has run, the controller holds no timer, and
    unless it was [disconnected] already the transport holds no socket
    and no timer either. *)
Definition settled (t : System) : Prop :=
  manualDisconnect (client t) = true
  /\ reconnectTimer (client t) = None
  /\ heartbeatTimer (client t) = None
  /\ (state (client t) = disconnected
      \/ (state (client t) = closing
          /\ ws (Transport.this t) = None
          /\ pingInterval (Transport.this t) = None
          /\ pongTimeout (Transport.this t) = None)).

(** ** [WebSocketTransport.buildUrl] *)

(** [URLSearchParams]: the name-value pairs of a URL's query, in order *)
Module Url.

Definition SearchParams : Type := list (string * string).

Definition named (name : string) (p : string * string) : bool := String.eqb (fst p) name.

(** [searchParams.set(name, value)]: the first pair of that name takes
    the value and the others are removed; without one, the pair is
    appended. *)
Fixpoint set (name value : string) (l : SearchParams) : SearchParams :=
  match l with
  | [] => [(name, value)]
  | p :: rest =>
      if named name p
      then (name, value) :: filter (fun q => negb (named name q)) rest
      else p :: set name value rest
  end.

(** [searchParams.getAll(name)] *)
Definition getAll (name : string) (l : SearchParams) : list string :=
  map snd (filter (named name) l).

End Url.

Record AuthConfig : Type := { token : option string }.

(** The options [buildUrl] reads: the query of [new URL(options.url)],
    [auth] and the entries of [query] in the order of [Object.entries]. *)
Record TransportOptions : Type := {
  url_search : Url.SearchParams;
  auth : option AuthConfig;
  query : option (list (string * string))
}.

(** [this.options.auth?.token], when truthy *)
Definition auth_token (o : TransportOptions) : option string :=
  match auth o with
  | Some a =>
      match token a with
      | Some t => if (String.length t =? 0)%nat then None else Some t
      | None => None
      end
  | None => None
  end.

(** The query of the URL that [buildUrl] returns *)
Definition buildUrl (o : TransportOptions) : Url.SearchParams :=
  let search :=
    match auth_token o with
    | Some t => Url.set "key" t (url_search o)
    | None => url_search o
    end in
  match query o with
  | Some entries => fold_left (fun acc kv => Url.set (fst kv) (snd kv) acc) entries search
  | None => search
  end.

(** [ws://host/?room=a&key=old] with a token and two query entries, one
    of them named [key] *)
Definition sample_transport_options : TransportOptions :=
  {| url_search := [("room", "a"); ("key", "old")];
     auth := Some {| token := Some "secret" |};
     query := Some [("key", "override"); ("lang", "en")] |}.

(** The timer of the first reconnect attempt of [dropped] *)
Definition first_attempt_timer : Timer :=
  {| handle := 2; repeating := false; after := Double.Finite 1000;
     callback := ReconnectCallback |}.

(** The name under which the controller emits each of its own events;
    [PData] is what the server sent, under the name the server chose. *)
Definition lifecycle_name (p : Payload) : option string :=
  match p with
  | PConnect _ _ => Some "connect"
  | PDisconnect _ _ => Some "disconnect"
  | PError _ _ => Some "error"
  | PReconnectAttempt _ _ => Some "reconnect_attempt"
  | PReconnectFailed _ _ => Some "reconnect_failed"
  | PData _ => None
  end.

Definition well_named (x : Emitted) : Prop :=
  match lifecycle_name (ev_payload x) with
  | Some name => ev_name x = name
  | None => True
  end.

(** Reading the emitted events from the first on: [Some up] when every
    [disconnect] found the connection announced ([connect] emitted and
    no [disconnect] since), [up] telling whether it is announced at the
    end; [None] when some [disconnect] came unannounced. *)
Fixpoint announced (up : bool) (l : list Emitted) : option bool :=
  match l with
  | [] => Some up
  | x :: rest =>
      match ev_payload x with
      | PConnect _ _ => announced true rest
      | PDisconnect _ _ => if up then announced false rest else None
      | _ => announced up rest
      end
  end.

Definition announcements_ok (s : System) : Prop :=
  exists up, announced false (emitted (world s)) = Some up
             /\ (state (client s) = connected -> up = true).

(** ** The calls made on sockets *)

Definition created (l : list WsCall) : list nat :=
  flat_map (fun c => match c with WsNew id => [id] | _ => [] end) l.

Definition asked_to_close (l : list WsCall) : list nat :=
  flat_map (fun c => match c with WsClose id _ _ => [id] | _ => [] end) l.

Definition among (id : nat) (l : list nat) : bool := existsb (Nat.eqb id) l.

(** The calls [l], made after sockets [opened] were created and sockets
    [closed] were asked to close, keep to the life of a socket: created
    once, then used, then closed at most once, and never used after. *)
Fixpoint follows (opened closed : list nat) (l : list WsCall) : bool :=
  match l with
  | [] => true
  | WsNew id :: rest =>
      negb (among id opened) && follows (opened ++ [id]) closed rest
  | WsSend id _ :: rest =>
      among id opened && negb (among id closed) && follows opened closed rest
  | WsClose id _ _ :: rest =>
      among id opened && negb (among id closed) && follows opened (closed ++ [id]) rest
  end.

Definition wire_ok (s : System) : Prop :=
  follows [] [] (wire (world s)) = true
  /\ (forall id, In id (asked_to_close (wire (world s))) ->
                 is_live (Window.readyState id (world s)) = false)
  /\ (forall id, is_live (Window.readyState id (world s)) = true ->
                 In id (created (wire (world s))))
  /\ (forall id, In id (created (wire (world s))) -> (id < fresh (world s))%nat).

(** [this.events.emit(name, payload)] on the emitter [m]: the emitter
    afterwards, and the handlers called *)
Definition dispatch (throws : nat -> Payload -> bool) (m : EventEmitter.Events)
    (x : Emitted) : EventEmitter.Events * list Invocation :=
  EventEmitter.emit throws (ev_name x) (ev_payload x) m.

(** ** Sockets created and events added *)

(** A session with a reconnect timer that is pending and not recorded:
    the first socket is lost (timer 2), [connect()] is called while
    reconnecting (socket 3), and that socket is lost too (timer 4, the
    one recorded). *)
Definition with_stale_timer : System :=
  run [(CallConnect, 0%Z); (SocketOpened 0, 1%Z); (SocketClosed 0 1006 "", 2%Z);
       (CallConnect, 3%Z); (SocketClosed 3 1006 "", 4%Z)]
      (Sockeon.create default_options).


(** The sockets created so far are [C] *)
Definition creates_nothing (C : list nat) (s : System) : Prop :=
  created (wire (world s)) = C.

(** The calls of [connect()] in a trace *)
Definition connect_calls (trace : list (Action * Z)) : nat :=
  List.length (filter (fun a => calls_connect (fst a)) trace).

(** The events emitted so far are [E0] and well-named events after them *)
Definition grown (E0 : list Emitted) (s : System) : Prop :=
  exists added, emitted (world s) = E0 ++ added /\ Forall well_named added.

(** The events the controller emits of its own: all but the messages of
    the server *)
Definition own (x : Emitted) : bool :=
  match ev_payload x with
  | PData _ => false
  | _ => true
  end.

(** [announced], reading the names *)
Fixpoint alternates (up : bool) (names : list string) : option bool :=
  match names with
  | [] => Some up
  | name :: rest =>
      if String.eqb name "connect" then alternates true rest
      else if String.eqb name "disconnect"
           then if up then alternates false rest else None
           else alternates up rest
  end.

(** * Properties *)

(** ** Reading the definitions *)

(** Unfolds one layer of the monad. *)
Ltac js_step :=
  cbv beta iota delta [bind ret throw gets modify try_catch exec completion fst snd].

Lemma exec_bind {A B} (m : M A) (k : A -> M B) (s : System) :
  exec (bind m k) s =
  match m s with
  | (Normal a, s') => exec (k a) s'
  | (Throw _, s') => s'
  end.
Proof. unfold exec, bind. destruct (m s) as [[a|e] s']; reflexivity. Qed.

Lemma ConnectionState_eqb_eq (a b : ConnectionState) :
  ConnectionState_eqb a b = true <-> a = b.
Proof. destruct a, b; simpl; split; intro H; congruence. Qed.

(** ** Inbound envelopes *)

Lemma isValidMessage_shape (v : JSON) :
  Transport.isValidMessage v = true <-> exists e d, envelope_shape v e d.
Proof.
  split.
  - unfold Transport.isValidMessage.
    destruct v as [| b | q | t | items | fields]; cbn; try discriminate.
    + destruct b; discriminate.
    + destruct (Qeq_bool q 0); discriminate.
    + destruct (t =? "")%string; discriminate.
    + unfold Js.has; simpl.
      destruct (Js.lookup "event" fields) as [[| | | e | |]|] eqn:He; try discriminate.
      destruct e as [|c e]; simpl; [discriminate|].
      destruct (Js.lookup "data" fields) as [d|] eqn:Hd; simpl; [|discriminate].
      intros _. exists (String c e), d, fields. repeat split; auto. discriminate.
  - intros (e & d & fields & -> & He & Hne & Hd).
    unfold Transport.isValidMessage, Js.has; simpl. rewrite He, Hd.
    destruct e; [congruence | reflexivity].
Qed.

Lemma onmessage_accepted (v : JSON) (e : string) (d : JSON) (s : System) (now : Z) :
  envelope_shape v e d ->
  Transport.ws_onmessage Sockeon.handlers (TextFrame (Some v)) now s
  = (Normal tt, delivered e (PData d) s).
Proof.
  intros Hshape.
  assert (Hv : Transport.isValidMessage v = true)
    by (apply isValidMessage_shape; eauto).
  destruct Hshape as (fields & -> & He & _ & Hd).
  unfold Transport.ws_onmessage, Transport.handleMessage, Transport.JSON_parse.
  js_step. rewrite Hv. simpl.
  unfold Sockeon.handleMessage, Sockeon.destructure, events_emit, delivered.
  js_step. simpl. rewrite He, Hd. reflexivity.
Qed.

Lemma onmessage_rejected (v : JSON) (s : System) (now : Z) :
  Transport.isValidMessage v = false ->
  Transport.ws_onmessage Sockeon.handlers (TextFrame (Some v)) now s
  = (Normal tt, delivered "error" (PError "Invalid message format" now) s).
Proof.
  intros Hv.
  unfold Transport.ws_onmessage, Transport.handleMessage, Transport.JSON_parse.
  js_step. rewrite Hv. reflexivity.
Qed.

(** C5. The transport's shape validation accepts a decoded payload exactly
    when it is an object with a non-empty string [event] and a present
    [data] key.  An accepted envelope is routed: its event is emitted with
    its data.  A rejected one is surfaced as an [error] event and dropped.
    In both cases nothing else changes: the controller's fields, the
    socket and the calls made on it stay as they were, so the connection
    is kept.  The four envelopes of the specification behave as said. *)
Theorem inbound_shape_validation :
  (forall v, Transport.isValidMessage v = true <-> exists e d, envelope_shape v e d)
  /\ (forall v e d s now,
        envelope_shape v e d ->
        Transport.ws_onmessage Sockeon.handlers (TextFrame (Some v)) now s
        = (Normal tt, delivered e (PData d) s))
  /\ (forall v s now,
        Transport.isValidMessage v = false ->
        Transport.ws_onmessage Sockeon.handlers (TextFrame (Some v)) now s
        = (Normal tt, delivered "error" (PError "Invalid message format" now) s))
  /\ Transport.isValidMessage chat_send_ok = true
  /\ (forall s now,
        exec (Transport.ws_onmessage Sockeon.handlers (TextFrame (Some chat_send_ok)) now) s
        = delivered "chat.send" (PData (JObj [])) s)
  /\ Transport.isValidMessage empty_event = false
  /\ Transport.isValidMessage no_data_key = false
  /\ Transport.isValidMessage no_event_key = false.
Proof.
  split; [exact isValidMessage_shape|].
  split; [exact onmessage_accepted|].
  split; [exact onmessage_rejected|].
  repeat split; intros; reflexivity.
Qed.

(** C6, as stated, fails: the event name ["a b"] does not match
    [^[A-Za-z0-9._-]+$], yet the envelope that carries it arrives at the
    application's handlers. *)
Lemma inbound_event_name_with_space_delivered :
  Js.event_name_test "a b" = false
  /\ Transport.isValidMessage spaced_event = true
  /\ emitted (world (exec (Browser.message 0 (TextFrame (Some spaced_event)) 1) live))
     = emitted (world live) ++ [{| ev_name := "a b"; ev_payload := PData (JObj []) |}].
Proof. repeat split; reflexivity. Qed.

(** C6, amended.  Whatever frame arrives on whatever socket, the only
    application event that reaches the handlers is the [event] of a decoded
    object that has a non-empty string [event] and a [data] key, carried
    with that [data]; anything else adds at most an [error] event.  The
    characters of an inbound event name are not examined. *)
Theorem inbound_delivery_has_nonempty_event (s : System) (id : nat) (payload : Frame) (now : Z) :
  exists extra,
    emitted (world (exec (Browser.message id payload now) s)) = emitted (world s) ++ extra
    /\ Forall (inbound_emission payload) extra
    /\ Forall (fun x => forall d, ev_payload x = PData d -> ev_name x <> "") extra.
Proof.
  unfold Browser.message. js_step.
  destruct (Browser.ready id OPEN s).
  2:{ exists []. rewrite app_nil_r. repeat split; constructor. }
  destruct payload as [|[v|]].
  - exists []. simpl. rewrite app_nil_r. repeat split; constructor.
  - destruct (Transport.isValidMessage v) eqn:Hv.
    + apply isValidMessage_shape in Hv. destruct Hv as (e & d & Hshape).
      rewrite (onmessage_accepted v e d s now Hshape). simpl.
      exists [{| ev_name := e; ev_payload := PData d |}].
      split; [reflexivity|]. split; repeat constructor.
      * exists v. split; [reflexivity | exact Hshape].
      * simpl. intros d' _. destruct Hshape as (? & _ & _ & Hne & _). exact Hne.
    + rewrite (onmessage_rejected v s now Hv). simpl.
      exists [{| ev_name := "error"; ev_payload := PError "Invalid message format" now |}].
      split; [reflexivity|]. split; repeat constructor. simpl. discriminate.
  - exists [{| ev_name := "error"; ev_payload := PError "Failed to parse message" now |}].
    split; [reflexivity|]. split; repeat constructor. simpl. discriminate.
Qed.

(** ** Outbound envelopes *)

Lemma class_char_alphabet (c : ascii) :
  Js.class_char c = existsb (Ascii.eqb c) event_alphabet.
Proof.
  destruct c as [[] [] [] [] [] [] [] []]; vm_compute; reflexivity.
Qed.

Lemma class_char_In (c : ascii) :
  Js.class_char c = true <-> In c event_alphabet.
Proof.
  rewrite class_char_alphabet, existsb_exists. split.
  - intros (x & Hin & Heq). apply Ascii.eqb_eq in Heq. subst. exact Hin.
  - intros Hin. exists c. split; [exact Hin | apply Ascii.eqb_refl].
Qed.

Lemma all_class_Forall (e : string) :
  Js.all_class e = true <-> Forall (fun c => In c event_alphabet) (list_ascii_of_string e).
Proof.
  induction e as [|c e IH]; simpl.
  - split; [constructor | reflexivity].
  - rewrite andb_true_iff, class_char_In, IH. split.
    + intros [H1 H2]. constructor; assumption.
    + intros H. inversion H; subst. split; assumption.
Qed.

Lemma event_name_test_matches (e : string) :
  Js.event_name_test e = true <-> matches_event_name e.
Proof.
  unfold matches_event_name. destruct e as [|c e].
  - simpl. split; [discriminate | intros [H _]; congruence].
  - unfold Js.event_name_test. rewrite all_class_Forall. split.
    + intros H. split; [discriminate | exact H].
    + intros [_ H]. exact H.
Qed.

Lemma payload_check_object_or_array (d : JSON) :
  negb (String.eqb (Js.typeof d) "object") || Sockeon.is_null d = false
  <-> object_or_array d.
Proof.
  unfold object_or_array. destruct d; simpl; split; intros H;
    try discriminate; try reflexivity; eauto;
    destruct H as [[? H] | [? H]]; discriminate.
Qed.

Lemma emit_not_connected (s : System) (e : string) (d : option JSON) :
  Sockeon.getState s <> connected ->
  Sockeon.emit e d s = (Throw Sockeon.NotConnected, s).
Proof.
  intros Hst. unfold Sockeon.emit, Sockeon.state_is. js_step.
  destruct (ConnectionState_eqb (state (Sockeon.this s)) connected) eqn:E.
  - apply ConnectionState_eqb_eq in E. contradiction.
  - reflexivity.
Qed.

Lemma emit_connected (s : System) (e : string) (d : option JSON) :
  Sockeon.getState s = connected ->
  Sockeon.emit e d s =
  let data := match d with Some v => v | None => JObj [] end in
  if negb (Js.event_name_test e) then (Throw Sockeon.InvalidEventName, s)
  else if negb (String.eqb (Js.typeof data) "object") || Sockeon.is_null data
       then (Throw Sockeon.InvalidPayloadShape, s)
       else Transport.send {| event := e; data := data |} s.
Proof.
  intros Hst. unfold Sockeon.emit, Sockeon.state_is, Sockeon.getState in *. js_step.
  rewrite Hst. simpl.
  destruct (Js.event_name_test e); simpl; [|reflexivity].
  destruct (negb _ || _); reflexivity.
Qed.

(** C7.  [emit] throws [NotConnected] in every state other than
    [connected]; while connected it throws [InvalidEventName] for an event
    outside [^[A-Za-z0-9._-]+$], and, the event being well formed,
    [InvalidPayloadShape] for data that is neither an object nor an array;
    a throwing call changes nothing and sends nothing.  When the three
    checks pass the call is the transport's [send] of [{event, data}],
    which on an open socket puts exactly that message on the wire.  The
    calls of the specification behave as said. *)
Theorem emit_validation :
  (forall s e d,
      Sockeon.getState s <> connected ->
      Sockeon.emit e d s = (Throw Sockeon.NotConnected, s))
  /\ (forall s e d,
      Sockeon.getState s = connected -> ~ matches_event_name e ->
      Sockeon.emit e d s = (Throw Sockeon.InvalidEventName, s))
  /\ (forall s e d,
      Sockeon.getState s = connected -> matches_event_name e -> ~ object_or_array d ->
      Sockeon.emit e (Some d) s = (Throw Sockeon.InvalidPayloadShape, s))
  /\ (forall s e d,
      Sockeon.getState s = connected -> matches_event_name e -> object_or_array d ->
      Sockeon.emit e (Some d) s = Transport.send {| event := e; data := d |} s)
  /\ (forall s id m,
      ws (Transport.this s) = Some id -> Window.readyState id (world s) = OPEN ->
      Transport.send m s
      = (Normal tt, on_world (fun w => with_wire (wire w ++ [WsSend id m]) w) s))
  /\ Sockeon.emit "a b" (Some (JStr "x")) live = (Throw Sockeon.InvalidEventName, live)
  /\ Sockeon.emit "chat.send" (Some (JStr "x")) live = (Throw Sockeon.InvalidPayloadShape, live)
  /\ Sockeon.emit "chat.send" (Some JNull) live = (Throw Sockeon.InvalidPayloadShape, live)
  /\ Sockeon.emit "chat.send" (Some (JObj [])) (Sockeon.create default_options)
     = (Throw Sockeon.NotConnected, Sockeon.create default_options)
  /\ wire (world (exec (Sockeon.emit "chat.send" (Some (JObj []))) live))
     = wire (world live) ++ [WsSend 0 {| event := "chat.send"; data := JObj [] |}].
Proof.
  split; [exact emit_not_connected|].
  split.
  { intros s e d Hst Hbad. rewrite (emit_connected s e d Hst). cbv zeta.
    destruct (Js.event_name_test e) eqn:E; [|reflexivity].
    apply event_name_test_matches in E. contradiction. }
  split.
  { intros s e d Hst Hok Hbad. rewrite (emit_connected s e (Some d) Hst). cbv zeta.
    apply event_name_test_matches in Hok. rewrite Hok. simpl.
    destruct (negb _ || _) eqn:E; [reflexivity|].
    apply payload_check_object_or_array in E. contradiction. }
  split.
  { intros s e d Hst Hok Hobj. rewrite (emit_connected s e (Some d) Hst). cbv zeta.
    apply event_name_test_matches in Hok. rewrite Hok. simpl.
    apply payload_check_object_or_array in Hobj. rewrite Hobj. reflexivity. }
  split.
  { intros s id m Hws Hopen.
    unfold Transport.send, Transport.ws_is, Window.send, Window.call. js_step.
    rewrite Hws, Hopen. reflexivity. }
  repeat split; reflexivity.
Qed.

(** ** connect() *)

Ltac open_system s :=
  let o := fresh "o" in let tw := fresh "tws" in let tp := fresh "tping" in
  let tq := fresh "tpong" in let tl := fresh "tlast" in
  let st := fresh "st" in let n := fresh "attempts" in let rt := fresh "rtimer" in
  let ht := fresh "htimer" in let ca := fresh "cat" in let rms := fresh "rms" in
  let md := fresh "manual" in
  let sk := fresh "sks" in let tm := fresh "tms" in let fr := fresh "fr" in
  let wi := fresh "wi" in let em := fresh "em" in
  destruct s as [[o [tw tp tq tl] st n rt ht ca rms md] [sk tm fr wi em]].

Ltac js_unfold :=
  cbv beta iota zeta delta
    [bind ret throw gets modify try_catch exec completion fst snd
     Sockeon.connect Sockeon.disconnect Sockeon.handleDisconnect
     Sockeon.handleConnect Sockeon.scheduleReconnect Sockeon.startHeartbeat
     Sockeon.clearReconnectTimer Sockeon.clearHeartbeatTimer
     Sockeon.heartbeatTick Sockeon.reconnectTick Sockeon.handleError
     Sockeon.handlePong Sockeon.joinRoom Sockeon.leaveRoom Sockeon.emit
     Sockeon.state_is Sockeon.assign Sockeon.this Sockeon.getState
     Sockeon.getRooms Sockeon.isConnected Sockeon.handlers Sockeon.room_payload
     Transport.ws_onclose Transport.ws_onopen Transport.ws_onerror
     Transport.connect Transport.disconnect Transport.send Transport.sendPing
     Transport.stopHeartbeat Transport.heartbeatTick Transport.startHeartbeat
     Transport.ws_is Transport.assign Transport.this
     Window.newWebSocket Window.close Window.send Window.call
     Window.set_readyState Window.setTimeout Window.setInterval
     Window.setTimer Window.clearTimer Window.readyState Window.pending
     Browser.fire Browser.run_callback Browser.ready Browser.opened
     Browser.closed Browser.errored
     events_emit on_client on_world
     onOpen onMessage onClose onError onPong
     with_ws with_pingInterval with_pongTimeout with_lastPongTime
     with_transport with_state with_reconnectAttempts with_reconnectTimer
     with_heartbeatTimer with_connectedAt with_rooms with_manualDisconnect
     with_sockets with_timers with_fresh with_wire with_emitted
     client world options transport state reconnectAttempts reconnectTimer
     heartbeatTimer connectedAt rooms manualDisconnect
     ws pingInterval pongTimeout lastPongTime
     sockets timers fresh wire emitted] in *.

Lemma transport_connect_spec (s : System) :
  Transport.connect s = (Normal tt, if transport_idle s then socket_opened s else s).
Proof.
  open_system s. unfold transport_idle, socket_opened. js_unfold. cbn.
  destruct tws as [id|]; cbn; [|reflexivity].
  destruct (ReadyState_eqb _ CLOSED); reflexivity.
Qed.

(** C8, as stated, fails: in state [reconnecting], [connect()] is not a
    no-op; it moves to [connecting] and opens a socket. *)
Lemma connect_while_reconnecting_opens :
  Sockeon.getState dropped = reconnecting
  /\ Sockeon.getState (exec Sockeon.connect dropped) = connecting
  /\ wire (world (exec Sockeon.connect dropped)) = wire (world dropped) ++ [WsNew 3].
Proof. split; [|split]; vm_compute; reflexivity. Qed.

(** C8, amended.  [connect()] is a no-op exactly in the states [connected]
    and [connecting].  In [disconnected], [closing] and [reconnecting] it
    clears the manual-disconnect flag, moves to [connecting] and asks the
    transport to open, which creates a socket when the transport has none
    in use and does nothing otherwise. *)
Theorem connect_guard (s : System) :
  ((Sockeon.getState s = connected \/ Sockeon.getState s = connecting) ->
     Sockeon.connect s = (Normal tt, s))
  /\ ((Sockeon.getState s = disconnected \/ Sockeon.getState s = closing
       \/ Sockeon.getState s = reconnecting) ->
     Sockeon.connect s = Transport.connect (begin_connecting s)
     /\ manualDisconnect (client (exec Sockeon.connect s)) = false
     /\ Sockeon.getState (exec Sockeon.connect s) = connecting
     /\ exec Sockeon.connect s
        = if transport_idle s then socket_opened (begin_connecting s)
          else begin_connecting s).
Proof.
  split.
  - intros H. open_system s. js_unfold. cbn in *.
    destruct H as [-> | ->]; reflexivity.
  - intros H.
    assert (E : Sockeon.connect s = Transport.connect (begin_connecting s)).
    { open_system s. unfold begin_connecting. js_unfold. cbn in *.
      destruct H as [-> | [-> | ->]]; reflexivity. }
    split; [exact E|].
    unfold exec. rewrite E, transport_connect_spec. simpl.
    assert (Hidle : transport_idle (begin_connecting s) = transport_idle s)
      by (open_system s; reflexivity).
    rewrite Hidle. destruct (transport_idle s); open_system s; repeat split; reflexivity.
Qed.

(** ** The closed transition and the reconnection algorithm *)

Lemma scheduleReconnect_spec (s : System) :
  Sockeon.scheduleReconnect s =
  (Normal tt,
   if limit_reached (reconnect_policy s) (reconnectAttempts (client s))
   then attempts_exhausted s else attempt_scheduled s).
Proof.
  open_system s.
  unfold limit_reached, attempts_exhausted, attempt_scheduled, delivered, reconnect_policy.
  js_unfold.
  destruct ((0 <? _)%Z && _); reflexivity.
Qed.

Lemma handleDisconnect_spec (code : Z) (reason : string) (s : System) :
  Sockeon.handleDisconnect code reason s =
  if wants_reconnect s
  then Sockeon.scheduleReconnect (torn_down code reason s)
  else (Normal tt, torn_down code reason s).
Proof.
  open_system s. unfold wants_reconnect, torn_down, delivered, reconnect_policy.
  js_unfold.
  destruct htimer, st, manual; cbn;
    destruct (reconnect_enabled (reconnect o)); reflexivity.
Qed.

Lemma torn_down_fields (code : Z) (reason : string) (s : System) :
  let mid := torn_down code reason s in
  heartbeatTimer (client mid) = None
  /\ (forall h, heartbeatTimer (client s) = Some h -> Window.pending h (world mid) = None)
  /\ Sockeon.getState mid = disconnected
  /\ Sockeon.getRooms mid = []
  /\ connectedAt (client mid) = None
  /\ emitted (world mid)
     = emitted (world s)
       ++ (if Sockeon.state_is connected s
           then [{| ev_name := "disconnect"; ev_payload := PDisconnect code reason |}]
           else [])
  /\ wants_reconnect mid = wants_reconnect s
  /\ reconnect_policy mid = reconnect_policy s
  /\ reconnectAttempts (client mid) = reconnectAttempts (client s).
Proof.
  open_system s. unfold wants_reconnect, torn_down, delivered, reconnect_policy.
  js_unfold.
  assert (Hfind : forall h l,
             find (fun t => (handle t =? h)%nat)
                  (filter (fun t => negb (handle t =? h)%nat) l) = None).
  { intros h l. induction l as [|t l IH]; simpl; [reflexivity|].
    destruct (handle t =? h)%nat eqn:E; simpl; [exact IH|]. rewrite E. exact IH. }
  destruct htimer as [h|], st; cbn;
    repeat split; try reflexivity; try (rewrite app_nil_r; reflexivity);
    try (intros h' Hh; inversion Hh; subst; apply Hfind); discriminate.
Qed.

Lemma attempt_scheduled_fields (t : System) :
  heartbeatTimer (client (attempt_scheduled t)) = heartbeatTimer (client t)
  /\ Sockeon.getRooms (attempt_scheduled t) = Sockeon.getRooms t
  /\ connectedAt (client (attempt_scheduled t)) = connectedAt (client t)
  /\ filter is_disconnect_event (emitted (world (attempt_scheduled t)))
     = filter is_disconnect_event (emitted (world t))
  /\ Sockeon.getState (attempt_scheduled t) = reconnecting.
Proof.
  unfold attempt_scheduled, reconnect_policy. open_system t. js_unfold.
  repeat (split; [reflexivity|]). split; [|reflexivity].
  rewrite filter_app. simpl. apply app_nil_r.
Qed.

Lemma attempts_exhausted_fields (t : System) :
  heartbeatTimer (client (attempts_exhausted t)) = heartbeatTimer (client t)
  /\ Sockeon.getRooms (attempts_exhausted t) = Sockeon.getRooms t
  /\ connectedAt (client (attempts_exhausted t)) = connectedAt (client t)
  /\ filter is_disconnect_event (emitted (world (attempts_exhausted t)))
     = filter is_disconnect_event (emitted (world t))
  /\ Sockeon.getState (attempts_exhausted t) = Sockeon.getState t.
Proof.
  unfold attempts_exhausted, delivered, reconnect_policy. open_system t. js_unfold.
  repeat (split; [reflexivity|]). split; [|reflexivity].
  rewrite filter_app. simpl. apply app_nil_r.
Qed.



(** ** Room bookkeeping *)

Lemma set_add_In (x : string) (l : list string) : In x (Sockeon.set_add x l).
Proof.
  unfold Sockeon.set_add. destruct (existsb (String.eqb x) l) eqn:E.
  - apply existsb_exists in E. destruct E as (y & Hin & Heq).
    apply String.eqb_eq in Heq. subst. exact Hin.
  - apply in_or_app. right. left. reflexivity.
Qed.

Lemma set_add_member (x : string) (l : list string) :
  In x l -> Sockeon.set_add x l = l.
Proof.
  intros Hin. unfold Sockeon.set_add.
  assert (E : existsb (String.eqb x) l = true).
  { apply existsb_exists. exists x. split; [exact Hin | apply String.eqb_refl]. }
  rewrite E. reflexivity.
Qed.

Lemma set_add_idempotent (x : string) (l : list string) :
  Sockeon.set_add x (Sockeon.set_add x l) = Sockeon.set_add x l.
Proof. apply set_add_member, set_add_In. Qed.

Lemma set_add_NoDup (x : string) (l : list string) :
  NoDup l -> NoDup (Sockeon.set_add x l).
Proof.
  intros Hl. unfold Sockeon.set_add. destruct (existsb (String.eqb x) l) eqn:E.
  - exact Hl.
  - apply NoDup_app; [exact Hl | repeat constructor; intros [] |].
    intros y Hy [Hxy | []]. subst y.
    assert (existsb (String.eqb x) l = true); [|congruence].
    apply existsb_exists. exists x. split; [exact Hy | apply String.eqb_refl].
Qed.

Lemma set_delete_not_In (x : string) (l : list string) : ~ In x (Sockeon.set_delete x l).
Proof.
  unfold Sockeon.set_delete. intros H. apply filter_In in H.
  destruct H as [_ H]. rewrite String.eqb_refl in H. discriminate.
Qed.

Lemma set_delete_NoDup (x : string) (l : list string) :
  NoDup l -> NoDup (Sockeon.set_delete x l).
Proof. apply NoDup_filter. Qed.

Lemma set_delete_fresh (x : string) (l : list string) :
  ~ In x l -> Sockeon.set_delete x (l ++ [x]) = l.
Proof.
  intros Hx. unfold Sockeon.set_delete. rewrite filter_app. simpl.
  rewrite String.eqb_refl. simpl. rewrite app_nil_r.
  induction l as [|y l IH]; simpl; [reflexivity|].
  destruct (String.eqb x y) eqn:E.
  - apply String.eqb_eq in E. subst. exfalso. apply Hx. left. reflexivity.
  - simpl. f_equal. apply IH. intros H. apply Hx. right. exact H.
Qed.

(** Whether or not the [emit] inside throws, the set was updated first
    and the state is untouched. *)
Lemma joinRoom_effect (r : string) (s : System) :
  Sockeon.getState s = connected ->
  Sockeon.getRooms (exec (Sockeon.joinRoom r) s) = Sockeon.set_add r (Sockeon.getRooms s)
  /\ Sockeon.getState (exec (Sockeon.joinRoom r) s) = connected.
Proof.
  intros Hst. open_system s. js_unfold. subst st.
  change (Js.event_name_test "join_room") with true. cbn.
  destruct tws as [id|]; cbn; [|split; reflexivity].
  destruct (find _ sks) as [[? []]|]; split; reflexivity.
Qed.

Lemma leaveRoom_effect (r : string) (s : System) :
  Sockeon.getState s = connected ->
  Sockeon.getRooms (exec (Sockeon.leaveRoom r) s) = Sockeon.set_delete r (Sockeon.getRooms s)
  /\ Sockeon.getState (exec (Sockeon.leaveRoom r) s) = connected.
Proof.
  intros Hst. open_system s. js_unfold. subst st.
  change (Js.event_name_test "leave_room") with true. cbn.
  destruct tws as [id|]; cbn; [|split; reflexivity].
  destruct (find _ sks) as [[? []]|]; split; reflexivity.
Qed.

(** C9.  While connected, for every room [r] and every room set (a list
    without repetition): [joinRoom(r)] then [leaveRoom(r)] leaves [r]
    absent, and gives back the starting set when [r] was not in it, so the
    empty set stays empty; [joinRoom(r)] twice leaves the same set as
    once, in which [r] occurs exactly once, and from the empty set that is
    the one-member set of [r].  This holds whether the calls return or
    throw for a socket that is not open. *)
Theorem room_round_trip (s : System) (r : string) :
  Sockeon.getState s = connected ->
  NoDup (Sockeon.getRooms s) ->
  let joined := exec (Sockeon.joinRoom r) s in
  let left := exec (Sockeon.leaveRoom r) joined in
  let twice := exec (Sockeon.joinRoom r) joined in
  ~ In r (Sockeon.getRooms left)
  /\ (~ In r (Sockeon.getRooms s) -> Sockeon.getRooms left = Sockeon.getRooms s)
  /\ (Sockeon.getRooms s = [] -> Sockeon.getRooms left = [])
  /\ Sockeon.getRooms twice = Sockeon.getRooms joined
  /\ count_occ string_dec (Sockeon.getRooms twice) r = 1%nat
  /\ NoDup (Sockeon.getRooms twice)
  /\ (Sockeon.getRooms s = [] -> Sockeon.getRooms twice = [r]).
Proof.
  intros Hst Hnd. cbv zeta.
  destruct (joinRoom_effect r s Hst) as [Hj Hjs].
  destruct (leaveRoom_effect r _ Hjs) as [Hl _].
  destruct (joinRoom_effect r _ Hjs) as [Ht _].
  rewrite Hl, Ht, Hj, set_add_idempotent.
  assert (Hfresh : ~ In r (Sockeon.getRooms s) ->
                   Sockeon.set_delete r (Sockeon.set_add r (Sockeon.getRooms s))
                   = Sockeon.getRooms s).
  { intros Hr. unfold Sockeon.set_add.
    destruct (existsb (String.eqb r) (Sockeon.getRooms s)) eqn:E.
    - apply existsb_exists in E. destruct E as (y & Hin & Heq).
      apply String.eqb_eq in Heq. subst. contradiction.
    - apply set_delete_fresh. exact Hr. }
  split; [apply set_delete_not_In|].
  split; [exact Hfresh|].
  split; [intros E; rewrite Hfresh; [exact E | rewrite E; intros []]|].
  split; [reflexivity|].
  split.
  { apply NoDup_count_occ'; [apply set_add_NoDup; exact Hnd | apply set_add_In]. }
  split; [apply set_add_NoDup; exact Hnd|].
  intros E. rewrite E. reflexivity.
Qed.

(** The theorem on the live session and the room ["r1"]. *)
Lemma room_round_trip_r1 :
  Sockeon.getRooms (exec (Sockeon.leaveRoom "r1") (exec (Sockeon.joinRoom "r1") live)) = []
  /\ Sockeon.getRooms (exec (Sockeon.joinRoom "r1") (exec (Sockeon.joinRoom "r1") live)) = ["r1"].
Proof.
  destruct (room_round_trip live "r1" eq_refl (NoDup_nil string))
    as (_ & _ & H1 & _ & _ & _ & H2).
  split; [apply H1 | apply H2]; reflexivity.
Defined.

(** ** Consecutive unexpected closes *)

Lemma find_filter_none {A} (p q : A -> bool) (l : list A) :
  find p l = None -> find p (filter q l) = None.
Proof.
  induction l as [|a l IH]; simpl; [reflexivity|].
  destruct (p a) eqn:Ep; [discriminate|]. intros H.
  destruct (q a); simpl; [rewrite Ep|]; apply IH; exact H.
Qed.

Lemma due_filter_none (q : Timer -> bool) (l : list Timer) :
  option_map handle (find is_reconnect_timer l) = None ->
  option_map handle (find is_reconnect_timer (filter q l)) = None.
Proof.
  intros H. destruct (find is_reconnect_timer l) eqn:E; [discriminate|].
  rewrite (find_filter_none _ q l E). reflexivity.
Qed.

Lemma stopHeartbeat_total (s : System) :
  Transport.stopHeartbeat s = (Normal tt, exec Transport.stopHeartbeat s).
Proof. open_system s. js_unfold. destruct tping, tpong; reflexivity. Qed.

Lemma stopHeartbeat_fields (s : System) :
  let s' := exec Transport.stopHeartbeat s in
  same_link s s'
  /\ Sockeon.getState s' = Sockeon.getState s
  /\ heartbeatTimer (client s') = heartbeatTimer (client s)
  /\ emitted (world s') = emitted (world s).
Proof.
  unfold same_link, due_reconnect. open_system s. js_unfold.
  destruct tping, tpong; cbn; repeat split; try reflexivity;
    intros H; repeat apply due_filter_none; exact H.
Qed.

Lemma torn_down_link (code : Z) (reason : string) (s : System) :
  same_link s (torn_down code reason s).
Proof.
  unfold same_link, due_reconnect, torn_down, delivered. open_system s. js_unfold.
  destruct htimer, st; cbn; repeat split; try reflexivity;
    intros H; repeat apply due_filter_none; exact H.
Qed.

Lemma closed_spec (id : nat) (code : Z) (reason : string) (s : System) :
  Window.readyState id (world s) <> CLOSED ->
  Browser.closed id code reason s
  = Sockeon.handleDisconnect code reason
      (exec Transport.stopHeartbeat (closed_socket id s)).
Proof.
  intros Hrs. unfold Browser.closed, Browser.ready, Transport.ws_onclose,
    Window.set_readyState, closed_socket.
  js_step. destruct (Window.readyState id (world s)); try congruence;
    simpl; rewrite stopHeartbeat_total; reflexivity.
Qed.

Lemma pending_scheduled (t : System) :
  due_reconnect (world (attempt_scheduled t)) = Some (fresh (world t))
  /\ exists ms,
      Window.pending (fresh (world t)) (world (attempt_scheduled t))
      = Some {| handle := fresh (world t); repeating := false; after := ms;
                callback := ReconnectCallback |}.
Proof.
  unfold attempt_scheduled, due_reconnect, reconnect_policy.
  open_system t. js_unfold. cbn. rewrite Nat.eqb_refl.
  split; [reflexivity | eexists; reflexivity].
Qed.

Lemma fire_scheduled (t : System) (now : Z) :
  Browser.fire (fresh (world t)) now (attempt_scheduled t)
  = Transport.connect (timer_fired t).
Proof.
  destruct (pending_scheduled t) as (_ & ms & Hp).
  unfold Browser.fire, timer_fired. js_step. rewrite Hp.
  unfold Window.clearTimer. js_step. reflexivity.
Qed.

Lemma timer_fired_fields (t : System) :
  let t' := timer_fired t in
  options (client t') = options (client t)
  /\ manualDisconnect (client t') = manualDisconnect (client t)
  /\ reconnectAttempts (client t') = S (reconnectAttempts (client t))
  /\ ws (Transport.this t') = ws (Transport.this t)
  /\ sockets (world t') = sockets (world t)
  /\ (due_reconnect (world t) = None -> due_reconnect (world t') = None)
  /\ Sockeon.getState t' = reconnecting
  /\ emitted (world t')
     = emitted (world t)
       ++ [{| ev_name := "reconnect_attempt";
              ev_payload :=
                PReconnectAttempt (S (reconnectAttempts (client t)))
                  (Sockeon.currentDelay (reconnect_policy t) (reconnectAttempts (client t))) |}].
Proof.
  unfold timer_fired, attempt_scheduled, due_reconnect, reconnect_policy.
  open_system t. js_unfold. cbn. rewrite Nat.eqb_refl. cbn.
  repeat split; try reflexivity.
  intros H. apply due_filter_none. exact H.
Qed.

Lemma socket_opened_fields (t : System) :
  let t' := socket_opened t in
  options (client t') = options (client t)
  /\ manualDisconnect (client t') = manualDisconnect (client t)
  /\ reconnectAttempts (client t') = reconnectAttempts (client t)
  /\ ws (Transport.this t') = Some (fresh (world t))
  /\ Window.readyState (fresh (world t)) (world t') = CONNECTING
  /\ due_reconnect (world t') = due_reconnect (world t)
  /\ Sockeon.getState t' = Sockeon.getState t
  /\ emitted (world t') = emitted (world t).
Proof.
  unfold socket_opened, due_reconnect. open_system t. js_unfold. cbn.
  rewrite Nat.eqb_refl. repeat split; reflexivity.
Qed.

Lemma closed_socket_fields (id : nat) (s : System) :
  let s' := closed_socket id s in
  client s' = client s
  /\ Window.readyState id (world s') = CLOSED
  /\ timers (world s') = timers (world s)
  /\ fresh (world s') = fresh (world s)
  /\ emitted (world s') = emitted (world s).
Proof.
  unfold closed_socket. open_system s. js_unfold. cbn. rewrite Nat.eqb_refl.
  repeat split; reflexivity.
Qed.

Lemma closed_mid_fields (c : Close) (id : nat) (s : System) :
  let t := closed_mid c id s in
  options (client t) = options (client s)
  /\ manualDisconnect (client t) = manualDisconnect (client s)
  /\ reconnectAttempts (client t) = reconnectAttempts (client s)
  /\ ws (Transport.this t) = ws (Transport.this s)
  /\ Window.readyState id (world t) = CLOSED
  /\ (due_reconnect (world s) = None -> due_reconnect (world t) = None)
  /\ Sockeon.getState t = disconnected
  /\ emitted (world t)
     = emitted (world s)
       ++ (if Sockeon.state_is connected s
           then [{| ev_name := "disconnect";
                    ev_payload := PDisconnect (close_code c) (close_reason c) |}]
           else []).
Proof.
  cbv zeta. unfold closed_mid.
  destruct (closed_socket_fields id s) as (C1 & C2 & C3 & C4 & C5).
  pose proof (stopHeartbeat_fields (closed_socket id s)) as S. cbv zeta in S.
  destruct S as ((S1 & S2 & S3 & S4 & S5 & S6 & S7) & S8 & S9 & S10).
  remember (exec Transport.stopHeartbeat (closed_socket id s)) as t2.
  destruct (torn_down_link (close_code c) (close_reason c) t2)
    as (T1 & T2 & T3 & T4 & T5 & T6 & T7).
  pose proof (torn_down_fields (close_code c) (close_reason c) t2) as F. cbv zeta in F.
  destruct F as (_ & _ & F3 & _ & _ & F6 & _).
  unfold Transport.this, Window.readyState, due_reconnect, Sockeon.state_is,
    Sockeon.getState, Sockeon.this in *.
  rewrite T1, T2, T3, T4, T5, S1, S2, S3, S4, S5, F6, S10, S8, C1, C5.
  repeat split; try reflexivity; try assumption.
  intros H. apply T7, S7. rewrite C3. exact H.
Qed.

Lemma drop_below_limit (c : Close) (s : System) :
  supervised s ->
  limit_reached (reconnect_policy s) (reconnectAttempts (client s)) = false ->
  let s' := drop c s in
  supervised s'
  /\ reconnect_policy s' = reconnect_policy s
  /\ reconnectAttempts (client s') = S (reconnectAttempts (client s))
  /\ Sockeon.getState s' = reconnecting
  /\ emitted (world s')
     = emitted (world s)
       ++ (if Sockeon.state_is connected s
           then [{| ev_name := "disconnect";
                    ev_payload := PDisconnect (close_code c) (close_reason c) |}]
           else [])
       ++ [{| ev_name := "reconnect_attempt";
              ev_payload :=
                PReconnectAttempt (S (reconnectAttempts (client s)))
                  (Sockeon.currentDelay (reconnect_policy s) (reconnectAttempts (client s))) |}].
Proof.
  intros (Hm & Hen & (id & Hws & Hrs) & Hdue) Hlim. cbv zeta.
  pose proof (closed_mid_fields c id s) as M. cbv zeta in M.
  destruct M as (M1 & M2 & M3 & M4 & M5 & M6 & M7 & M8).
  set (t := closed_mid c id s) in *.
  pose proof (timer_fired_fields t) as F. cbv zeta in F.
  destruct F as (F1 & F2 & F3 & F4 & F5 & F6 & F7 & F8).
  pose proof (socket_opened_fields (timer_fired t)) as O. cbv zeta in O.
  destruct O as (O1 & O2 & O3 & O4 & O5 & O6 & O7 & O8).
  assert (Hpol : reconnect_policy t = reconnect_policy s)
    by (unfold reconnect_policy; rewrite M1; reflexivity).
  assert (Hidle : transport_idle (timer_fired t) = true).
  { unfold transport_idle, Window.readyState in *. rewrite F4, M4, Hws, F5, M5. reflexivity. }
  assert (E : drop c s = socket_opened (timer_fired t)).
  { unfold drop, unexpected_close. js_step. unfold Transport.this in *. rewrite Hws.
    rewrite (closed_spec id _ _ s Hrs), handleDisconnect_spec.
    fold (closed_mid c id s). fold t.
    assert (W : wants_reconnect (exec Transport.stopHeartbeat (closed_socket id s)) = true).
    { pose proof (stopHeartbeat_fields (closed_socket id s)) as S. cbv zeta in S.
      destruct S as ((S1 & S2 & _) & _).
      destruct (closed_socket_fields id s) as (C1 & _).
      unfold wants_reconnect, reconnect_policy. rewrite S1, S2, C1.
      fold (reconnect_policy s). rewrite Hm, Hen. reflexivity. }
    rewrite W, scheduleReconnect_spec, Hpol, M3, Hlim.
    destruct (pending_scheduled t) as (Hd & _). rewrite Hd.
    rewrite fire_scheduled, transport_connect_spec, Hidle. reflexivity. }
  rewrite E.
  unfold supervised, reconnect_policy, Transport.this, Sockeon.getState in *.
  rewrite O1, O2, O3, O4, O6, O7, O8, F1, F2, F3, F7, F8, M1, M2, M3, M8.
  repeat split; try assumption; try reflexivity.
  - exists (fresh (world (timer_fired t))). split; [reflexivity|].
    rewrite O5. discriminate.
  - apply F6, M6, Hdue.
  - rewrite <- app_assoc. reflexivity.
Qed.


Lemma limit_reached_false (r : ReconnectConfig) (k : nat) :
  limit_reached r k = false <-> (maxAttempts r <= 0 \/ Z.of_nat k < maxAttempts r)%Z.
Proof.
  unfold limit_reached. rewrite andb_false_iff, Z.ltb_ge, Z.leb_gt. reflexivity.
Qed.

Lemma drops_below_limit (cs : list Close) (s : System) :
  supervised s ->
  (maxAttempts (reconnect_policy s) <= 0
   \/ Z.of_nat (reconnectAttempts (client s) + List.length cs)
      <= maxAttempts (reconnect_policy s))%Z ->
  let s' := drops cs s in
  supervised s'
  /\ reconnect_policy s' = reconnect_policy s
  /\ reconnectAttempts (client s') = (reconnectAttempts (client s) + List.length cs)%nat
  /\ (cs <> [] -> Sockeon.getState s' = reconnecting)
  /\ attempt_delays (emitted (world s'))
     = attempt_delays (emitted (world s))
       ++ map (Sockeon.currentDelay (reconnect_policy s))
              (seq (reconnectAttempts (client s)) (List.length cs))
  /\ attempt_numbers (emitted (world s'))
     = attempt_numbers (emitted (world s))
       ++ seq (S (reconnectAttempts (client s))) (List.length cs)
  /\ failures (emitted (world s')) = failures (emitted (world s)).
Proof.
  intros Hsup. induction cs as [|c cs IH] using rev_ind; intros Hlim; cbv zeta.
  - unfold drops. simpl. rewrite Nat.add_0_r, !app_nil_r.
    split; [exact Hsup|]. repeat (split; [reflexivity|]).
    split; [congruence|]. repeat split; reflexivity.
  - rewrite List.length_app in *. simpl List.length in *. rewrite Nat.add_1_r in *.
    destruct IH as (I1 & I2 & I3 & _ & I5 & I6 & I7); [lia|].
    unfold drops in *. rewrite fold_left_app. simpl fold_left.
    set (t := fold_left (fun t c => drop c t) cs s) in *.
    assert (L : limit_reached (reconnect_policy t) (reconnectAttempts (client t)) = false).
    { apply limit_reached_false. rewrite I2, I3. lia. }
    pose proof (drop_below_limit c t I1 L) as D. cbv zeta in D.
    destruct D as (D1 & D2 & D3 & D4 & D5).
    split; [exact D1|]. split; [congruence|]. split; [lia|].
    split; [intros _; exact D4|].
    unfold attempt_delays, attempt_numbers, failures in *.
    rewrite D5, !flat_map_app, I5, I6, I7, !seq_S, map_app, I2, I3.
    destruct (Sockeon.state_is connected t); simpl; rewrite ?app_nil_r, <- ?app_assoc;
      repeat split; reflexivity.
Qed.

(** ** Manual disconnect *)

Lemma disconnect_effect (s : System) :
  (Sockeon.getState s = connected -> Sockeon.getState (exec Sockeon.disconnect s) = closing)
  /\ Sockeon.getState (exec Sockeon.disconnect s) <> connected
  /\ manualDisconnect (client (exec Sockeon.disconnect s)) = true
  /\ emitted (world (exec Sockeon.disconnect s)) = emitted (world s).
Proof.
  open_system s. js_unfold.
  destruct rtimer, htimer, st, tping, tpong, tws; cbn;
    try (destruct (find _ sks) as [[? []]|]; cbn);
    (split; [congruence|]); (split; [discriminate|]); split; reflexivity.
Qed.

Lemma onclose_after_manual (t : System) (code : Z) (reason : string) :
  Sockeon.getState t <> connected ->
  manualDisconnect (client t) = true ->
  emitted (world (exec (Transport.ws_onclose Sockeon.handlers code reason) t))
  = emitted (world t)
  /\ Sockeon.getState (exec (Transport.ws_onclose Sockeon.handlers code reason) t)
     = disconnected.
Proof.
  intros Hst Hm. open_system t. js_unfold. cbn in *. subst manual.
  destruct tping, tpong, htimer, st; cbn; try congruence; split; reflexivity.
Qed.

Lemma closed_unfold (id : nat) (code : Z) (reason : string) (t : System) :
  Browser.closed id code reason t
  = if ReadyState_eqb (Window.readyState id (world t)) CLOSED
    then (Normal tt, t)
    else Transport.ws_onclose Sockeon.handlers code reason (closed_socket id t).
Proof.
  unfold Browser.closed, Browser.ready, Window.set_readyState, closed_socket. js_step.
  destruct (ReadyState_eqb _ CLOSED); reflexivity.
Qed.

Lemma closed_adds_no_disconnect (t : System) (id : nat) (code : Z) (reason : string) :
  Sockeon.getState t <> connected ->
  filter is_disconnect_event (emitted (world (exec (Browser.closed id code reason) t)))
  = filter is_disconnect_event (emitted (world t)).
Proof.
  intros Hst. unfold exec. rewrite closed_unfold.
  destruct (ReadyState_eqb (Window.readyState id (world t)) CLOSED) eqn:E; [reflexivity|].
  unfold Transport.ws_onclose. js_step. rewrite stopHeartbeat_total.
  cbv beta iota delta [onClose Sockeon.handlers].
  rewrite handleDisconnect_spec.
  destruct (closed_socket_fields id t) as (C1 & _ & _ & _ & C5).
  pose proof (stopHeartbeat_fields (closed_socket id t)) as S. cbv zeta in S.
  destruct S as (_ & S8 & _ & S10).
  set (t' := exec Transport.stopHeartbeat (closed_socket id t)) in *.
  pose proof (torn_down_fields code reason t') as F. cbv zeta in F.
  destruct F as (_ & _ & _ & _ & _ & F6 & _).
  assert (Hnot : Sockeon.state_is connected t' = false).
  { unfold Sockeon.state_is, Sockeon.getState, Sockeon.this in *. rewrite S8, C1.
    destruct (state (client t)); simpl; congruence. }
  rewrite Hnot, app_nil_r, S10, C5 in F6.
  destruct (wants_reconnect t'); [|simpl; rewrite F6; reflexivity].
  rewrite scheduleReconnect_spec. cbn [snd].
  destruct (limit_reached _ _).
  - destruct (attempts_exhausted_fields (torn_down code reason t')) as (_ & _ & _ & G & _).
    rewrite G, F6. reflexivity.
  - destruct (attempt_scheduled_fields (torn_down code reason t')) as (_ & _ & _ & G & _).
    rewrite G, F6. reflexivity.
Qed.

(** C10, as stated, fails: on the live session, [disconnect()] is
    called while [connected] and moves the state to [closing]; a new
    [connect()] follows and its socket opens before the close event of
    the old socket arrives.  That close event then finds the state
    [connected], and the application receives [disconnect] with the code
    and reason of the manual closure. *)
Lemma manual_close_event_after_reconnect :
  Sockeon.getState live = connected
  /\ Sockeon.getState (run [(CallDisconnect, 10%Z)] live) = closing
  /\ wire (world (run [(CallDisconnect, 10%Z)] live))
     = [WsNew 0; WsClose 0 1000 "Client disconnect"]
  /\ filter is_disconnect_event (emitted (world live)) = []
  /\ filter is_disconnect_event (emitted (world (run reconnect_race live)))
     = [{| ev_name := "disconnect"; ev_payload := PDisconnect 1000 "Client disconnect" |}].
Proof. repeat (split; [vm_compute; reflexivity|]). vm_compute. reflexivity. Qed.

(** C10, amended.  [disconnect()] leaves a state other than [connected]
    ([closing] when it was called in [connected]), sets the manual flag
    and emits nothing.  When the close event of a socket is processed next,
    nothing is emitted at all and, unless that socket had already closed,
    the controller ends in [disconnected].  More generally, whenever the
    state is not [connected] at the moment a close event is processed, the
    was-connected test of the closed handler fails and no [disconnect]
    event is added.  On the live session the whole exchange is: the socket
    is asked to close with code 1000, its close event arrives, and the
    trace still holds the [connect] event alone. *)
Theorem manual_disconnect_emits_no_disconnect
    (s : System) (id : nat) (code : Z) (reason : string) :
  let s1 := exec Sockeon.disconnect s in
  let s2 := exec (Browser.closed id code reason) s1 in
  (Sockeon.getState s = connected -> Sockeon.getState s1 = closing)
  /\ Sockeon.getState s1 <> connected
  /\ manualDisconnect (client s1) = true
  /\ emitted (world s1) = emitted (world s)
  /\ emitted (world s2) = emitted (world s)
  /\ (Window.readyState id (world s1) <> CLOSED -> Sockeon.getState s2 = disconnected)
  /\ (forall t id' code' reason',
        Sockeon.getState t <> connected ->
        filter is_disconnect_event
          (emitted (world (exec (Browser.closed id' code' reason') t)))
        = filter is_disconnect_event (emitted (world t)))
  /\ wire (world (exec Sockeon.disconnect live)) = [WsNew 0; WsClose 0 1000 "Client disconnect"]
  /\ emitted (world (exec (Browser.closed 0 1000 "Client disconnect")
                       (exec Sockeon.disconnect live)))
     = [{| ev_name := "connect"; ev_payload := PConnect "/" 0 |}].
Proof.
  cbv zeta.
  destruct (disconnect_effect s) as (Ha & Hb & Hc & Hd).
  repeat (split; [assumption|]).
  set (s1 := exec Sockeon.disconnect s) in *.
  assert (H2 : emitted (world (exec (Browser.closed id code reason) s1)) = emitted (world s1)
               /\ (Window.readyState id (world s1) <> CLOSED ->
                   Sockeon.getState (exec (Browser.closed id code reason) s1) = disconnected)).
  { change (exec (Browser.closed id code reason) s1)
      with (snd (Browser.closed id code reason s1)).
    rewrite closed_unfold.
    destruct (ReadyState_eqb (Window.readyState id (world s1)) CLOSED) eqn:E.
    - split; [reflexivity|]. intros Hne. exfalso. apply Hne.
      destruct (Window.readyState id (world s1)); simpl in E; congruence.
    - destruct (closed_socket_fields id s1) as (C1 & _ & _ & _ & C5).
      destruct (onclose_after_manual (closed_socket id s1) code reason) as (He & Hs).
      + unfold Sockeon.getState, Sockeon.this in *. rewrite C1. exact Hb.
      + rewrite C1. exact Hc.
      + unfold exec in He, Hs. rewrite He, C5. split; [reflexivity|]. intros _. exact Hs. }
  destruct H2 as (He & Hs). rewrite He, Hd.
  split; [reflexivity|]. split; [exact Hs|].
  split; [intros t id' code' reason'; apply closed_adds_no_disconnect|].
  split; vm_compute; reflexivity.
Qed.

(** ** Arithmetic of doubles *)

Module DoubleFacts.

Import Double.
Local Open Scope Q_scope.

(** *** Powers of two and the rounding to the last place *)

Lemma two_pos (e : Z) : 0 < two e.
Proof. apply Qpower_0_lt. reflexivity. Qed.

Lemma two_plus (a b : Z) : two (a + b) == two a * two b.
Proof. apply Qpower_plus. discriminate. Qed.

Lemma two_le (a b : Z) : (a <= b)%Z -> two a <= two b.
Proof. intros H. apply Qpower_le_compat_l; [exact H | discriminate]. Qed.

Lemma two_lt (a b : Z) : (a < b)%Z -> two a < two b.
Proof. intros H. apply Qpower_lt_compat_l; [exact H | reflexivity]. Qed.

Lemma two_inject (e : Z) : (0 <= e)%Z -> two e == inject_Z (2 ^ e).
Proof. intros H. unfold two. rewrite Zpower_Qpower by exact H. reflexivity. Qed.

Lemma two_opp (e : Z) : two (- e) == / two e.
Proof. apply Qpower_opp. Qed.

Lemma ilog2_spec (a : Q) : 0 < a -> two (ilog2 a) <= a /\ a < two (ilog2 a + 1).
Proof.
  intros Ha. unfold ilog2.
  destruct (Qle_bool 1 a) eqn:E.
  - apply Qle_bool_iff in E.
    assert (Hf : (1 <= Qfloor a)%Z).
    { change 1%Z with (Qfloor 1). apply Qfloor_resp_le. exact E. }
    destruct (Z.log2_spec (Qfloor a)) as [L U]; [lia|].
    pose proof (Z.log2_nonneg (Qfloor a)) as Hn.
    split.
    + rewrite two_inject by exact Hn.
      apply Qle_trans with (inject_Z (Qfloor a)); [|apply Qfloor_le].
      rewrite <- Zle_Qle. exact L.
    + rewrite two_inject by lia.
      apply Qlt_le_trans with (inject_Z (Qfloor a + 1)); [apply Qlt_floor|].
      rewrite <- Zle_Qle. rewrite <- Z.add_1_r in U. lia.
  - assert (Hlt : a < 1).
    { apply Qnot_le_lt. intros C. apply Qle_bool_iff in C. congruence. }
    assert (Hinv : 1 < / a).
    { apply Qlt_shift_inv_l; [exact Ha|]. rewrite Qmult_1_l. exact Hlt. }
    assert (Hc : (1 < Qceiling (/ a))%Z).
    { rewrite Zlt_Qlt. apply Qlt_le_trans with (/ a); [exact Hinv | apply Qle_ceiling]. }
    destruct (Z.log2_up_spec (Qceiling (/ a)) Hc) as [L U].
    pose proof (Z.log2_up_pos (Qceiling (/ a)) Hc) as Hn.
    set (k := Z.log2_up (Qceiling (/ a))) in *.
    assert (Hup : / a <= two k).
    { rewrite two_inject by lia.
      apply Qle_trans with (inject_Z (Qceiling (/ a))); [apply Qle_ceiling|].
      rewrite <- Zle_Qle. exact U. }
    assert (Hlo : two (k - 1) < / a).
    { rewrite two_inject by lia.
      apply Qle_lt_trans with (inject_Z (Qceiling (/ a) - 1)); [|apply Qceiling_lt].
      rewrite <- Zle_Qle. rewrite Z.sub_1_r.  lia. }
    split.
    + rewrite two_opp. apply Qle_shift_inv_r; [apply two_pos|].
      apply Qmult_le_l with (z := / a); [apply Qinv_lt_0_compat; exact Ha|].
      rewrite Qmult_1_r, Qmult_assoc, (Qmult_comm (/ a)), Qmult_inv_r, Qmult_1_l.
      * exact Hup.
      * intros C. rewrite C in Ha. discriminate.
    + replace (- k + 1)%Z with (- (k - 1))%Z by lia.
      rewrite two_opp. apply Qlt_shift_inv_l; [apply two_pos|].
      apply Qmult_lt_l with (z := / a); [apply Qinv_lt_0_compat; exact Ha|].
      rewrite Qmult_1_r, Qmult_assoc, (Qmult_comm (/ a)), Qmult_inv_r, Qmult_1_l.
      * exact Hlo.
      * intros C. rewrite C in Ha. discriminate.
Qed.

Lemma ilog2_unique (a : Q) (e : Z) : two e <= a -> a < two (e + 1) -> ilog2 a = e.
Proof.
  intros L U.
  assert (Ha : 0 < a) by (apply Qlt_le_trans with (two e); [apply two_pos | exact L]).
  destruct (ilog2_spec a Ha) as [L' U'].
  assert (H1 : (e < ilog2 a + 1)%Z).
  { apply Qpower_lt_compat_l_inv with (q := 2); [|reflexivity].
    apply Qle_lt_trans with a; assumption. }
  assert (H2 : (ilog2 a < e + 1)%Z).
  { apply Qpower_lt_compat_l_inv with (q := 2); [|reflexivity].
    apply Qle_lt_trans with a; assumption. }
  lia.
Qed.

Lemma ilog2_le (a b : Q) : 0 < a -> a <= b -> (ilog2 a <= ilog2 b)%Z.
Proof.
  intros Ha Hab.
  assert (Hb : 0 < b) by (apply Qlt_le_trans with a; assumption).
  destruct (ilog2_spec a Ha) as [L _]. destruct (ilog2_spec b Hb) as [_ U].
  assert (H : (ilog2 a < ilog2 b + 1)%Z).
  { apply Qpower_lt_compat_l_inv with (q := 2); [|reflexivity].
    apply Qle_lt_trans with a; [exact L|]. apply Qle_lt_trans with b; assumption. }
  lia.
Qed.

Lemma round_half_even_bounds (x : Q) :
  (Qfloor x <= round_half_even x <= Qfloor x + 1)%Z.
Proof.
  unfold round_half_even.
  destruct (x - inject_Z (Qfloor x) ?= 1 # 2); [destruct (Z.even (Qfloor x))| |]; lia.
Qed.

Lemma round_half_even_Z (z : Z) : round_half_even (inject_Z z) = z.
Proof.
  unfold round_half_even. rewrite Qfloor_Z.
  replace (inject_Z z - inject_Z z ?= 1 # 2) with Lt; [reflexivity|].
  symmetry. apply Qlt_alt. setoid_replace (inject_Z z - inject_Z z) with 0 by ring.
  reflexivity.
Qed.

Lemma round_half_even_comp (x y : Q) : x == y -> round_half_even x = round_half_even y.
Proof.
  intros H. unfold round_half_even. rewrite (Qfloor_comp x y H).
  replace (x - inject_Z (Qfloor y) ?= 1 # 2) with (y - inject_Z (Qfloor y) ?= 1 # 2);
    [reflexivity|].
  apply Qcompare_comp; [rewrite H|]; reflexivity.
Qed.

Lemma round_half_even_le (x y : Q) : x <= y -> (round_half_even x <= round_half_even y)%Z.
Proof.
  intros H.
  pose proof (Qfloor_resp_le x y H) as Hf.
  destruct (Z.eq_dec (Qfloor x) (Qfloor y)) as [E|N].
  - unfold round_half_even. rewrite E.
    assert (Hr : x - inject_Z (Qfloor y) <= y - inject_Z (Qfloor y)).
    { apply Qplus_le_l with (z := inject_Z (Qfloor y)). ring_simplify. exact H. }
    destruct (x - inject_Z (Qfloor y) ?= 1 # 2) eqn:Cx;
      destruct (y - inject_Z (Qfloor y) ?= 1 # 2) eqn:Cy;
      try (destruct (Z.even (Qfloor y)) eqn:Ev); cbv iota; try lia; exfalso.
    all: repeat match goal with
         | C : (_ ?= _) = Eq |- _ => apply Qeq_alt in C
         | C : (_ ?= _) = Lt |- _ => apply Qlt_alt in C
         | C : (_ ?= _) = Gt |- _ => apply Qgt_alt in C
         end.
    all: lra.
  - pose proof (round_half_even_bounds x). pose proof (round_half_even_bounds y). lia.
Qed.

Lemma nearest_comp (a b : Q) : a == b -> nearest a == nearest b.
Proof.
  intros H. unfold nearest.
  assert (E : ulp_exponent a = ulp_exponent b).
  { unfold ulp_exponent, ilog2.
    replace (Qle_bool 1 a) with (Qle_bool 1 b).
    - rewrite (Qfloor_comp a b H).
      rewrite (Qceiling_comp (/ a) (/ b)); [reflexivity | rewrite H; reflexivity].
    - destruct (Qle_bool 1 b) eqn:Eb; symmetry.
      + apply Qle_bool_iff. rewrite H. apply Qle_bool_iff. exact Eb.
      + destruct (Qle_bool 1 a) eqn:Ea; [|reflexivity].
        apply Qle_bool_iff in Ea. rewrite H in Ea. apply Qle_bool_iff in Ea. congruence. }
  rewrite E.
  rewrite (round_half_even_comp (a / two (ulp_exponent b)) (b / two (ulp_exponent b)));
    [reflexivity | rewrite H; reflexivity].
Qed.

(** Scaling by the last place *)
Lemma scaled_le (a b : Q) (u : Z) : a <= b -> a / two u <= b / two u.
Proof.
  intros H. unfold Qdiv. apply Qmult_le_compat_r; [exact H|].
  apply Qlt_le_weak, Qinv_lt_0_compat, two_pos.
Qed.

Lemma scaled_two (e u : Z) : two e / two u == two (e - u).
Proof. unfold two. rewrite Qpower_minus by discriminate. reflexivity. Qed.

Lemma ulp_exponent_le (a b : Q) : 0 < a -> a <= b -> (ulp_exponent a <= ulp_exponent b)%Z.
Proof. intros Ha H. pose proof (ilog2_le a b Ha H). unfold ulp_exponent. lia. Qed.

(** The scaled magnitude lies below 2^53, and at or above 2^52 except
    among the subnormals *)
Lemma scaled_upper (a : Q) : 0 < a -> a / two (ulp_exponent a) < two 53.
Proof.
  intros Ha. destruct (ilog2_spec a Ha) as [_ U].
  apply Qlt_shift_div_r; [apply two_pos|].
  rewrite <- two_plus. apply Qlt_le_trans with (two (ilog2 a + 1)); [exact U|].
  apply two_le. unfold ulp_exponent. lia.
Qed.

Lemma scaled_lower (a : Q) :
  0 < a -> (-1074 < ulp_exponent a)%Z -> two 52 <= a / two (ulp_exponent a).
Proof.
  intros Ha Hu. destruct (ilog2_spec a Ha) as [L _].
  apply Qle_shift_div_l; [apply two_pos|].
  rewrite <- two_plus. apply Qle_trans with (two (ilog2 a)); [|exact L].
  apply two_le. unfold ulp_exponent in *. lia.
Qed.

Lemma round_half_even_two (x : Q) (e : Z) :
  (0 <= e)%Z ->
  (two e <= x -> (2 ^ e <= round_half_even x)%Z)
  /\ (x <= two e -> (round_half_even x <= 2 ^ e)%Z).
Proof.
  intros He. split; intros H.
  - rewrite <- (round_half_even_Z (2 ^ e)). apply round_half_even_le.
    rewrite <- two_inject by exact He. exact H.
  - rewrite <- (round_half_even_Z (2 ^ e)). apply round_half_even_le.
    rewrite <- two_inject by exact He. exact H.
Qed.

Lemma nearest_le (a b : Q) : 0 < a -> a <= b -> nearest a <= nearest b.
Proof.
  intros Ha H.
  assert (Hb : 0 < b) by (apply Qlt_le_trans with a; assumption).
  pose proof (ulp_exponent_le a b Ha H) as Hu.
  unfold nearest.
  destruct (Z.eq_dec (ulp_exponent a) (ulp_exponent b)) as [E|N].
  - rewrite E. apply Qmult_le_compat_r; [|apply Qlt_le_weak, two_pos].
    rewrite <- Zle_Qle. apply round_half_even_le. apply scaled_le. exact H.
  - assert (Hlt : (ulp_exponent a < ulp_exponent b)%Z) by lia.
    assert (Hbn : (-1074 < ulp_exponent b)%Z) by (unfold ulp_exponent in *; lia).
    apply Qle_trans with (two 53 * two (ulp_exponent a)).
    + apply Qmult_le_compat_r; [|apply Qlt_le_weak, two_pos].
      rewrite (two_inject 53) by lia. rewrite <- Zle_Qle.
      apply (proj2 (round_half_even_two _ 53 ltac:(lia))).
      apply Qlt_le_weak, scaled_upper. exact Ha.
    + apply Qle_trans with (two 52 * two (ulp_exponent b)).
      * rewrite <- !two_plus. apply two_le. lia.
      * apply Qmult_le_compat_r; [|apply Qlt_le_weak, two_pos].
        rewrite (two_inject 52) by lia. rewrite <- Zle_Qle.
        apply (proj1 (round_half_even_two _ 52 ltac:(lia))).
        apply scaled_lower; assumption.
Qed.

Lemma nearest_nonneg (a : Q) : 0 < a -> 0 <= nearest a.
Proof.
  intros Ha. unfold nearest. apply Qmult_le_0_compat; [|apply Qlt_le_weak, two_pos].
  change 0 with (inject_Z 0). rewrite <- Zle_Qle.
  pose proof (round_half_even_bounds (a / two (ulp_exponent a))) as [B _].
  apply Z.le_trans with (Qfloor (a / two (ulp_exponent a))); [|exact B].
  change 0%Z with (Qfloor 0). apply Qfloor_resp_le.
  apply Qlt_le_weak. apply Qlt_shift_div_l; [apply two_pos|].
  rewrite Qmult_0_l. exact Ha.
Qed.

Lemma scaled_exact (m e : Z) : inject_Z m * two e / two e == inject_Z m.
Proof.
  unfold Qdiv. rewrite <- Qmult_assoc, Qmult_inv_r, Qmult_1_r; [reflexivity|].
  intros C. pose proof (two_pos e) as P. rewrite C in P. discriminate.
Qed.

Lemma ilog2_dyadic (m e : Z) : (1 <= m)%Z -> ilog2 (inject_Z m * two e) = (Z.log2 m + e)%Z.
Proof.
  intros Hm. destruct (Z.log2_spec m) as [L U]; [lia|].
  pose proof (Z.log2_nonneg m) as Hn.
  apply ilog2_unique.
  - rewrite two_plus. apply Qmult_le_compat_r; [|apply Qlt_le_weak, two_pos].
    rewrite (two_inject (Z.log2 m)) by exact Hn. rewrite <- Zle_Qle. exact L.
  - replace (Z.log2 m + e + 1)%Z with (Z.succ (Z.log2 m) + e)%Z by lia.
    rewrite two_plus. apply Qmult_lt_compat_r; [apply two_pos|].
    rewrite (two_inject (Z.succ (Z.log2 m))) by lia. rewrite <- Zlt_Qlt. exact U.
Qed.

(** A double is its own nearest double *)
Lemma nearest_exact (m e : Z) :
  (1 <= m <= 2 ^ 53)%Z -> (-1074 <= e)%Z -> ((m < 2 ^ 52)%Z -> e = (-1074)%Z) ->
  nearest (inject_Z m * two e) == inject_Z m * two e.
Proof.
  intros Hm He Hsub.
  assert (Hl : (0 <= Z.log2 m <= 53)%Z).
  { split; [apply Z.log2_nonneg|].
    change 53%Z with (Z.log2 (2 ^ 53)). apply Z.log2_le_mono. lia. }
  assert (Hu : ulp_exponent (inject_Z m * two e) = Z.max (Z.log2 m + e - 52) (-1074))
    by (unfold ulp_exponent; rewrite ilog2_dyadic by lia; reflexivity).
  unfold nearest. rewrite Hu.
  destruct (Z.eq_dec m (2 ^ 53)) as [E|N].
  - subst m. change (Z.log2 (2 ^ 53)) with 53%Z.
    replace (Z.max (53 + e - 52) (-1074)) with (e + 1)%Z by lia.
    assert (Hs : inject_Z (2 ^ 53) * two e / two (e + 1) == inject_Z (2 ^ 52)).
    { rewrite two_plus. change (two 1) with 2. change (inject_Z (2 ^ 53)) with (inject_Z (2 ^ 52) * 2).
      field. intros C. pose proof (two_pos e) as P. rewrite C in P. discriminate. }
    rewrite (round_half_even_comp _ _ Hs), round_half_even_Z.
    rewrite two_plus. change (two 1) with 2. change (inject_Z (2 ^ 53)) with (inject_Z (2 ^ 52) * 2).
    ring.
  - assert (Hmax : Z.max (Z.log2 m + e - 52) (-1074) = e).
    { destruct (Z_lt_le_dec m (2 ^ 52)) as [Lt|Ge].
      - rewrite (Hsub Lt).
        assert (Z.log2 m < 52)%Z by (apply Z.log2_lt_pow2; lia). lia.
      - assert (52 <= Z.log2 m)%Z
          by (change 52%Z with (Z.log2 (2 ^ 52)); apply Z.log2_le_mono; exact Ge).
        assert (Z.log2 m < 53)%Z by (apply Z.log2_lt_pow2; lia). lia. }
    rewrite Hmax.
    rewrite (round_half_even_comp _ _ (scaled_exact m e)), round_half_even_Z.
    reflexivity.
Qed.

(** The result of rounding is a multiple of the last place with at most
    53 bits, and 53 bits except among the subnormals *)
Lemma nearest_form (a : Q) :
  0 < a ->
  exists m : Z,
    nearest a = inject_Z m * two (ulp_exponent a)
    /\ (0 <= m <= 2 ^ 53)%Z
    /\ ((m < 2 ^ 52)%Z -> ulp_exponent a = (-1074)%Z).
Proof.
  intros Ha. exists (round_half_even (a / two (ulp_exponent a))).
  split; [reflexivity|]. split; [split|].
  - pose proof (round_half_even_bounds (a / two (ulp_exponent a))) as [B _].
    apply Z.le_trans with (Qfloor (a / two (ulp_exponent a))); [|exact B].
    change 0%Z with (Qfloor 0). apply Qfloor_resp_le.
    apply Qlt_le_weak. apply Qlt_shift_div_l; [apply two_pos|].
    rewrite Qmult_0_l. exact Ha.
  - apply (proj2 (round_half_even_two _ 53 ltac:(lia))).
    apply Qlt_le_weak, scaled_upper. exact Ha.
  - intros Hm.
    destruct (Z.eq_dec (ulp_exponent a) (-1074)) as [E|N]; [exact E|exfalso].
    assert (Hu : (-1074 < ulp_exponent a)%Z) by (unfold ulp_exponent in *; lia).
    pose proof (proj1 (round_half_even_two _ 52 ltac:(lia)) (scaled_lower a Ha Hu)). lia.
Qed.

Lemma nearest_idempotent (a : Q) : 0 < a -> nearest (nearest a) == nearest a.
Proof.
  intros Ha. destruct (nearest_form a Ha) as (m & E & Hm & Hsub).
  rewrite E.
  destruct (Z.eq_dec m 0) as [Z0|NZ].
  - subst m. unfold nearest at 1.
    set (u := ulp_exponent (inject_Z 0 * two (ulp_exponent a))).
    assert (Hs : inject_Z 0 * two (ulp_exponent a) / two u == inject_Z 0).
    { unfold Qdiv. change (inject_Z 0) with 0. ring. }
    rewrite (round_half_even_comp _ _ Hs), round_half_even_Z.
    change (inject_Z 0) with 0. ring.
  - apply nearest_exact; [lia | unfold ulp_exponent; lia | exact Hsub].
Qed.

(** *** The Number value *)

Lemma Qle_bool_comp (a b c : Q) : b == c -> Qle_bool a b = Qle_bool a c.
Proof.
  intros H. destruct (Qle_bool a c) eqn:E.
  - apply Qle_bool_iff. rewrite H. apply Qle_bool_iff. exact E.
  - destruct (Qle_bool a b) eqn:E'; [|reflexivity].
    apply Qle_bool_iff in E'. rewrite H in E'. apply Qle_bool_iff in E'. congruence.
Qed.

Lemma Qeq_bool_comp (b c : Q) : b == c -> Qeq_bool b 0 = Qeq_bool c 0.
Proof.
  intros H. destruct (Qeq_bool c 0) eqn:E.
  - apply Qeq_bool_iff. rewrite H. apply Qeq_bool_iff. exact E.
  - destruct (Qeq_bool b 0) eqn:E'; [|reflexivity].
    apply Qeq_bool_iff in E'. rewrite H in E'. apply Qeq_bool_iff in E'. congruence.
Qed.

Lemma Qeq_bool_positive (r : Q) : 0 <= r -> Qeq_bool r 0 = false -> 0 < r.
Proof.
  intros Hr Hz. apply Qle_lteq in Hr. destruct Hr as [Hr|Hr]; [exact Hr|].
  symmetry in Hr. apply Qeq_bool_iff in Hr. congruence.
Qed.

Lemma of_magnitude_comp (neg : bool) (r t : Q) :
  r == t -> of_magnitude neg r = of_magnitude neg t.
Proof.
  intros H. unfold of_magnitude.
  rewrite (Qle_bool_comp _ r t H), (Qeq_bool_comp r t H).
  destruct (Qle_bool (two 1024) t); [reflexivity|].
  destruct (Qeq_bool t 0); [reflexivity|].
  f_equal. apply Qred_complete. destruct neg; rewrite H; reflexivity.
Qed.

Lemma of_Q_comp (p q : Q) : p == q -> of_Q p = of_Q q.
Proof.
  intros H. unfold of_Q.
  rewrite (Qcompare_comp p q H 0 0 (Qeq_refl 0)).
  assert (E : nearest (Qabs p) == nearest (Qabs q))
    by (apply nearest_comp; rewrite H; reflexivity).
  destruct (q ?= 0); [reflexivity| |]; apply of_magnitude_comp; exact E.
Qed.

Lemma of_Q_positive (q : Q) : 0 < q -> of_Q q = of_magnitude false (nearest q).
Proof.
  intros H. unfold of_Q.
  replace (q ?= 0) with Gt by (symmetry; apply Qgt_alt; exact H).
  apply of_magnitude_comp, nearest_comp, Qabs_pos. apply Qlt_le_weak. exact H.
Qed.

Lemma of_Q_negative (q : Q) : q < 0 -> of_Q q = of_magnitude true (nearest (- q)).
Proof.
  intros H. unfold of_Q.
  replace (q ?= 0) with Lt by (symmetry; apply Qlt_alt; exact H).
  apply of_magnitude_comp, nearest_comp, Qabs_neg. apply Qlt_le_weak. exact H.
Qed.

(** A magnitude that rounding produced is kept by rounding *)
Lemma value_of_magnitude (neg : bool) (r : Q) :
  0 <= r -> nearest r == r -> value (of_magnitude neg r) = of_magnitude neg r.
Proof.
  intros Hr Hn. unfold of_magnitude.
  destruct (Qle_bool (two 1024) r) eqn:Eo; [reflexivity|].
  destruct (Qeq_bool r 0) eqn:Ez; [reflexivity|].
  assert (Hpos : 0 < r) by (apply Qeq_bool_positive; assumption).
  cbn [value]. destruct neg.
  - rewrite (of_Q_comp _ (- r) (Qred_correct _)).
    rewrite of_Q_negative by lra.
    rewrite (of_magnitude_comp true _ r).
    + unfold of_magnitude. rewrite Eo, Ez. reflexivity.
    + rewrite <- Hn at 2. apply nearest_comp. ring.
  - rewrite (of_Q_comp _ r (Qred_correct _)).
    rewrite of_Q_positive by exact Hpos.
    rewrite (of_magnitude_comp false _ r Hn).
    unfold of_magnitude. rewrite Eo, Ez. reflexivity.
Qed.

Lemma Qabs_positive (q : Q) : ~ q == 0 -> 0 < Qabs q.
Proof.
  intros H. pose proof (Qabs_nonneg q) as N.
  apply Qle_lteq in N. destruct N as [N|N]; [exact N|].
  exfalso. apply H. revert N. apply Qabs_case; intros; lra.
Qed.

Lemma value_of_Q (q : Q) : value (of_Q q) = of_Q q.
Proof.
  unfold of_Q. destruct (q ?= 0) eqn:C; [reflexivity| |].
  - apply Qlt_alt in C.
    assert (P : 0 < Qabs q) by (apply Qabs_positive; lra).
    apply value_of_magnitude; [apply nearest_nonneg | apply nearest_idempotent]; exact P.
  - apply Qgt_alt in C.
    assert (P : 0 < Qabs q) by (apply Qabs_positive; lra).
    apply value_of_magnitude; [apply nearest_nonneg | apply nearest_idempotent]; exact P.
Qed.

Lemma value_idempotent (x : Number) : value (value x) = value x.
Proof. destruct x; try reflexivity. apply value_of_Q. Qed.

(** A double is the Number value of its own rational *)
Lemma of_Q_representable (q : Q) : representable q -> of_Q q = Finite (Qred q).
Proof.
  intros (m & e & E & Hm & He & Hsub).
  assert (Hmag : of_magnitude false (Qabs q) = Finite (Qred (Qabs q))
                 /\ of_magnitude true (Qabs q) = Finite (Qred (- Qabs q))).
  { assert (P : 0 < Qabs q).
    { rewrite E. apply Qmult_lt_0_compat; [|apply two_pos].
      change 0 with (inject_Z 0). rewrite <- Zlt_Qlt. lia. }
    assert (B : Qabs q < two 1024).
    { rewrite E. apply Qlt_le_trans with (two 53 * two e).
      - apply Qmult_lt_compat_r; [apply two_pos|].
        rewrite (two_inject 53) by lia. rewrite <- Zlt_Qlt. lia.
      - rewrite <- two_plus. apply two_le. lia. }
    unfold of_magnitude.
    replace (Qle_bool (two 1024) (Qabs q)) with false.
    - replace (Qeq_bool (Qabs q) 0) with false; [split; reflexivity|].
      symmetry. destruct (Qeq_bool (Qabs q) 0) eqn:Ez; [|reflexivity].
      apply Qeq_bool_iff in Ez. lra.
    - symmetry. destruct (Qle_bool (two 1024) (Qabs q)) eqn:Eo; [|reflexivity].
      apply Qle_bool_iff in Eo. lra. }
  assert (Hn : nearest (Qabs q) == Qabs q).
  { rewrite (nearest_comp _ _ E), E. apply nearest_exact; [lia | lia | exact Hsub]. }
  unfold of_Q. destruct (q ?= 0) eqn:C.
  - exfalso. apply Qeq_alt in C.
    assert (P : 0 < Qabs q).
    { rewrite E. apply Qmult_lt_0_compat; [|apply two_pos].
      change 0 with (inject_Z 0). rewrite <- Zlt_Qlt. lia. }
    rewrite C in P. discriminate.
  - apply Qlt_alt in C. rewrite (of_magnitude_comp true _ _ Hn), (proj2 Hmag).
    f_equal. apply Qred_complete. rewrite Qabs_neg by lra. ring.
  - apply Qgt_alt in C. rewrite (of_magnitude_comp false _ _ Hn), (proj1 Hmag).
    f_equal. apply Qred_complete. rewrite Qabs_pos by lra. reflexivity.
Qed.

Lemma of_Q_le (a b : Q) : 0 <= a -> a <= b -> not_after (of_Q a) (of_Q b) = true.
Proof.
  intros Ha Hab.
  apply Qle_lteq in Ha. destruct Ha as [Ha|Ha].
  - assert (Hb : 0 < b) by lra.
    rewrite (of_Q_positive a Ha), (of_Q_positive b Hb).
    pose proof (nearest_le a b Ha Hab) as Hn.
    pose proof (nearest_nonneg a Ha) as Hna.
    unfold of_magnitude.
    destruct (Qle_bool (two 1024) (nearest a)) eqn:Oa.
    + apply Qle_bool_iff in Oa.
      replace (Qle_bool (two 1024) (nearest b)) with true; [reflexivity|].
      symmetry. apply Qle_bool_iff. lra.
    + destruct (Qle_bool (two 1024) (nearest b)) eqn:Ob.
      { destruct (Qeq_bool (nearest a) 0); reflexivity. }
      destruct (Qeq_bool (nearest a) 0) eqn:Za.
      * destruct (Qeq_bool (nearest b) 0) eqn:Zb; [reflexivity|].
        unfold not_after, order.
        apply Qeq_bool_iff in Za.
        assert (Hp : 0 < Qred (nearest b)).
        { rewrite Qred_correct. apply Qeq_bool_positive; [lra | exact Zb]. }
        apply (proj1 (Qlt_alt _ _)) in Hp. rewrite Hp. reflexivity.
      * destruct (Qeq_bool (nearest b) 0) eqn:Zb.
        { exfalso. apply Qeq_bool_iff in Zb.
          assert (Hz : nearest a == 0) by lra.
          apply Qeq_bool_iff in Hz. congruence. }
        unfold not_after, order.
        rewrite <- Qred_compare.
        destruct (nearest a ?= nearest b) eqn:C; try reflexivity.
        apply Qgt_alt in C. lra.
  - rewrite <- (of_Q_comp 0 a Ha).
    change (of_Q 0) with (Zero false).
    apply Qle_lteq in Hab. destruct Hab as [Hb|Hb].
    + assert (Hb' : 0 < b) by lra.
      rewrite (of_Q_positive b Hb').
      pose proof (nearest_nonneg b Hb') as Hnb.
      unfold of_magnitude.
      destruct (Qle_bool (two 1024) (nearest b)); [reflexivity|].
      destruct (Qeq_bool (nearest b) 0) eqn:Zb; [reflexivity|].
      unfold not_after, order.
      assert (Hp : 0 < Qred (nearest b)).
      { rewrite Qred_correct. apply Qeq_bool_positive; assumption. }
      apply (proj1 (Qlt_alt _ _)) in Hp. rewrite Hp. reflexivity.
    + rewrite <- (of_Q_comp 0 b); [reflexivity|]. lra.
Qed.

(** *** The order of the doubles *)

Ltac compare_cases :=
  repeat match goal with
  | C : (_ ?= _)%Q = Eq |- _ => apply Qeq_alt in C
  | C : (_ ?= _)%Q = Lt |- _ => apply Qlt_alt in C
  | C : (_ ?= _)%Q = Gt |- _ => apply Qgt_alt in C
  end.

Ltac order_spec_case :=
  lazymatch goal with
  | |- true = true <-> _ =>
    split; [intros _; split; [discriminate|]; split; [discriminate|];
            first [left; reflexivity | right; split; [reflexivity | lra]]
           | reflexivity]
  | |- false = true <-> _ =>
    split; [discriminate
           | intros (N1 & N2 & [L | [E L]]);
             first [congruence | discriminate L | discriminate E | lra]]
  end.

Lemma not_after_spec (x y : Number) : not_after x y = true <-> stands_not_after x y.
Proof.
  unfold stands_not_after, not_after, order.
  destruct x as [|[|]|a|p], y as [|[|]|b|q]; cbn [tier amount];
    try order_spec_case.
  - destruct (0 ?= q) eqn:C; compare_cases; order_spec_case.
  - destruct (p ?= 0) eqn:C; compare_cases; order_spec_case.
  - destruct (p ?= q) eqn:C; compare_cases; order_spec_case.
Qed.

Lemma not_after_refl (x : Number) : x <> NaN -> not_after x x = true.
Proof.
  intros H. apply not_after_spec. repeat split; try assumption.
  right. split; [reflexivity | lra].
Qed.

Lemma not_after_trans (x y z : Number) :
  not_after x y = true -> not_after y z = true -> not_after x z = true.
Proof.
  rewrite !not_after_spec. intros (Nx & Ny & H1) (_ & Nz & H2).
  repeat split; try assumption.
  destruct H1 as [H1 | [E1 H1]], H2 as [H2 | [E2 H2]];
    [left; lia | left; lia | left; lia | right; split; [lia | lra]].
Qed.

Lemma not_after_number (x y : Number) : not_after x y = true -> x <> NaN /\ y <> NaN.
Proof. rewrite not_after_spec. intros (Nx & Ny & _). split; assumption. Qed.

Lemma before_not_after (x y : Number) :
  x <> NaN -> y <> NaN ->
  if before y x then not_after y x = true else not_after x y = true.
Proof.
  intros Nx Ny. unfold before, not_after, order.
  destruct x as [|[|]|a|p], y as [|[|]|b|q]; try congruence; try reflexivity.
  - rewrite <- (Qcompare_antisym 0 q). destruct (0 ?= q); reflexivity.
  - rewrite <- (Qcompare_antisym p 0). destruct (p ?= 0); reflexivity.
  - rewrite <- (Qcompare_antisym p q). destruct (p ?= q); reflexivity.
Qed.

(** [lowest] returns one of its arguments, the one that is not after the
    other *)
Lemma lowest_cases (x m : Number) :
  x <> NaN -> m <> NaN ->
  (lowest x m = m /\ not_after m x = true) \/ (lowest x m = x /\ not_after x m = true).
Proof.
  intros Nx Nm. pose proof (before_not_after x m Nx Nm) as H.
  assert (G : (if before m x then m else x) = lowest x m
              \/ (x = Zero false /\ m = Zero true)).
  { unfold lowest. destruct x as [|a|[|]|p]; try congruence; try (left; reflexivity);
      destruct m as [|b|[|]|q]; try congruence; try (left; reflexivity).
    right. split; reflexivity. }
  destruct G as [G | [Ex Em]].
  - rewrite <- G. destruct (before m x); [left | right]; split; auto.
  - subst. left. split; reflexivity.
Qed.

Lemma lowest_not_after (x m : Number) :
  x <> NaN -> m <> NaN -> not_after (lowest x m) m = true.
Proof.
  intros Nx Nm. destruct (lowest_cases x m Nx Nm) as [[E H] | [E H]]; rewrite E.
  - apply not_after_refl. exact Nm.
  - exact H.
Qed.

Lemma lowest_monotone (x y m : Number) :
  not_after x y = true -> m <> NaN ->
  not_after (lowest x m) (lowest y m) = true.
Proof.
  intros H Nm. destruct (not_after_number x y H) as [Nx Ny].
  destruct (lowest_cases x m Nx Nm) as [[Ex Hx] | [Ex Hx]];
    destruct (lowest_cases y m Ny Nm) as [[Ey Hy] | [Ey Hy]]; rewrite Ex, Ey.
  - apply not_after_refl. exact Nm.
  - apply not_after_trans with x; assumption.
  - exact Hx.
  - exact H.
Qed.

Lemma value_lowest (x y : Number) :
  value x = x -> value y = y -> value (lowest x y) = lowest x y.
Proof.
  intros Hx Hy. unfold lowest.
  destruct x as [|a|[|]|p]; try reflexivity;
    destruct y as [|b|[|]|q]; try reflexivity;
    try (destruct (before _ _); assumption).
Qed.

Lemma value_min (x y : Number) : value (min x y) = min x y.
Proof. apply value_lowest; apply value_idempotent. Qed.

Lemma le_transitive (x y z : Number) : le x y = true -> le y z = true -> le x z = true.
Proof. apply not_after_trans. Qed.

Lemma is_NaN_value (x : Number) : is_NaN x = false -> value x <> NaN.
Proof. unfold is_NaN. destruct (value x); congruence. Qed.

Lemma le_reflexive (x : Number) : is_NaN x = false -> le x x = true.
Proof. intros H. apply not_after_refl, is_NaN_value, H. Qed.

Lemma le_number (x y : Number) : le x y = true -> is_NaN x = false /\ is_NaN y = false.
Proof.
  intros H. apply not_after_number in H. unfold is_NaN.
  destruct (value x), (value y); split; try reflexivity; destruct H; congruence.
Qed.

Lemma min_le (x m : Number) :
  is_NaN x = false -> is_NaN m = false -> le (min x m) m = true.
Proof.
  intros Hx Hm. unfold le. rewrite value_min.
  apply lowest_not_after; apply is_NaN_value; assumption.
Qed.

Lemma min_monotone (x y m : Number) :
  le x y = true -> is_NaN m = false -> le (min x m) (min y m) = true.
Proof.
  intros H Hm. unfold le. rewrite !value_min.
  apply lowest_monotone; [exact H | apply is_NaN_value; exact Hm].
Qed.

(** *** The arithmetic of the backoff *)

Lemma value_one : value one = Finite 1.
Proof. vm_compute. reflexivity. Qed.

Lemma nearest_one : nearest 1 == 1.
Proof. vm_compute. reflexivity. Qed.

Lemma le_one_shape (f : Number) :
  le one f = true ->
  value f = Infinity false \/ exists q, value f = Finite q /\ 1 <= q.
Proof.
  unfold le. rewrite value_one. unfold not_after, order.
  destruct (value f) as [|[|]|b|q]; try discriminate.
  - left. reflexivity.
  - intros H. right. exists q. split; [reflexivity|].
    destruct (1 ?= q) eqn:C; try discriminate; compare_cases; lra.
Qed.

Lemma lt_zero_shape (d : Number) :
  lt zero d = true ->
  value d = Infinity false \/ exists q, value d = Finite q /\ 0 < q.
Proof.
  unfold lt, before, order. cbn [zero value].
  destruct (value d) as [|[|]|b|q]; try discriminate.
  - left. reflexivity.
  - intros H. right. exists q. split; [reflexivity|].
    destruct (0 ?= q) eqn:C; try discriminate; compare_cases; lra.
Qed.

Lemma sign_positive (q : Q) : 0 < q -> sign (Finite q) = false.
Proof.
  intros H. cbn. destruct (q ?= 0) eqn:C; try reflexivity.
  compare_cases. lra.
Qed.

(** The Number value of a rational from 1 on: an infinity or a finite
    double from 1 on *)
Lemma of_Q_from_one (r : Q) :
  1 <= r ->
  1 <= nearest r
  /\ of_Q r = if Qle_bool (two 1024) (nearest r) then Infinity false
              else Finite (Qred (nearest r)).
Proof.
  intros H.
  assert (Hn : 1 <= nearest r).
  { rewrite <- nearest_one. apply nearest_le; [reflexivity | exact H]. }
  split; [exact Hn|].
  rewrite of_Q_positive by lra. unfold of_magnitude.
  destruct (Qle_bool (two 1024) (nearest r)); [reflexivity|].
  destruct (Qeq_bool (nearest r) 0) eqn:Z; [|reflexivity].
  apply Qeq_bool_iff in Z. lra.
Qed.

Lemma of_Q_le_infinity (a : Q) : 0 <= a -> not_after (of_Q a) (Infinity false) = true.
Proof.
  intros H. apply Qle_lteq in H. destruct H as [H|H].
  - rewrite of_Q_positive by exact H. unfold of_magnitude.
    destruct (Qle_bool (two 1024) (nearest a)); [reflexivity|].
    destruct (Qeq_bool (nearest a) 0); reflexivity.
  - rewrite <- (of_Q_comp 0 a H). reflexivity.
Qed.

Lemma exponentiate_finite (f : Number) (qf : Q) (k : nat) :
  value f = Finite qf -> exponentiate f k = of_Q (qf ^ Z.of_nat k).
Proof.
  intros H. destruct k as [|k].
  - vm_compute. reflexivity.
  - cbn [exponentiate]. rewrite H. reflexivity.
Qed.

Lemma exponentiate_infinite (f : Number) (k : nat) :
  value f = Infinity false -> exponentiate f (S k) = Infinity false.
Proof. intros H. cbn [exponentiate]. rewrite H. reflexivity. Qed.

Lemma exponentiate_from_one (f : Number) (k : nat) :
  le one f = true ->
  value (exponentiate f k) = Infinity false
  \/ exists q, value (exponentiate f k) = Finite q /\ 1 <= q.
Proof.
  intros H. destruct (le_one_shape f H) as [E | (qf & E & Hq)].
  - destruct k as [|k].
    + right. exists 1. split; [exact value_one | lra].
    + left. rewrite (exponentiate_infinite f k E). reflexivity.
  - rewrite (exponentiate_finite f qf k E), value_of_Q.
    assert (Hp : 1 <= qf ^ Z.of_nat k) by (apply Qpower_1_le; [exact Hq | lia]).
    destruct (of_Q_from_one _ Hp) as [Hn Ef]. rewrite Ef.
    destruct (Qle_bool (two 1024) (nearest (qf ^ Z.of_nat k))); [left; reflexivity|].
    right. eexists. split; [reflexivity|]. rewrite Qred_correct. exact Hn.
Qed.

Lemma mul_infinity (d p : Number) :
  value d = Infinity false ->
  (value p = Infinity false \/ exists q, value p = Finite q /\ 1 <= q) ->
  mul d p = Infinity false.
Proof.
  intros Hd Hp. unfold mul. rewrite Hd.
  destruct Hp as [E | (q & E & Hq)]; rewrite E; [reflexivity|].
  cbn [times]. rewrite sign_positive by lra. reflexivity.
Qed.

Lemma times_finite_of_Q (qd r : Q) :
  0 < qd -> 1 <= r ->
  times (Finite qd) (of_Q r)
  = if Qle_bool (two 1024) (nearest r) then Infinity false
    else of_Q (qd * nearest r).
Proof.
  intros Hd Hr. destruct (of_Q_from_one r Hr) as [Hn E]. rewrite E.
  destruct (Qle_bool (two 1024) (nearest r)).
  - cbn [times]. rewrite sign_positive by exact Hd. reflexivity.
  - cbn [times]. apply of_Q_comp. rewrite Qred_correct. reflexivity.
Qed.

(** The product [delay * factor ** k] does not decrease with [k] *)
Lemma scaled_power_le (d f : Number) (k : nat) :
  lt zero d = true -> le one f = true ->
  le (mul d (exponentiate f k)) (mul d (exponentiate f (S k))) = true.
Proof.
  intros Hd Hf.
  destruct (lt_zero_shape d Hd) as [Ed | (qd & Ed & Hqd)].
  - rewrite !(mul_infinity d _ Ed) by (apply exponentiate_from_one; exact Hf).
    reflexivity.
  - destruct (le_one_shape f Hf) as [Ef | (qf & Ef & Hqf)].
    + rewrite (exponentiate_infinite f k Ef).
      replace (mul d (Infinity false)) with (Infinity false)
        by (unfold mul; rewrite Ed; cbn [value times];
            rewrite sign_positive by exact Hqd; reflexivity).
      destruct k as [|k].
      * cbn [exponentiate]. unfold mul, le. rewrite Ed, value_one. cbn [times].
        rewrite value_of_Q. apply of_Q_le_infinity.
        apply Qmult_le_0_compat; lra.
      * rewrite (exponentiate_infinite f k Ef).
        replace (mul d (Infinity false)) with (Infinity false)
          by (unfold mul; rewrite Ed; cbn [value times];
              rewrite sign_positive by exact Hqd; reflexivity).
        reflexivity.
    + rewrite !(exponentiate_finite f qf _ Ef).
      unfold mul. rewrite Ed, !value_of_Q.
      assert (H1 : 1 <= qf ^ Z.of_nat k) by (apply Qpower_1_le; [exact Hqf | lia]).
      assert (H2 : 1 <= qf ^ Z.of_nat (S k)) by (apply Qpower_1_le; [exact Hqf | lia]).
      assert (H12 : qf ^ Z.of_nat k <= qf ^ Z.of_nat (S k))
        by (apply Qpower_le_compat_l; [lia | exact Hqf]).
      rewrite !times_finite_of_Q by assumption.
      assert (Hn : nearest (qf ^ Z.of_nat k) <= nearest (qf ^ Z.of_nat (S k)))
        by (apply nearest_le; [lra | exact H12]).
      pose proof (proj1 (of_Q_from_one _ H1)) as Hn1.
      assert (Hp : 0 <= qd * nearest (qf ^ Z.of_nat k))
        by (apply Qmult_le_0_compat; lra).
      unfold le.
      destruct (Qle_bool (two 1024) (nearest (qf ^ Z.of_nat k))) eqn:O1.
      * apply Qle_bool_iff in O1.
        replace (Qle_bool (two 1024) (nearest (qf ^ Z.of_nat (S k)))) with true;
          [reflexivity|].
        symmetry. apply Qle_bool_iff. lra.
      * rewrite value_of_Q.
        destruct (Qle_bool (two 1024) (nearest (qf ^ Z.of_nat (S k)))).
        -- apply of_Q_le_infinity. exact Hp.
        -- rewrite value_of_Q. apply of_Q_le; [exact Hp|].
           apply Qmult_le_l; [exact Hqd | exact Hn].
Qed.

(** Multiplying by one changes nothing *)
Lemma mul_one (d : Number) : mul d one = value d.
Proof.
  unfold mul. rewrite value_one.
  pose proof (value_idempotent d) as H.
  destruct (value d) as [|a|a|q]; cbn [times sign]; try reflexivity.
  - replace (1 ?= 0) with Gt by reflexivity. rewrite xorb_false_r. reflexivity.
  - replace (1 ?= 0) with Gt by reflexivity. rewrite xorb_false_r. reflexivity.
  - cbn [value] in H. rewrite <- H. apply of_Q_comp. ring.
Qed.

Lemma canonical_Qred (q : Q) : of_Q q = Finite q -> Qred q = q.
Proof.
  intros H. unfold of_Q in H.
  destruct (q ?= 0); [discriminate| |]; unfold of_magnitude in H;
    destruct (Qle_bool _ _); try discriminate;
    destruct (Qeq_bool _ _); try discriminate;
    match type of H with
    | Finite (Qred ?z) = _ => set (w := z) in H; clearbody w
    end;
    assert (E : Qred w = q) by congruence;
    rewrite <- E; apply Qred_complete, Qred_correct.
Qed.

(** A product that is a double is not rounded *)
Lemma mul_representable (d : Number) (qd p : Q) :
  value d = Finite qd -> representable p -> representable (qd * p) ->
  mul d (Finite (Qred p)) = Finite (Qred (qd * p)).
Proof.
  intros Ed Rp Rx. unfold mul. rewrite Ed. cbn [value].
  rewrite (of_Q_comp _ p (Qred_correct p)), (of_Q_representable _ Rp).
  cbn [times].
  rewrite (of_Q_comp _ (qd * p)) by (rewrite Qred_correct; reflexivity).
  apply of_Q_representable. exact Rx.
Qed.

Lemma min_finite (x qm : Q) (m : Number) :
  representable x -> value m = Finite qm ->
  min (Finite (Qred x)) m = Finite (Qred (Qmin x qm)).
Proof.
  intros Rx Em. unfold min. cbn [value].
  rewrite (of_Q_comp _ x (Qred_correct x)), (of_Q_representable _ Rx), Em.
  assert (Hm : qm = Qred qm).
  { pose proof (value_idempotent m) as H. rewrite Em in H.
    symmetry. apply canonical_Qred. exact H. }
  unfold lowest, before, order.
  destruct (qm ?= Qred x) eqn:C; compare_cases; rewrite Qred_correct in C; f_equal.
  - apply Qred_complete. rewrite Q.min_l; [reflexivity | lra].
  - rewrite Hm at 1. apply Qred_complete. rewrite Q.min_r; [reflexivity | lra].
  - apply Qred_complete. rewrite Q.min_l; [reflexivity | lra].
Qed.

Lemma representable_comp (p q : Q) : p == q -> representable p -> representable q.
Proof.
  intros E (m & e & H & R). exists m, e. split; [|exact R]. rewrite <- E. exact H.
Qed.

(** Two canonical doubles that are not after each other are the same,
    the zeros apart *)
Lemma not_after_antisymmetric (x : Number) (q : Q) :
  ~ q == 0 -> of_Q q = Finite q -> value x = x ->
  not_after (Finite q) x = true -> not_after x (Finite q) = true -> x = Finite q.
Proof.
  intros Hq Cq Cx H1 H2.
  apply not_after_spec in H1. apply not_after_spec in H2.
  destruct H1 as (_ & Nx & H1), H2 as (_ & _ & H2).
  destruct x as [|[|]|b|p]; try congruence; cbn [tier amount] in *;
    try (destruct H1 as [H1 | [H1 _]]; [lia | discriminate H1]);
    try (destruct H2 as [H2 | [H2 _]]; [lia | discriminate H2]).
  - exfalso. apply Hq.
    destruct H1 as [H1 | [_ H1]]; [lia|]. destruct H2 as [H2 | [_ H2]]; [lia|]. lra.
  - assert (E : p == q).
    { destruct H1 as [H1 | [_ H1]]; [lia|]. destruct H2 as [H2 | [_ H2]]; [lia|]. lra. }
    cbn [value] in Cx. rewrite (of_Q_comp p q E), Cq in Cx. symmetry. exact Cx.
Qed.

(** The product by a positive double does not decrease with the other
    factor, from 1 on *)
Lemma mul_monotone (d p p' : Number) :
  lt zero d = true -> le one p = true -> le p p' = true ->
  le (mul d p) (mul d p') = true.
Proof.
  intros Hd Hp Hpp.
  assert (Shape : value p' = Infinity false
                  \/ exists q q', value p = Finite q /\ value p' = Finite q'
                                  /\ 1 <= q /\ q <= q').
  { unfold le in Hpp. apply not_after_spec in Hpp. destruct Hpp as (_ & N & H).
    destruct (le_one_shape p Hp) as [E | (q & E & Hq)]; rewrite E in H.
    - left. destruct (value p') as [|[|]|b|q']; cbn [tier amount] in H; try congruence;
        try reflexivity; destruct H as [H | [H _]]; try lia; discriminate H.
    - destruct (value p') as [|[|]|b|q']; cbn [tier amount] in H; try congruence.
      + destruct H as [H | [H _]]; [lia | discriminate H].
      + left. reflexivity.
      + destruct H as [H | [_ H]]; [lia | lra].
      + right. exists q, q'. repeat split; try assumption.
        destruct H as [H | [_ H]]; [lia | exact H]. }
  destruct (lt_zero_shape d Hd) as [Ed | (qd & Ed & Hqd)].
  - rewrite (mul_infinity d p Ed) by (apply le_one_shape; exact Hp).
    rewrite (mul_infinity d p' Ed); [reflexivity|].
    destruct Shape as [E | (q & q' & _ & E & Hq & Hqq)]; [left; exact E|].
    right. exists q'. split; [exact E | lra].
  - assert (Top : times (Finite qd) (Infinity false) = Infinity false)
      by (cbn [times]; rewrite sign_positive by exact Hqd; reflexivity).
    unfold mul, le. rewrite Ed.
    destruct Shape as [E' | (q & q' & E & E' & Hq & Hqq)]; rewrite E'.
    + rewrite Top. cbn [value].
      destruct (le_one_shape p Hp) as [E | (q & E & Hq)]; rewrite E.
      * rewrite Top. reflexivity.
      * cbn [times]. rewrite value_of_Q. apply of_Q_le_infinity.
        apply Qmult_le_0_compat; lra.
    + rewrite E. cbn [times]. rewrite !value_of_Q.
      apply of_Q_le; [apply Qmult_le_0_compat; lra|].
      apply Qmult_le_l; assumption.
Qed.

(** On the samples, taken two by two, the product, the order and the
    rounding of the model are those of the binary64 floats of the proof
    assistant *)
Lemma agrees_with_binary64 :
  map (fun xy => mul (of_float (fst xy)) (of_float (snd xy))) (list_prod samples samples)
  = map (fun xy => of_float (fst xy * snd xy)%float) (list_prod samples samples)
  /\ map (fun xy => le (of_float (fst xy)) (of_float (snd xy))) (list_prod samples samples)
     = map (fun xy => (fst xy <=? snd xy)%float) (list_prod samples samples)
  /\ map (fun xy => lt (of_float (fst xy)) (of_float (snd xy))) (list_prod samples samples)
     = map (fun xy => (fst xy <? snd xy)%float) (list_prod samples samples)
  /\ map (fun x => value (of_float x)) samples = map of_float samples.
Proof.
  split; [vm_compute; reflexivity|]. split; [vm_compute; reflexivity|].
  split; vm_compute; reflexivity.
Qed.

End DoubleFacts.

(** ** The backoff delays *)

Lemma Qpower_power (f : Q) (k : nat) : f ^ Z.of_nat k == power f k.
Proof.
  induction k as [|k IH].
  - reflexivity.
  - replace (Z.of_nat (S k)) with (1 + Z.of_nat k)%Z by lia.
    rewrite Qpower_plus' by lia. rewrite Qpower_1_r, IH. reflexivity.
Qed.

Lemma Qmin_morphism (a b c : Q) : a == b -> Qmin a c == Qmin b c.
Proof.
  intros E. apply Qle_antisym; apply Q.min_le_compat_r; rewrite E; apply Qle_refl.
Qed.

(** At counter 0 the factor plays no part *)
Lemma currentDelay_0 (r : ReconnectConfig) :
  Sockeon.currentDelay r 0 = Double.min (delay r) (maxDelay r).
Proof.
  unfold Sockeon.currentDelay. cbn [Double.exponentiate]. unfold Double.min.
  rewrite DoubleFacts.mul_one, DoubleFacts.value_idempotent. reflexivity.
Qed.

Lemma currentDelay_step (r : ReconnectConfig) (k : nat) :
  Double.le Double.one (factor r) = true ->
  Double.lt Double.zero (delay r) = true ->
  Double.is_NaN (maxDelay r) = false ->
  Double.le (Sockeon.currentDelay r k) (Sockeon.currentDelay r (S k)) = true.
Proof.
  intros Hf Hd Hm. apply DoubleFacts.min_monotone; [|exact Hm].
  apply DoubleFacts.scaled_power_le; assumption.
Qed.

Lemma currentDelay_bounded (r : ReconnectConfig) (k : nat) :
  Double.le Double.one (factor r) = true ->
  Double.lt Double.zero (delay r) = true ->
  Double.is_NaN (maxDelay r) = false ->
  Double.le (Sockeon.currentDelay r k) (maxDelay r) = true.
Proof.
  intros Hf Hd Hm. apply DoubleFacts.min_le; [|exact Hm].
  exact (proj1 (DoubleFacts.le_number _ _
                  (DoubleFacts.scaled_power_le (delay r) (factor r) k Hd Hf))).
Qed.

Lemma currentDelay_monotone (r : ReconnectConfig) (j k : nat) :
  Double.le Double.one (factor r) = true ->
  Double.lt Double.zero (delay r) = true ->
  Double.is_NaN (maxDelay r) = false ->
  (j <= k)%nat ->
  Double.le (Sockeon.currentDelay r j) (Sockeon.currentDelay r k) = true.
Proof.
  intros Hf Hd Hm Hjk. induction Hjk as [|k Hjk IH].
  - apply DoubleFacts.le_reflexive.
    exact (proj1 (DoubleFacts.le_number _ _ (currentDelay_bounded r j Hf Hd Hm))).
  - apply DoubleFacts.le_transitive with (Sockeon.currentDelay r k); [exact IH|].
    apply currentDelay_step; assumption.
Qed.

(** Whatever double stands for the power, from 1 on: the delay does not
    decrease with it and is not above [maxDelay] *)
Lemma delay_monotone_in_power (r : ReconnectConfig) (p p' : Double.Number) :
  Double.lt Double.zero (delay r) = true ->
  Double.is_NaN (maxDelay r) = false ->
  Double.le Double.one p = true ->
  Double.le p p' = true ->
  Double.le (Double.min (Double.mul (delay r) p) (maxDelay r))
            (Double.min (Double.mul (delay r) p') (maxDelay r)) = true
  /\ Double.le (Double.min (Double.mul (delay r) p) (maxDelay r)) (maxDelay r) = true.
Proof.
  intros Hd Hm Hp Hpp.
  pose proof (DoubleFacts.mul_monotone (delay r) p p' Hd Hp Hpp) as H.
  split.
  - apply DoubleFacts.min_monotone; assumption.
  - apply DoubleFacts.min_le; [|exact Hm].
    exact (proj1 (DoubleFacts.le_number _ _ H)).
Qed.

(** Where neither the power nor the product is rounded, the delay is the
    formula of the specification *)
Lemma currentDelay_exact (r : ReconnectConfig) (qd qf qm : Q) (k : nat) :
  Double.value (delay r) = Double.Finite qd ->
  Double.value (factor r) = Double.Finite qf ->
  Double.value (maxDelay r) = Double.Finite qm ->
  Double.representable (power qf k) ->
  Double.representable (qd * power qf k) ->
  Sockeon.currentDelay r k = Double.Finite (Qred (spec_delay qd qf qm k)).
Proof.
  intros Ed Ef Em Rp Rx. unfold Sockeon.currentDelay, spec_delay.
  rewrite (DoubleFacts.exponentiate_finite _ qf k Ef).
  rewrite (DoubleFacts.of_Q_comp _ _ (Qpower_power qf k)).
  rewrite (DoubleFacts.of_Q_representable _ Rp).
  rewrite (DoubleFacts.mul_representable _ qd _ Ed Rp Rx).
  apply DoubleFacts.min_finite; assumption.
Qed.

(** The event and the timer of one call get the same number *)
Lemma scheduleReconnect_delay (t : System) :
  limit_reached (reconnect_policy t) (reconnectAttempts (client t)) = false ->
  let k := reconnectAttempts (client t) in
  let ms := Sockeon.currentDelay (reconnect_policy t) k in
  let t' := exec Sockeon.scheduleReconnect t in
  timers (world t')
  = {| handle := fresh (world t); repeating := false; after := ms;
       callback := ReconnectCallback |} :: timers (world t)
  /\ emitted (world t')
     = emitted (world t)
       ++ [{| ev_name := "reconnect_attempt";
              ev_payload := PReconnectAttempt (S k) ms |}].
Proof.
  intros H. cbv zeta. unfold exec. rewrite scheduleReconnect_spec, H.
  unfold attempt_scheduled. destruct t as [c w]. split; reflexivity.
Qed.

(** The default policy stays at its cap once it has reached it *)
Lemma currentDelay_capped (k : nat) :
  (9 <= k)%nat -> Sockeon.currentDelay default_reconnect k = Double.Finite 30000.
Proof.
  intros H.
  assert (Hf : Double.le Double.one (factor default_reconnect) = true)
    by (vm_compute; reflexivity).
  assert (Hd : Double.lt Double.zero (delay default_reconnect) = true)
    by (vm_compute; reflexivity).
  assert (Hm : Double.is_NaN (maxDelay default_reconnect) = false)
    by (vm_compute; reflexivity).
  pose proof (currentDelay_monotone default_reconnect 9 k Hf Hd Hm H) as H1.
  pose proof (currentDelay_bounded default_reconnect k Hf Hd Hm) as H2.
  assert (E9 : Sockeon.currentDelay default_reconnect 9 = Double.Finite 30000)
    by (vm_compute; reflexivity).
  assert (Ev : Double.value (Double.Finite 30000) = Double.Finite 30000)
    by (vm_compute; reflexivity).
  rewrite E9 in H1. unfold Double.le in H1, H2.
  change (maxDelay default_reconnect) with (Double.Finite 30000) in H2.
  rewrite Ev in H1, H2.
  assert (Hv : Double.value (Sockeon.currentDelay default_reconnect k)
               = Sockeon.currentDelay default_reconnect k)
    by apply DoubleFacts.value_min.
  rewrite Hv in H1, H2.
  apply DoubleFacts.not_after_antisymmetric; try assumption.
  intros C. discriminate C.
Qed.

(** C2, amended.  Numbers being IEEE doubles: for a policy with
    [factor >= 1], [delay > 0] and a [maxDelay] that is not NaN, on a
    supervised session whose attempt counter is 0, any [n] unexpected
    closes in a row (with no limit on attempts, or [n] within the limit)
    add to the trace the reconnect delays computed for the counters
    0, ..., n-1, in this order, and each call of [scheduleReconnect] arms
    its timer with the delay it reports in [reconnect_attempt].  The
    delay for counter [k] is the double
    [Math.min(delay * factor ** k, maxDelay)]: it is
    [min(delay * factor^k, maxDelay)] itself where neither the power nor
    the product is rounded, the delays are non-decreasing in [k], and
    none is above [maxDelay] (so none is NaN); and whatever doubles
    stand for the powers, from 1 on and non-decreasing, the delays
    computed from them are non-decreasing and not above [maxDelay].  For
    the default policy (1000, 1.5, 30000) the delays are 1000, 1500,
    2250, 3375, 5062.5, ... and 30000 from counter 9 on. *)
Theorem reconnect_delay_sequence (s : System) (cs : list Close) :
  let r := reconnect_policy s in
  let n := List.length cs in
  Double.le Double.one (factor r) = true ->
  Double.lt Double.zero (delay r) = true ->
  Double.is_NaN (maxDelay r) = false ->
  supervised s ->
  reconnectAttempts (client s) = 0%nat ->
  (maxAttempts r <= 0 \/ Z.of_nat n <= maxAttempts r)%Z ->
  attempt_delays (emitted (world (drops cs s)))
  = attempt_delays (emitted (world s)) ++ map (Sockeon.currentDelay r) (seq 0 n)
  /\ (forall t,
        limit_reached (reconnect_policy t) (reconnectAttempts (client t)) = false ->
        let k := reconnectAttempts (client t) in
        let ms := Sockeon.currentDelay (reconnect_policy t) k in
        let t' := exec Sockeon.scheduleReconnect t in
        timers (world t')
        = {| handle := fresh (world t); repeating := false; after := ms;
             callback := ReconnectCallback |} :: timers (world t)
        /\ emitted (world t')
           = emitted (world t)
             ++ [{| ev_name := "reconnect_attempt";
                    ev_payload := PReconnectAttempt (S k) ms |}])
  /\ (forall k qd qf qm,
        Double.value (delay r) = Double.Finite qd ->
        Double.value (factor r) = Double.Finite qf ->
        Double.value (maxDelay r) = Double.Finite qm ->
        Double.representable (power qf k) ->
        Double.representable (qd * power qf k) ->
        Sockeon.currentDelay r k = Double.Finite (Qred (spec_delay qd qf qm k)))
  /\ (forall k,
        Double.le (Sockeon.currentDelay r k) (Sockeon.currentDelay r (S k)) = true)
  /\ (forall j k, (j <= k)%nat ->
        Double.le (Sockeon.currentDelay r j) (Sockeon.currentDelay r k) = true)
  /\ (forall k, Double.le (Sockeon.currentDelay r k) (maxDelay r) = true)
  /\ (forall k, Double.is_NaN (Sockeon.currentDelay r k) = false)
  /\ (forall p p',
        Double.le Double.one p = true -> Double.le p p' = true ->
        Double.le (Double.min (Double.mul (delay r) p) (maxDelay r))
                  (Double.min (Double.mul (delay r) p') (maxDelay r)) = true
        /\ Double.le (Double.min (Double.mul (delay r) p) (maxDelay r))
                     (maxDelay r) = true)
  /\ map (Sockeon.currentDelay default_reconnect) (seq 0 5)
     = [Double.Finite 1000; Double.Finite 1500; Double.Finite 2250;
        Double.Finite 3375; Double.Finite (10125 # 2)]
  /\ Double.lt (Sockeon.currentDelay default_reconnect 8) (Double.Finite 30000) = true
  /\ (forall k, (9 <= k)%nat ->
        Sockeon.currentDelay default_reconnect k = Double.Finite 30000).
Proof.
  cbv zeta. intros Hf Hd Hm Hsup H0 Hlim.
  split.
  { pose proof (drops_below_limit cs s Hsup) as D. cbv zeta in D.
    rewrite H0 in D. destruct D as (_ & _ & _ & _ & D & _); [exact Hlim|]. exact D. }
  split; [exact scheduleReconnect_delay|].
  split; [intros k qd qf qm; apply currentDelay_exact|].
  split; [intros k; apply currentDelay_step; assumption|].
  split; [intros j k; apply currentDelay_monotone; assumption|].
  split; [intros k; apply currentDelay_bounded; assumption|].
  split.
  { intros k.
    exact (proj1 (DoubleFacts.le_number _ _
                    (currentDelay_bounded (reconnect_policy s) k Hf Hd Hm))). }
  split; [intros p p'; apply delay_monotone_in_power; assumption|].
  split; [vm_compute; reflexivity|].
  split; [vm_compute; reflexivity|].
  exact currentDelay_capped.
Qed.

(** The theorem on the live session with the default policy and five
    lost connections, which is as many as its limit allows; its fifth
    delay, 5062.5, is the formula of the specification, neither 1.5^4 nor
    1000 * 1.5^4 being rounded. *)
Lemma reconnect_delay_sequence_live :
  attempt_delays (emitted (world (drops (repeat lost 5) live)))
  = [Double.Finite 1000; Double.Finite 1500; Double.Finite 2250;
     Double.Finite 3375; Double.Finite (10125 # 2)]
  /\ Sockeon.currentDelay (reconnect_policy live) 4
     = Double.Finite (Qred (spec_delay 1000 (3 # 2) 30000 4)).
Proof.
  assert (Hf : Double.le Double.one (factor (reconnect_policy live)) = true)
    by (vm_compute; reflexivity).
  assert (Hd : Double.lt Double.zero (delay (reconnect_policy live)) = true)
    by (vm_compute; reflexivity).
  assert (Hm : Double.is_NaN (maxDelay (reconnect_policy live)) = false)
    by (vm_compute; reflexivity).
  assert (Hsup : supervised live).
  { repeat split; try reflexivity. exists 0%nat. split; [reflexivity | discriminate]. }
  assert (Hlim : (maxAttempts (reconnect_policy live) <= 0
                  \/ Z.of_nat (List.length (repeat lost 5))
                     <= maxAttempts (reconnect_policy live))%Z)
    by (right; vm_compute; discriminate).
  destruct (reconnect_delay_sequence live (repeat lost 5) Hf Hd Hm Hsup eq_refl Hlim)
    as (H & _ & Hexact & _ & _ & _ & _ & _ & Hex & _).
  split; [rewrite H; exact Hex|].
  assert (E1 : Double.value (delay (reconnect_policy live)) = Double.Finite 1000)
    by (vm_compute; reflexivity).
  assert (E2 : Double.value (factor (reconnect_policy live)) = Double.Finite (3 # 2))
    by (vm_compute; reflexivity).
  assert (E3 : Double.value (maxDelay (reconnect_policy live)) = Double.Finite 30000)
    by (vm_compute; reflexivity).
  assert (R1 : Double.representable (power (3 # 2) 4)).
  { exists 5699868278390784%Z, (-50)%Z.
    split; [vm_compute; reflexivity|]. split; [vm_compute; split; [discriminate | reflexivity]|].
    split; [vm_compute; split; discriminate|]. intros C. vm_compute in C. discriminate C. }
  assert (R2 : Double.representable (1000 * power (3 # 2) 4)).
  { exists 5566277615616000%Z, (-40)%Z.
    split; [vm_compute; reflexivity|]. split; [vm_compute; split; [discriminate | reflexivity]|].
    split; [vm_compute; split; discriminate|]. intros C. vm_compute in C. discriminate C. }
  exact (Hexact 4%nat 1000 (3 # 2) 30000 E1 E2 E3 R1 R2).
Defined.

(** C2, as stated, fails.  With [delay = 0] and [factor = 1e200], which
    are within [factor >= 1] and [delay >= 0], the power overflows at
    counter 2 and [0 * Infinity] is NaN: the third attempt of a session
    with this policy reports the delay NaN and arms its timer with it,
    where [min(0 * factor^2, 30000)] is 0; NaN is neither at or above the
    delay before it nor at or below [maxDelay].  And with [delay = 1000]
    and [factor = 1.1] the delay of counter 3 is the rounded
    1331.0000000000005, above [min(delay * factor^3, maxDelay)] computed
    on the same doubles without rounding. *)
Lemma zero_delay_overflows :
  Double.le Double.one (factor (reconnect overflowing)) = true
  /\ Double.le Double.zero (delay (reconnect overflowing)) = true
  /\ attempt_delays (emitted (world (drops (repeat lost 3) live_overflowing)))
     = [Double.Zero false; Double.Zero false; Double.NaN]
  /\ map after (timers (world (exec (Browser.closed 5 1006 "")
                                 (drops (repeat lost 2) live_overflowing))))
     = [Double.NaN]
  /\ Sockeon.currentDelay (reconnect overflowing) 2 = Double.NaN
  /\ spec_delay 0 (inject_Z (10 ^ 200)) 30000 2 == 0
  /\ Double.le (Sockeon.currentDelay (reconnect overflowing) 1)
       (Sockeon.currentDelay (reconnect overflowing) 2) = false
  /\ Double.le (Sockeon.currentDelay (reconnect overflowing) 2)
       (maxDelay (reconnect overflowing)) = false
  /\ Double.value (factor (reconnect rounding)) = Double.Finite tenth_more
  /\ Sockeon.currentDelay (reconnect rounding) 3
     = Double.Finite (2926899953139713 # 2199023255552)
  /\ spec_delay 1000 tenth_more 30000 3 < (2926899953139713 # 2199023255552).
Proof.
  split; [vm_compute; reflexivity|].
  split; [vm_compute; reflexivity|].
  split; [vm_compute; reflexivity|].
  split; [vm_compute; reflexivity|].
  split; [vm_compute; reflexivity|].
  split; [vm_compute; reflexivity|].
  split; [vm_compute; reflexivity|].
  split; [vm_compute; reflexivity|].
  split; [vm_compute; reflexivity|].
  split; [vm_compute; reflexivity|].
  vm_compute. reflexivity.
Qed.

(** ** The attempt limit *)




(** ** Every run of the system *)

Section Preservation.

Variable I : System -> Prop.

Lemma preserves_ret {A} (a : A) : preserves I (ret a).
Proof. intros s H. exact H. Qed.

Lemma preserves_throw {A} (e : JsError) : preserves I (@throw A e).
Proof. intros s H. exact H. Qed.

Lemma preserves_gets {A} (f : System -> A) : preserves I (gets f).
Proof. intros s H. exact H. Qed.

Lemma preserves_bind {A B} (m : M A) (k : A -> M B) :
  preserves I m -> (forall a, preserves I (k a)) -> preserves I (bind m k).
Proof.
  intros Hm Hk s H. rewrite exec_bind. specialize (Hm s H). unfold exec in Hm.
  destruct (m s) as [[a|e] s']; simpl in Hm; [apply Hk|]; exact Hm.
Qed.

Lemma preserves_try_catch {A} (m : M A) (h : JsError -> M A) :
  preserves I m -> (forall e, preserves I (h e)) -> preserves I (try_catch m h).
Proof.
  intros Hm Hh s H. specialize (Hm s H). unfold exec, try_catch in *.
  destruct (m s) as [[a|e] s']; simpl in *; [|apply Hh]; exact Hm.
Qed.

End Preservation.

Lemma forallb_filter_true {A} (p q : A -> bool) (l : list A) :
  forallb p l = true -> forallb p (filter q l) = true.
Proof.
  induction l as [|a l IH]; simpl; [reflexivity|].
  rewrite andb_true_iff. intros [Ha Hl].
  destruct (q a); simpl; [rewrite Ha|]; auto.
Qed.

Create HintDb well_formed.
#[local] Hint Resolve forallb_filter_true set_add_NoDup set_delete_NoDup NoDup_nil
  : well_formed.

Ltac preserve_modify :=
  let s := fresh "s" in
  intros s (? & ? & ?); unfold well_formed in *; open_system s; js_unfold; cbn in *;
  repeat split; auto with well_formed.

Ltac preserve :=
  repeat match goal with
    | |- preserves _ (bind _ _) => apply preserves_bind; [|intro]
    | |- preserves _ (ret _) => apply preserves_ret
    | |- preserves _ (throw _) => apply preserves_throw
    | |- preserves _ (gets _) => apply preserves_gets
    | |- preserves _ (try_catch _ _) => apply preserves_try_catch; [|intro]
    | |- preserves _ (modify _) => preserve_modify
    | |- preserves _ (match ?x with _ => _ end) => destruct x
    end.

Ltac methods :=
  cbv beta iota zeta delta
    [perform
     Sockeon.connect Sockeon.disconnect Sockeon.handleDisconnect
     Sockeon.handleConnect Sockeon.handleMessage Sockeon.scheduleReconnect
     Sockeon.startHeartbeat Sockeon.clearReconnectTimer Sockeon.clearHeartbeatTimer
     Sockeon.heartbeatTick Sockeon.reconnectTick Sockeon.handleError
     Sockeon.handlePong Sockeon.joinRoom Sockeon.leaveRoom Sockeon.emit
     Sockeon.assign Sockeon.handlers
     Transport.ws_onclose Transport.ws_onopen Transport.ws_onerror
     Transport.ws_onmessage Transport.handleMessage Transport.JSON_parse
     Transport.connect Transport.disconnect Transport.send Transport.sendPing
     Transport.stopHeartbeat Transport.heartbeatTick Transport.assign
     Window.newWebSocket Window.close Window.send Window.call
     Window.set_readyState Window.setTimeout Window.setInterval
     Window.setTimer Window.clearTimer
     Browser.fire Browser.run_callback Browser.opened Browser.message
     Browser.closed Browser.errored
     events_emit onOpen onMessage onClose onError onPong].

Lemma perform_well_formed (a : Action) (now : Z) : preserves well_formed (perform a now).
Proof. destruct a; methods; preserve. Qed.

(** In every state the system can reach from a new controller, the
    heartbeat of the transport class (the only code that compares the
    time since the last liveness signal with [timeout]) is not armed and
    none of its timers is pending; and the room set has no repetition. *)
Lemma reachable_well_formed (o : NormalizedSockeonOptions) (trace : list (Action * Z)) :
  well_formed (run trace (Sockeon.create o)).
Proof.
  assert (H : well_formed (Sockeon.create o)).
  { repeat split. apply NoDup_nil. }
  revert H. generalize (Sockeon.create o).
  induction trace as [|[a now] rest IH]; intros s H; simpl; [exact H|].
  apply IH, perform_well_formed, H.
Qed.

(** ** Heartbeat *)

(** The controller's heartbeat tick changes nothing, whatever the time
    and the last liveness timestamp are. *)
Lemma heartbeatTick_noop (s : System) : Sockeon.heartbeatTick s = (Normal tt, s).
Proof.
  unfold Sockeon.heartbeatTick, Transport.sendPing. js_step.
  destruct (Sockeon.state_is connected s); [|reflexivity].
  destruct (negb (Transport.ws_is OPEN s)); reflexivity.
Qed.

(** C1 at the failing input.  On the live session (heartbeat enabled,
    interval 30000, timeout 5000, last liveness signal at time 0) the
    heartbeat timer of the controller is the interval with handle 1.  Its
    tick at time 30000, and again at 60000, leaves the whole system as it
    was: the state is still [connected], no close was requested on the
    socket, nothing was emitted.  The check exists in the transport class
    only ([WebSocketTransport.startHeartbeat]), which the controller never
    calls, so that in no run of the system is its interval armed; started
    by hand on the same session, its tick at 30000 closes
    the socket with code 1000 and reason "Heartbeat timeout", and the close
    event then takes the controller through the closed handler into
    [reconnecting]. *)
Theorem heartbeat_tick_ignores_timeout :
  heartbeat (options (client live)) = default_heartbeat
  /\ lastPongTime (Transport.this live) = 0%Z
  /\ heartbeatTimer (client live) = Some 1%nat
  /\ Window.pending 1 (world live)
     = Some {| handle := 1; repeating := true; after := Double.Finite 30000;
               callback := HeartbeatCallback |}
  /\ exec (Browser.fire 1 30000) live = live
  /\ exec (Browser.fire 1 60000) (exec (Browser.fire 1 30000) live) = live
  /\ Sockeon.getState live = connected
  /\ wire (world live) = [WsNew 0]
  /\ (forall s, Sockeon.heartbeatTick s = (Normal tt, s))
  /\ (forall o trace, pingInterval (Transport.this (run trace (Sockeon.create o))) = None)
  /\ pingInterval (Transport.this live_with_transport_heartbeat) = Some 2%nat
  /\ wire (world (exec (Browser.fire 2 30000) live_with_transport_heartbeat))
     = [WsNew 0; WsClose 0 1000 "Heartbeat timeout"]
  /\ Sockeon.getState
       (exec (Browser.closed 0 1000 "Heartbeat timeout")
          (exec (Browser.fire 2 30000) live_with_transport_heartbeat))
     = reconnecting.
Proof.
  repeat (split; [vm_compute; reflexivity|]).
  split; [exact heartbeatTick_noop|].
  split; [intros o trace; apply (reachable_well_formed o trace)|].
  repeat (split; [vm_compute; reflexivity|]).
  vm_compute. reflexivity.
Qed.

(** * The event emitter *)

Lemma get_set_same (k : string) (v : list HandlerWrapper) (m : EventEmitter.Events) :
  EventEmitter.get k (EventEmitter.set k v m) = Some v.
Proof.
  induction m as [|[k' v'] m IH]; simpl.
  - rewrite String.eqb_refl. reflexivity.
  - destruct (String.eqb k k') eqn:E; simpl; rewrite ?String.eqb_refl, ?E; auto.
Qed.

Lemma get_set_other (k k' : string) (v : list HandlerWrapper) (m : EventEmitter.Events) :
  k <> k' -> EventEmitter.get k' (EventEmitter.set k v m) = EventEmitter.get k' m.
Proof.
  intros Hne. induction m as [|[k0 v0] m IH]; simpl.
  - destruct (String.eqb k' k) eqn:E; [|reflexivity].
    apply String.eqb_eq in E. congruence.
  - destruct (String.eqb k k0) eqn:E; simpl.
    + apply String.eqb_eq in E. subst k0.
      destruct (String.eqb k' k) eqn:E'; [|reflexivity].
      apply String.eqb_eq in E'. congruence.
    + rewrite IH. reflexivity.
Qed.

Lemma get_delete_same (k : string) (m : EventEmitter.Events) : EventEmitter.get k (EventEmitter.delete k m) = None.
Proof.
  induction m as [|[k' v'] m IH]; simpl; [reflexivity|].
  destruct (String.eqb k k') eqn:E; simpl; [exact IH|]. rewrite E. exact IH.
Qed.

Lemma get_delete_other (k k' : string) (m : EventEmitter.Events) :
  k <> k' -> EventEmitter.get k' (EventEmitter.delete k m) = EventEmitter.get k' m.
Proof.
  intros Hne. induction m as [|[k0 v0] m IH]; simpl; [reflexivity|].
  destruct (String.eqb k k0) eqn:E; simpl.
  - apply String.eqb_eq in E. subst k0.
    destruct (String.eqb k' k) eqn:E'; [|exact IH].
    apply String.eqb_eq in E'. congruence.
  - rewrite IH. reflexivity.
Qed.

Lemma get_none_keys (k : string) (m : EventEmitter.Events) :
  EventEmitter.get k m = None <-> ~ In k (map fst m).
Proof.
  induction m as [|[k' v'] m IH]; simpl.
  - split; [intros _ [] | reflexivity].
  - destruct (String.eqb k k') eqn:E.
    + apply String.eqb_eq in E. subst. split; [discriminate | intros H; exfalso; auto].
    + apply String.eqb_neq in E. rewrite IH. split.
      * intros H [H'|H']; [congruence | auto].
      * intros H H'. apply H. right. exact H'.
Qed.

Lemma keys_set (k : string) (v : list HandlerWrapper) (m : EventEmitter.Events) :
  map fst (EventEmitter.set k v m) = if EventEmitter.has k m then map fst m else map fst m ++ [k].
Proof.
  unfold EventEmitter.has. induction m as [|[k' v'] m IH]; simpl; [reflexivity|].
  destruct (String.eqb k k') eqn:E; simpl.
  - apply String.eqb_eq in E. subst. reflexivity.
  - rewrite IH. destruct (EventEmitter.get k m); reflexivity.
Qed.

Lemma keys_delete (k : string) (m : EventEmitter.Events) :
  map fst (EventEmitter.delete k m) = filter (fun x => negb (String.eqb k x)) (map fst m).
Proof.
  induction m as [|[k' v'] m IH]; simpl; [reflexivity|].
  destruct (String.eqb k k'); simpl; rewrite IH; reflexivity.
Qed.

Lemma ok_set (k : string) (v : list HandlerWrapper) (m : EventEmitter.Events) :
  v <> [] -> emitter_ok m -> emitter_ok (EventEmitter.set k v m).
Proof.
  intros Hv [Hnd Hne]. split.
  - rewrite keys_set. unfold EventEmitter.has. destruct (EventEmitter.get k m) eqn:E; [exact Hnd|].
    apply get_none_keys in E. apply NoDup_app; [exact Hnd | repeat constructor; intros [] |].
    intros a Ha [<- | []]. contradiction.
  - clear Hnd. induction m as [|[k' v'] m IH]; simpl.
    + repeat constructor. exact Hv.
    + inversion Hne; subst. destruct (String.eqb k k'); constructor; auto.
Qed.

Lemma ok_delete (k : string) (m : EventEmitter.Events) : emitter_ok m -> emitter_ok (EventEmitter.delete k m).
Proof.
  intros [Hnd Hne]. split.
  - rewrite keys_delete. apply NoDup_filter. exact Hnd.
  - unfold EventEmitter.delete. apply Forall_forall. intros kv Hin.
    apply filter_In in Hin. destruct Hin as [Hin _].
    rewrite Forall_forall in Hne. apply Hne. exact Hin.
Qed.

Lemma listeners_set_same (k : string) (v : list HandlerWrapper) (m : EventEmitter.Events) :
  EventEmitter.listeners k (EventEmitter.set k v m) = v.
Proof. unfold EventEmitter.listeners. rewrite get_set_same. reflexivity. Qed.

Lemma listeners_set_other (k k' : string) (v : list HandlerWrapper) (m : EventEmitter.Events) :
  k <> k' -> EventEmitter.listeners k' (EventEmitter.set k v m) = EventEmitter.listeners k' m.
Proof. intros H. unfold EventEmitter.listeners. rewrite get_set_other by exact H. reflexivity. Qed.

Lemma listeners_delete_same (k : string) (m : EventEmitter.Events) : EventEmitter.listeners k (EventEmitter.delete k m) = [].
Proof. unfold EventEmitter.listeners. rewrite get_delete_same. reflexivity. Qed.

Lemma listeners_delete_other (k k' : string) (m : EventEmitter.Events) :
  k <> k' -> EventEmitter.listeners k' (EventEmitter.delete k m) = EventEmitter.listeners k' m.
Proof. intros H. unfold EventEmitter.listeners. rewrite get_delete_other by exact H. reflexivity. Qed.

Section Dispatch.

Variable throws : nat -> Payload -> bool.

Lemma call_each_spec (l : list HandlerWrapper) (d : Payload) :
  EventEmitter.call_each throws l d
  = (calls_of l d,
     map handler (filter (fun w => once w && negb (throws (handler w) d)) l)).
Proof.
  induction l as [|w l IH]; simpl; [reflexivity|]. rewrite IH.
  destruct (throws (handler w) d), (once w); reflexivity.
Qed.

Lemma toRemove_includes (l : list HandlerWrapper) (d : Payload) (f : nat) :
  existsb (Nat.eqb f)
    (map handler (filter (fun w => once w && negb (throws (handler w) d)) l))
  = completed_once throws l d f.
Proof.
  unfold completed_once. induction l as [|w l IH]; simpl; [reflexivity|].
  destruct (once w && negb (throws (handler w) d)); simpl.
  - rewrite IH, (Nat.eqb_sym f). reflexivity.
  - exact IH.
Qed.

Lemma toRemove_empty (l : list HandlerWrapper) (d : Payload) :
  (0 <? List.length
          (map handler (filter (fun w => once w && negb (throws (handler w) d)) l)))%nat
  = any_completed throws l d.
Proof.
  unfold any_completed. induction l as [|w l IH]; simpl; [reflexivity|].
  destruct (once w && negb (throws (handler w) d)); simpl; [reflexivity | exact IH].
Qed.

(** [callHandlers] in closed form *)
Lemma callHandlers_spec (e : string) (l : list HandlerWrapper) (d : Payload) (m : EventEmitter.Events) :
  EventEmitter.callHandlers throws e l d m
  = (if any_completed throws l d
     then match kept throws l d with
          | [] => EventEmitter.delete e m
          | _ :: _ => EventEmitter.set e (kept throws l d) m
          end
     else m,
     calls_of l d).
Proof.
  unfold EventEmitter.callHandlers. rewrite call_each_spec, toRemove_empty.
  destruct (any_completed throws l d); [|reflexivity].
  assert (E : filter
                (fun w => negb (existsb (Nat.eqb (handler w))
                   (map handler
                      (filter (fun w0 => once w0 && negb (throws (handler w0) d)) l)))) l
              = kept throws l d).
  { unfold kept. apply filter_ext. intros w. rewrite toRemove_includes. reflexivity. }
  rewrite E. destruct (kept throws l d); reflexivity.
Qed.

Lemma kept_nothing (l : list HandlerWrapper) (d : Payload) :
  any_completed throws l d = false -> kept throws l d = l.
Proof.
  intros H. unfold kept.
  rewrite (filter_ext_in _ (fun _ => true)).
  - clear H. induction l as [|w l IH]; simpl; [reflexivity|]. f_equal. exact IH.
  - intros w _. unfold completed_once.
    destruct (existsb _ l) eqn:E; [|reflexivity].
    apply existsb_exists in E. destruct E as (v & Hv & Hc).
    assert (any_completed throws l d = true); [|congruence].
    apply existsb_exists. exists v. split; [exact Hv|].
    apply andb_true_iff in Hc. tauto.
Qed.

(** The EventEmitter.listeners of any event after a round of [callHandlers] run for
    the key [e] on the list [l] *)
Lemma callHandlers_listeners (e e' : string) (l : list HandlerWrapper) (d : Payload)
    (m : EventEmitter.Events) :
  EventEmitter.listeners e' (fst (EventEmitter.callHandlers throws e l d m))
  = if String.eqb e e' && any_completed throws l d
    then kept throws l d
    else EventEmitter.listeners e' m.
Proof.
  rewrite callHandlers_spec. simpl.
  destruct (any_completed throws l d); [|rewrite andb_false_r; reflexivity].
  rewrite andb_true_r. destruct (String.eqb e e') eqn:E.
  - apply String.eqb_eq in E. subst e'.
    destruct (kept throws l d) eqn:K;
      [apply listeners_delete_same | apply listeners_set_same].
  - apply String.eqb_neq in E.
    destruct (kept throws l d);
      [apply listeners_delete_other | apply listeners_set_other]; exact E.
Qed.

Lemma emit_unfold (e : string) (d : Payload) (m : EventEmitter.Events) :
  let first := EventEmitter.callHandlers throws e (EventEmitter.listeners e m) d m in
  let wild := EventEmitter.listeners "*" (fst first) in
  EventEmitter.emit throws e d m
  = (fst (EventEmitter.callHandlers throws e wild d (fst first)),
     calls_of (EventEmitter.listeners e m) d ++ calls_of wild d).
Proof.
  cbv zeta. unfold EventEmitter.emit.
  destruct (EventEmitter.callHandlers throws e (EventEmitter.listeners e m) d m) as [m1 calls1] eqn:E1.
  assert (C1 : calls1 = calls_of (EventEmitter.listeners e m) d)
    by (rewrite callHandlers_spec in E1; inversion E1; reflexivity).
  simpl fst. destruct (EventEmitter.listeners "*" m1) as [|w ws] eqn:W.
  - simpl. rewrite app_nil_r, C1. reflexivity.
  - simpl Nat.ltb. cbv iota.
    destruct (EventEmitter.callHandlers throws e (w :: ws) d m1) as [m2 calls2] eqn:E2.
    rewrite callHandlers_spec in E2. inversion E2. rewrite C1. reflexivity.
Qed.

End Dispatch.

Section EmitterProperties.

Variable throws : nat -> Payload -> bool.

Lemma emit_calls_in_registration_order_aux (e : string) (d : Payload)
    (m : EventEmitter.Events) :
  e <> "*" ->
  snd (EventEmitter.emit throws e d m)
  = calls_of (EventEmitter.listeners e m) d ++ calls_of (EventEmitter.listeners "*" m) d.
Proof.
  intros Hne. pose proof (emit_unfold throws e d m) as U. cbv zeta in U. rewrite U.
  simpl snd. rewrite callHandlers_listeners.
  apply String.eqb_neq in Hne. rewrite Hne. reflexivity.
Qed.

(** X1.  [emit(event, data)] calls every handler registered for the event,
    in registration order, then every wildcard handler, in registration
    order, each with [data]; which of them throw makes no difference to
    who is called.  Emitting ["*"] itself calls the wildcard handlers and
    then, a second time, those of them that were not unregistered by the
    first round. *)
Theorem emit_calls_in_registration_order (e : string) (d : Payload) (m : EventEmitter.Events) :
  (e <> "*" ->
     snd (EventEmitter.emit throws e d m)
     = calls_of (EventEmitter.listeners e m) d ++ calls_of (EventEmitter.listeners "*" m) d)
  /\ (e = "*" ->
     snd (EventEmitter.emit throws e d m)
     = calls_of (EventEmitter.listeners "*" m) d
       ++ calls_of (kept throws (EventEmitter.listeners "*" m) d) d).
Proof.
  pose proof (emit_unfold throws e d m) as U. cbv zeta in U. rewrite U. simpl snd.
  rewrite callHandlers_listeners. split.
  - intros Hne. apply String.eqb_neq in Hne. rewrite Hne. reflexivity.
  - intros ->. rewrite String.eqb_refl. simpl.
    destruct (any_completed throws (EventEmitter.listeners "*" m) d) eqn:A; [reflexivity|].
    rewrite kept_nothing by exact A. reflexivity.
Qed.

Lemma emit_listeners (e e' : string) (d : Payload) (m : EventEmitter.Events) :
  e <> "*" ->
  EventEmitter.listeners e' (fst (EventEmitter.emit throws e d m))
  = if String.eqb e e'
    then if any_completed throws (EventEmitter.listeners "*" m) d
         then kept throws (EventEmitter.listeners "*" m) d
         else kept throws (EventEmitter.listeners e m) d
    else EventEmitter.listeners e' m.
Proof.
  intros Hne. pose proof (emit_unfold throws e d m) as U. cbv zeta in U. rewrite U.
  simpl fst. rewrite callHandlers_listeners.
  assert (W : EventEmitter.listeners "*"
                (fst (EventEmitter.callHandlers throws e (EventEmitter.listeners e m) d m))
              = EventEmitter.listeners "*" m).
  { rewrite callHandlers_listeners. apply String.eqb_neq in Hne. rewrite Hne. reflexivity. }
  rewrite W, callHandlers_listeners.
  destruct (String.eqb e e') eqn:E; simpl; [|reflexivity].
  destruct (any_completed throws (EventEmitter.listeners "*" m) d); [reflexivity|].
  destruct (any_completed throws (EventEmitter.listeners e m) d) eqn:A; [reflexivity|].
  apply String.eqb_eq in E. subst e'. symmetry. apply kept_nothing. exact A.
Qed.

Lemma kept_In (l : list HandlerWrapper) (d : Payload) (w : HandlerWrapper) :
  In w (kept throws l d) <-> In w l /\ completed_once throws l d (handler w) = false.
Proof.
  unfold kept. rewrite filter_In, negb_true_iff. reflexivity.
Qed.

(** X2.  For an event other than ["*"], when no one-time wildcard handler
    completes: after [emit], the listeners of the event are those whose
    function has no one-time registration that returned; the listeners of
    every other event are untouched.  So a one-time handler that returned
    is gone, together with every other registration of the same function;
    a handler that threw stays registered, one-time or not; and a function
    registered only with [on] stays. *)
Theorem emit_unregisters_completed_once (e : string) (d : Payload) (m : EventEmitter.Events) :
  e <> "*" ->
  any_completed throws (EventEmitter.listeners "*" m) d = false ->
  let before := EventEmitter.listeners e m in
  let m' := fst (EventEmitter.emit throws e d m) in
  EventEmitter.listeners e m' = kept throws before d
  /\ (forall e', e' <> e -> EventEmitter.listeners e' m' = EventEmitter.listeners e' m)
  /\ (forall w, In w before -> once w = true -> throws (handler w) d = false ->
        ~ In (handler w) (map handler (EventEmitter.listeners e m')))
  /\ (forall w, In w before -> throws (handler w) d = true ->
        In w (EventEmitter.listeners e m'))
  /\ (forall w, In w before ->
        (forall v, In v before -> handler v = handler w -> once v = false) ->
        In w (EventEmitter.listeners e m')).
Proof.
  intros Hne Hw. cbv zeta.
  assert (L : EventEmitter.listeners e (fst (EventEmitter.emit throws e d m))
              = kept throws (EventEmitter.listeners e m) d).
  { rewrite emit_listeners by exact Hne. rewrite String.eqb_refl, Hw. reflexivity. }
  split; [exact L|]. split.
  { intros e' He'. rewrite emit_listeners by exact Hne.
    assert (E : String.eqb e e' = false) by (apply String.eqb_neq; congruence).
    rewrite E. reflexivity. }
  rewrite L. split; [|split].
  - intros w Hin Ho Ht Hc. apply in_map_iff in Hc. destruct Hc as (v & Hv & Hk).
    apply kept_In in Hk. destruct Hk as [_ Hk].
    assert (completed_once throws (EventEmitter.listeners e m) d (handler v) = true);
      [|congruence].
    apply existsb_exists. exists w. split; [exact Hin|].
    rewrite Ho, Ht, Hv. simpl. apply Nat.eqb_refl.
  - intros w Hin Ht. apply kept_In. split; [exact Hin|].
    destruct (completed_once _ _ _ _) eqn:C; [|reflexivity].
    apply existsb_exists in C. destruct C as (v & _ & Hc).
    apply andb_true_iff in Hc. destruct Hc as [Hc Heq].
    apply andb_true_iff in Hc. destruct Hc as [_ Hc].
    apply Nat.eqb_eq in Heq. rewrite Heq, Ht in Hc. discriminate.
  - intros w Hin Hall. apply kept_In. split; [exact Hin|].
    destruct (completed_once _ _ _ _) eqn:C; [|reflexivity].
    apply existsb_exists in C. destruct C as (v & Hv & Hc).
    apply andb_true_iff in Hc. destruct Hc as [Hc Heq].
    apply andb_true_iff in Hc. destruct Hc as [Hc _].
    apply Nat.eqb_eq in Heq. rewrite (Hall v Hv Heq) in Hc. discriminate.
Qed.

(** X3.  For an event other than ["*"], when a one-time wildcard handler
    completes: the wildcard list is left as it was, so that handler is
    called again by every later [emit]; and the listeners of the emitted
    event are replaced by what the round kept of the wildcard list.  The
    listeners of the other events are untouched. *)
Theorem emit_with_wildcard_once (e : string) (d : Payload) (m : EventEmitter.Events) :
  e <> "*" ->
  any_completed throws (EventEmitter.listeners "*" m) d = true ->
  let m' := fst (EventEmitter.emit throws e d m) in
  EventEmitter.listeners "*" m' = EventEmitter.listeners "*" m
  /\ EventEmitter.listeners e m' = kept throws (EventEmitter.listeners "*" m) d
  /\ (forall e', e' <> e -> EventEmitter.listeners e' m' = EventEmitter.listeners e' m)
  /\ snd (EventEmitter.emit throws e d m')
     = calls_of (kept throws (EventEmitter.listeners "*" m) d) d
       ++ calls_of (EventEmitter.listeners "*" m) d.
Proof.
  intros Hne Hw. cbv zeta.
  assert (O : forall e', e' <> e ->
            EventEmitter.listeners e' (fst (EventEmitter.emit throws e d m))
            = EventEmitter.listeners e' m).
  { intros e' He'. rewrite emit_listeners by exact Hne.
    assert (E : String.eqb e e' = false) by (apply String.eqb_neq; congruence).
    rewrite E. reflexivity. }
  assert (L : EventEmitter.listeners e (fst (EventEmitter.emit throws e d m))
              = kept throws (EventEmitter.listeners "*" m) d).
  { rewrite emit_listeners by exact Hne. rewrite String.eqb_refl, Hw. reflexivity. }
  split; [apply O; congruence|]. split; [exact L|]. split; [exact O|].
  rewrite (emit_calls_in_registration_order_aux e d _ Hne).
  rewrite L, (O "*") by congruence. reflexivity.
Qed.

End EmitterProperties.

(** The theorem X2 on the sample emitter: handler 2, one-time, returns and
    is unregistered; handler 1 throws and stays. *)
Lemma emit_unregisters_completed_once_sample :
  EventEmitter.listeners "chat"
    (fst (EventEmitter.emit first_throws "chat" (PData JNull) sample_emitter))
  = [{| handler := 1; once := false |}].
Proof.
  assert (Hne : "chat" <> "*") by discriminate.
  destruct (emit_unregisters_completed_once first_throws "chat" (PData JNull)
              sample_emitter Hne eq_refl) as (H & _).
  rewrite H. reflexivity.
Defined.

(** The theorem X3 on the sample emitter with a one-time wildcard handler:
    the wildcard list keeps handler 3, and ["chat"] now holds handler 4
    in place of handler 1. *)
Lemma emit_with_wildcard_once_sample :
  EventEmitter.listeners "*"
    (fst (EventEmitter.emit first_throws "chat" (PData JNull) sample_emitter_wild_once))
  = [{| handler := 3; once := true |}; {| handler := 4; once := false |}]
  /\ EventEmitter.listeners "chat"
       (fst (EventEmitter.emit first_throws "chat" (PData JNull) sample_emitter_wild_once))
     = [{| handler := 4; once := false |}].
Proof.
  assert (Hne : "chat" <> "*") by discriminate.
  destruct (emit_with_wildcard_once first_throws "chat" (PData JNull)
              sample_emitter_wild_once Hne eq_refl) as (H1 & H2 & _).
  rewrite H1, H2. split; reflexivity.
Defined.

Lemma emitter_step_ok (throws : nat -> Payload -> bool) (m : EventEmitter.Events)
    (c : EmitterCall) :
  emitter_ok m -> emitter_ok (emitter_step throws m c).
Proof.
  intros Hok.
  assert (Hreg : forall b e h, emitter_ok (snd (EventEmitter.register b e h m))).
  { intros b e [f|]; simpl; [|exact Hok]. apply ok_set; [|exact Hok].
    destruct (EventEmitter.listeners e m); discriminate. }
  assert (Hcall : forall e l d m0, emitter_ok m0 ->
            emitter_ok (fst (EventEmitter.callHandlers throws e l d m0))).
  { intros e l d m0 H0. rewrite callHandlers_spec. simpl.
    destruct (any_completed throws l d); [|exact H0].
    destruct (kept throws l d) eqn:K; [apply ok_delete; exact H0|].
    apply ok_set; [discriminate | exact H0]. }
  destruct c as [e h | e h | e h | e d |]; simpl.
  - apply Hreg.
  - apply Hreg.
  - unfold EventEmitter.off. destruct (negb (EventEmitter.has e m)); [exact Hok|].
    destruct h as [f|]; [|apply ok_delete; exact Hok].
    destruct (filter _ (EventEmitter.listeners e m)) eqn:F; simpl;
      [apply ok_delete | apply ok_set; [discriminate|]]; exact Hok.
  - pose proof (emit_unfold throws e d m) as U. cbv zeta in U. rewrite U. simpl fst.
    apply Hcall, Hcall, Hok.
  - split; constructor.
Qed.

Lemma ok_listeners (m : EventEmitter.Events) (e : string) :
  emitter_ok m -> (EventEmitter.listeners e m = [] <-> ~ In e (map fst m)).
Proof.
  intros [_ Hne]. rewrite <- get_none_keys. unfold EventEmitter.listeners.
  destruct (EventEmitter.get e m) as [l|] eqn:G; [|tauto].
  split; [|discriminate]. intros ->. exfalso.
  induction m as [|[k v] m IH]; simpl in G; [discriminate|].
  inversion Hne; subst. destruct (String.eqb e k).
  - inversion G; subst. simpl in *. congruence.
  - apply IH; assumption.
Qed.

(** X4.  Whatever sequence of [on], [once], [off], [emit] and
    [removeAllListeners] calls a new emitter has seen, with whatever
    handlers throwing: [eventNames()] lists no name twice, and an event
    has listeners exactly when it is among the event names, that is, no
    name is kept for an event whose handlers are all gone. *)
Theorem emitter_names_are_events_with_listeners
    (throws : nat -> Payload -> bool) (calls : list EmitterCall) :
  let m := emitter_after throws calls in
  NoDup (EventEmitter.eventNames m)
  /\ (forall e, EventEmitter.hasListeners e m = true <-> In e (EventEmitter.eventNames m))
  /\ (forall e, EventEmitter.listenerCount e m = 0%nat <-> ~ In e (EventEmitter.eventNames m)).
Proof.
  cbv zeta.
  assert (Hok : emitter_ok (emitter_after throws calls)).
  { unfold emitter_after.
    assert (H0 : emitter_ok []) by (split; constructor).
    revert H0. generalize (@nil (string * list HandlerWrapper)).
    induction calls as [|c calls IH]; intros m H0; simpl; [exact H0|].
    apply IH, emitter_step_ok, H0. }
  split; [apply Hok|].
  assert (Hcount : forall e,
            EventEmitter.listenerCount e (emitter_after throws calls) = 0%nat
            <-> ~ In e (EventEmitter.eventNames (emitter_after throws calls))).
  { intros e. unfold EventEmitter.listenerCount, EventEmitter.eventNames.
    rewrite <- (ok_listeners _ e Hok). apply List.length_zero_iff_nil. }
  split; [|exact Hcount].
  intros e. unfold EventEmitter.hasListeners. rewrite Nat.ltb_lt.
  specialize (Hcount e).
  destruct (in_dec string_dec e (EventEmitter.eventNames (emitter_after throws calls)))
    as [Hin | Hout].
  - split; [intros _; exact Hin|]. intros _.
    destruct (EventEmitter.listenerCount e (emitter_after throws calls)); [|lia].
    exfalso. apply Hcount; [reflexivity | exact Hin].
  - split; [|contradiction]. intros Hpos. apply Hcount in Hout. lia.
Qed.

Lemma off_listeners (e e' : string) (h : option nat) (m : EventEmitter.Events) :
  EventEmitter.listeners e' (EventEmitter.off e h m)
  = if String.eqb e e'
    then match h with
         | Some f => filter (fun w => negb (handler w =? f)%nat) (EventEmitter.listeners e m)
         | None => []
         end
    else EventEmitter.listeners e' m.
Proof.
  unfold EventEmitter.off, EventEmitter.has.
  destruct (EventEmitter.get e m) as [l|] eqn:G; simpl.
  - assert (L : EventEmitter.listeners e m = l)
      by (unfold EventEmitter.listeners; rewrite G; reflexivity).
    rewrite L. destruct (String.eqb e e') eqn:E.
    + apply String.eqb_eq in E. subst e'. destruct h as [f|].
      * destruct (filter _ l) eqn:F; simpl;
          [apply listeners_delete_same | apply listeners_set_same].
      * apply listeners_delete_same.
    + apply String.eqb_neq in E. destruct h as [f|].
      * destruct (filter _ l); simpl;
          [apply listeners_delete_other | apply listeners_set_other]; exact E.
      * apply listeners_delete_other. exact E.
  - destruct (String.eqb e e') eqn:E; [|reflexivity].
    apply String.eqb_eq in E. subst e'. unfold EventEmitter.listeners. rewrite G.
    destruct h; reflexivity.
Qed.

(** X5.  [off(event, handler)] removes every registration of that
    function for the event, one-time or not, and keeps the others in
    order; [off(event)] removes all of the event's handlers; neither
    touches another event, and both leave the emitter as it is when the
    event has no entry.  After [off(event, handler)] an [emit] of the event
    calls that function only if it is also registered as a wildcard
    handler. *)
Theorem off_unregisters (throws : nat -> Payload -> bool)
    (e : string) (f : nat) (d : Payload) (m : EventEmitter.Events) :
  EventEmitter.listeners e (EventEmitter.off e (Some f) m)
  = filter (fun w => negb (handler w =? f)%nat) (EventEmitter.listeners e m)
  /\ EventEmitter.listeners e (EventEmitter.off e None m) = []
  /\ (forall h e', e' <> e ->
        EventEmitter.listeners e' (EventEmitter.off e h m) = EventEmitter.listeners e' m)
  /\ (forall h, EventEmitter.has e m = false -> EventEmitter.off e h m = m)
  /\ (In f (map callee (snd (EventEmitter.emit throws e d (EventEmitter.off e (Some f) m)))) ->
        e <> "*" /\ In f (map handler (EventEmitter.listeners "*" m))).
Proof.
  assert (Hsame : EventEmitter.listeners e (EventEmitter.off e (Some f) m)
                  = filter (fun w => negb (handler w =? f)%nat) (EventEmitter.listeners e m))
    by (rewrite off_listeners, String.eqb_refl; reflexivity).
  assert (Hother : forall h e', e' <> e ->
            EventEmitter.listeners e' (EventEmitter.off e h m) = EventEmitter.listeners e' m).
  { intros h e' Hne. rewrite off_listeners.
    assert (E : String.eqb e e' = false) by (apply String.eqb_neq; congruence).
    rewrite E. reflexivity. }
  assert (Hnof : forall l, ~ In f (map callee
                    (calls_of (filter (fun w => negb (handler w =? f)%nat) l) d))).
  { intros l Hin. unfold calls_of in Hin. rewrite map_map in Hin. simpl in Hin.
    apply in_map_iff in Hin. destruct Hin as (w & Hw & Hin).
    apply filter_In in Hin. destruct Hin as [_ Hin].
    rewrite Hw, Nat.eqb_refl in Hin. discriminate. }
  split; [exact Hsame|].
  split; [rewrite off_listeners, String.eqb_refl; reflexivity|].
  split; [exact Hother|].
  split; [intros h Hhas; unfold EventEmitter.off; rewrite Hhas; reflexivity|].
  intros Hin. destruct (string_dec e "*") as [-> | Hne].
  - exfalso.
    pose proof (emit_unfold throws "*" d (EventEmitter.off "*" (Some f) m)) as U.
    cbv zeta in U. rewrite U in Hin. simpl snd in Hin.
    rewrite callHandlers_listeners, String.eqb_refl, Hsame in Hin. simpl andb in Hin.
    rewrite map_app in Hin. apply in_app_or in Hin. destruct Hin as [Hin | Hin].
    + exact (Hnof _ Hin).
    + set (l := filter (fun w => negb (handler w =? f)%nat) (EventEmitter.listeners "*" m)) in *.
      assert (Hsub : In f (map callee (calls_of l d))).
      { destruct (any_completed throws l d); [|exact Hin].
        unfold calls_of in *. rewrite map_map in *. simpl in *.
        apply in_map_iff in Hin. destruct Hin as (w & Hw & Hk).
        apply in_map_iff. exists w. split; [exact Hw|].
        unfold kept in Hk. apply filter_In in Hk. tauto. }
      exact (Hnof _ Hsub).
  - split; [exact Hne|].
    rewrite (emit_calls_in_registration_order_aux throws e d _ Hne) in Hin.
    rewrite Hsame, (Hother (Some f) "*") in Hin by congruence.
    rewrite map_app in Hin. apply in_app_or in Hin. destruct Hin as [Hin | Hin].
    + exfalso. exact (Hnof _ Hin).
    + unfold calls_of in Hin. rewrite map_map in Hin. exact Hin.
Qed.

(** X6.  [on] and [once] with a function append one wrapper to the event's
    list, so the count grows by one and other events are untouched; the
    next [emit] of the event (other than ["*"]) calls the new handler after
    the handlers that were already registered for the event and before the
    wildcard handlers.  With a value that is not a function both throw and
    leave the emitter unchanged. *)
Theorem subscribe_then_emit (throws : nat -> Payload -> bool) (is_once : bool)
    (e : string) (f : nat) (d : Payload) (m : EventEmitter.Events) :
  let m' := snd (subscribe is_once e (Function f) m) in
  fst (subscribe is_once e (Function f) m) = Normal tt
  /\ EventEmitter.listeners e m'
     = EventEmitter.listeners e m ++ [{| handler := f; once := is_once |}]
  /\ EventEmitter.listenerCount e m' = S (EventEmitter.listenerCount e m)
  /\ (forall e', e' <> e -> EventEmitter.listeners e' m' = EventEmitter.listeners e' m)
  /\ (e <> "*" ->
      snd (EventEmitter.emit throws e d m')
      = calls_of (EventEmitter.listeners e m) d
        ++ [{| callee := f; argument := d |}]
        ++ calls_of (EventEmitter.listeners "*" m) d)
  /\ subscribe is_once e NotAFunction m
     = (Throw (Error "Event handler must be a function"), m).
Proof.
  cbv zeta.
  assert (E : subscribe is_once e (Function f) m
              = (Normal tt,
                 EventEmitter.set e
                   (EventEmitter.listeners e m ++ [{| handler := f; once := is_once |}]) m))
    by (destruct is_once; reflexivity).
  rewrite E. simpl fst. simpl snd.
  split; [reflexivity|].
  split; [apply listeners_set_same|].
  split.
  { unfold EventEmitter.listenerCount. rewrite listeners_set_same, List.length_app.
    simpl. lia. }
  split; [intros e' Hne; apply listeners_set_other; congruence|].
  split; [|destruct is_once; reflexivity].
  intros Hne. rewrite (emit_calls_in_registration_order_aux throws e d _ Hne).
  rewrite listeners_set_same, listeners_set_other by exact Hne.
  unfold calls_of. rewrite map_app, <- app_assoc. reflexivity.
Qed.

(** * Options *)

(** X7.  [normalizeOptions] never yields an empty namespace (an empty or
    missing one becomes ["/"]); a configuration spelled out in full comes
    back unchanged, so normalising twice is normalising once; a boolean
    [reconnect] or [heartbeat] only sets [enabled] and keeps the default
    numbers; an object without [enabled] leaves the feature enabled; and
    missing options give the defaults. *)
Theorem normalizeOptions_round_trip (o : SockeonOptions) :
  let n := normalizeOptions o in
  namespace n <> ""
  /\ normalizeOptions (spelled_out n) = n
  /\ (forall n', namespace n' <> "" -> normalizeOptions (spelled_out n') = n')
  /\ (forall b, o_reconnect o = Some (Flag b) ->
        reconnect n = {| reconnect_enabled := b; maxAttempts := 5;
                         delay := Double.Finite 1000;
                         maxDelay := Double.Finite 30000;
                         factor := Double.Finite (3 # 2) |})
  /\ (forall b, o_heartbeat o = Some (Flag b) ->
        heartbeat n = {| heartbeat_enabled := b; interval := 30000; timeout := 5000 |})
  /\ (forall p, o_reconnect o = Some (Fields p) -> p_reconnect_enabled p = None ->
        reconnect_enabled (reconnect n) = true)
  /\ (forall p, o_heartbeat o = Some (Fields p) -> p_heartbeat_enabled p = None ->
        heartbeat_enabled (heartbeat n) = true)
  /\ (o_namespace o = None -> o_reconnect o = None -> o_heartbeat o = None ->
        n = default_options).
Proof.
  cbv zeta.
  assert (R : forall n', namespace n' <> "" -> normalizeOptions (spelled_out n') = n').
  { intros [ns [] []] Hns. simpl in Hns. unfold normalizeOptions, spelled_out. simpl.
    apply String.eqb_neq in Hns. rewrite Hns. reflexivity. }
  assert (N : namespace (normalizeOptions o) <> "").
  { unfold normalizeOptions. simpl. destruct (o_namespace o) as [ns|]; [|discriminate].
    destruct (String.eqb ns "") eqn:E; [discriminate|]. apply String.eqb_neq. exact E. }
  split; [exact N|]. split; [apply R, N|]. split; [exact R|].
  unfold normalizeOptions. simpl.
  split; [intros b ->; reflexivity|].
  split; [intros b ->; reflexivity|].
  split; [intros p -> Hp; simpl; rewrite Hp; reflexivity|].
  split; [intros p -> Hp; simpl; rewrite Hp; reflexivity|].
  intros -> -> ->. reflexivity.
Qed.

(** * The lifecycle fields in every run *)

Ltac preserve_frame :=
  repeat match goal with
    | |- preserves _ (bind _ _) => apply preserves_bind; [|intro]
    | |- preserves _ (ret _) => apply preserves_ret
    | |- preserves _ (throw _) => apply preserves_throw
    | |- preserves _ (gets _) => apply preserves_gets
    | |- preserves _ (try_catch _ _) => apply preserves_try_catch; [|intro]
    | |- preserves _ (modify _) =>
        let s := fresh "s" in let H := fresh "H" in
        intros s H; unfold lifecycle in *; open_system s; js_unfold; cbn in *; exact H
    | |- preserves _ (match ?x with _ => _ end) => destruct x
    end.

(** Sending, inbound frames, socket errors and timers leave the lifecycle
    fields alone. *)
Lemma perform_frame (a : Action) (now : Z) (s : System) :
  match a with
  | CallEmit _ _ | SocketMessage _ _ | SocketErrored _ | TimerFired _ => True
  | _ => False
  end ->
  lifecycle (exec (perform a now) s) = lifecycle s.
Proof.
  intros Ha.
  assert (P : preserves (fun t => lifecycle t = lifecycle s) (perform a now)).
  { destruct a; try contradiction; methods; preserve_frame. }
  apply P. reflexivity.
Qed.

Lemma lifecycle_ok_iff (s : System) : lifecycle_ok s <-> lifecycle_ok_at (lifecycle s).
Proof. reflexivity. Qed.

Lemma connect_lifecycle (s : System) :
  lifecycle (exec Sockeon.connect s)
  = (options (client s),
     match state (client s) with
     | connected => connected
     | connecting => connecting
     | _ => connecting
     end,
     reconnectAttempts (client s), connectedAt (client s), rooms (client s)).
Proof.
  unfold lifecycle. open_system s. js_unfold.
  destruct st, tws; cbn; try reflexivity;
    destruct (find _ sks) as [[? []]|]; reflexivity.
Qed.

Lemma disconnect_lifecycle (s : System) :
  lifecycle (exec Sockeon.disconnect s)
  = (options (client s),
     match state (client s) with
     | disconnected => disconnected
     | _ => closing
     end,
     reconnectAttempts (client s), connectedAt (client s), rooms (client s)).
Proof.
  unfold lifecycle. open_system s. js_unfold.
  destruct rtimer, htimer, st, tping, tpong, tws; cbn;
    try (destruct (find _ sks) as [[? []]|]; cbn); reflexivity.
Qed.

Lemma joinRoom_lifecycle (room : string) (s : System) :
  lifecycle (exec (Sockeon.joinRoom room) s)
  = (options (client s), state (client s), reconnectAttempts (client s),
     connectedAt (client s),
     if Sockeon.state_is connected s then Sockeon.set_add room (rooms (client s))
     else rooms (client s)).
Proof.
  unfold lifecycle. open_system s. js_unfold.
  change (Js.event_name_test "join_room") with true.
  destruct st, tws; cbn; try reflexivity;
    destruct (find _ sks) as [[? []]|]; reflexivity.
Qed.

Lemma leaveRoom_lifecycle (room : string) (s : System) :
  lifecycle (exec (Sockeon.leaveRoom room) s)
  = (options (client s), state (client s), reconnectAttempts (client s),
     connectedAt (client s),
     if Sockeon.state_is connected s then Sockeon.set_delete room (rooms (client s))
     else rooms (client s)).
Proof.
  unfold lifecycle. open_system s. js_unfold.
  change (Js.event_name_test "leave_room") with true.
  destruct st, tws; cbn; try reflexivity;
    destruct (find _ sks) as [[? []]|]; reflexivity.
Qed.

Lemma opened_lifecycle (id : nat) (now : Z) (s : System) :
  lifecycle (exec (Browser.opened id now) s)
  = if ReadyState_eqb (Window.readyState id (world s)) CONNECTING
    then (options (client s), connected, 0%nat, Some now, rooms (client s))
    else lifecycle s.
Proof.
  unfold lifecycle. open_system s. js_unfold.
  destruct (find _ sks) as [[? []]|]; cbn; try reflexivity;
    destruct rtimer, htimer, (heartbeat_enabled (heartbeat o)); reflexivity.
Qed.

Lemma stopHeartbeat_lifecycle (s : System) :
  lifecycle (exec Transport.stopHeartbeat s) = lifecycle s.
Proof. unfold lifecycle. open_system s. js_unfold. destruct tping, tpong; reflexivity. Qed.

Lemma torn_down_lifecycle (code : Z) (reason : string) (s : System) :
  lifecycle (torn_down code reason s)
  = (options (client s), disconnected, reconnectAttempts (client s), None, []).
Proof.
  unfold lifecycle, torn_down, delivered. open_system s. js_unfold.
  destruct htimer, st; reflexivity.
Qed.

Lemma attempt_scheduled_lifecycle (t : System) :
  lifecycle (attempt_scheduled t)
  = (options (client t), reconnecting, S (reconnectAttempts (client t)),
     connectedAt (client t), rooms (client t)).
Proof. unfold lifecycle, attempt_scheduled. open_system t. reflexivity. Qed.

Lemma closed_lifecycle (id : nat) (code : Z) (reason : string) (s : System) :
  lifecycle (exec (Browser.closed id code reason) s)
  = if ReadyState_eqb (Window.readyState id (world s)) CLOSED then lifecycle s
    else if wants_reconnect s
              && negb (limit_reached (reconnect_policy s) (reconnectAttempts (client s)))
         then (options (client s), reconnecting, S (reconnectAttempts (client s)), None, [])
         else (options (client s), disconnected, reconnectAttempts (client s), None, []).
Proof.
  unfold exec. rewrite closed_unfold.
  destruct (ReadyState_eqb (Window.readyState id (world s)) CLOSED); [reflexivity|].
  unfold Transport.ws_onclose. js_step. rewrite stopHeartbeat_total.
  cbv beta iota delta [onClose Sockeon.handlers].
  rewrite handleDisconnect_spec.
  set (t := exec Transport.stopHeartbeat (closed_socket id s)).
  assert (Lt : lifecycle t = lifecycle s).
  { unfold t. rewrite stopHeartbeat_lifecycle. unfold lifecycle, closed_socket.
    open_system s. reflexivity. }
  assert (M : manualDisconnect (client t) = manualDisconnect (client s)).
  { pose proof (stopHeartbeat_fields (closed_socket id s)) as S. cbv zeta in S.
    destruct S as ((_ & S2 & _) & _). fold t in S2. rewrite S2.
    unfold closed_socket. open_system s. reflexivity. }
  unfold lifecycle in Lt. injection Lt as Lo Ls La Lc Lr.
  assert (W : wants_reconnect t = wants_reconnect s)
    by (unfold wants_reconnect, reconnect_policy; rewrite M, Lo; reflexivity).
  pose proof (torn_down_lifecycle code reason t) as T.
  rewrite W. destruct (wants_reconnect s); simpl andb.
  - rewrite scheduleReconnect_spec. cbn [snd].
    assert (P : reconnect_policy (torn_down code reason t) = reconnect_policy s).
    { unfold reconnect_policy. unfold lifecycle in T. injection T as To _ _ _ _.
      rewrite To, Lo. reflexivity. }
    assert (A : reconnectAttempts (client (torn_down code reason t))
                = reconnectAttempts (client s)).
    { unfold lifecycle in T. injection T as _ _ Ta _ _. rewrite Ta, La. reflexivity. }
    rewrite P, A. unfold lifecycle in T. injection T as To Ts Ta Tc Tr.
    destruct (limit_reached _ _); simpl negb; cbv iota.
    + unfold attempts_exhausted, delivered, lifecycle, on_world. simpl.
      rewrite To, Ts, Ta, Tc, Tr, Lo, La. reflexivity.
    + rewrite attempt_scheduled_lifecycle, To, Ta, Tc, Tr, Lo, La. reflexivity.
  - simpl. rewrite T, Lo, La. reflexivity.
Qed.

Lemma perform_lifecycle_ok (a : Action) (now : Z) (s : System) :
  lifecycle_ok s -> lifecycle_ok (exec (perform a now) s).
Proof.
  rewrite !lifecycle_ok_iff. intros H.
  destruct a as [ | | e d | room | room | id | id payload | id code reason | id | h].
  - simpl perform. rewrite connect_lifecycle. unfold lifecycle, lifecycle_ok_at in *.
    destruct (state (client s)); tauto.
  - simpl perform. rewrite disconnect_lifecycle. unfold lifecycle, lifecycle_ok_at in *.
    destruct (state (client s)); tauto.
  - rewrite perform_frame; [exact H | exact I].
  - simpl perform. rewrite joinRoom_lifecycle.
    unfold lifecycle, lifecycle_ok_at, Sockeon.state_is, Sockeon.this in *.
    destruct (state (client s)); simpl; tauto.
  - simpl perform. rewrite leaveRoom_lifecycle.
    unfold lifecycle, lifecycle_ok_at, Sockeon.state_is, Sockeon.this in *.
    destruct (state (client s)); simpl; tauto.
  - simpl perform. rewrite opened_lifecycle.
    destruct (ReadyState_eqb _ CONNECTING); [|exact H].
    unfold lifecycle, lifecycle_ok_at in *. split; [split; [reflexivity | discriminate]|].
    intros Hmax. simpl. lia.
  - rewrite perform_frame; [exact H | exact I].
  - simpl perform. rewrite closed_lifecycle.
    destruct (ReadyState_eqb _ CLOSED); [exact H|].
    unfold lifecycle, lifecycle_ok_at in *. destruct H as [_ Hmax].
    destruct (wants_reconnect s); simpl andb.
    + destruct (limit_reached _ _) eqn:L; simpl negb; cbv iota.
      * split; [split; reflexivity | exact Hmax].
      * split; [repeat split; lia|]. intros Hpos.
        apply limit_reached_false in L. unfold reconnect_policy in L. lia.
    + split; [split; reflexivity | exact Hmax].
  - rewrite perform_frame; [exact H | exact I].
  - rewrite perform_frame; [exact H | exact I].
Qed.

Lemma perform_options (a : Action) (now : Z) (s : System) :
  options (client (exec (perform a now) s)) = options (client s).
Proof.
  change (fst (fst (fst (fst (lifecycle (exec (perform a now) s)))))
          = fst (fst (fst (fst (lifecycle s))))).
  destruct a as [ | | e d | room | room | id | id payload | id code reason | id | h].
  - simpl perform. rewrite connect_lifecycle. reflexivity.
  - simpl perform. rewrite disconnect_lifecycle. reflexivity.
  - rewrite (perform_frame (CallEmit e d) now s I). reflexivity.
  - simpl perform. rewrite joinRoom_lifecycle. reflexivity.
  - simpl perform. rewrite leaveRoom_lifecycle. reflexivity.
  - simpl perform. rewrite opened_lifecycle.
    destruct (ReadyState_eqb _ CONNECTING); reflexivity.
  - rewrite (perform_frame (SocketMessage id payload) now s I). reflexivity.
  - simpl perform. rewrite closed_lifecycle.
    destruct (ReadyState_eqb _ CLOSED); [reflexivity|].
    destruct (wants_reconnect s && _); reflexivity.
  - rewrite (perform_frame (SocketErrored id) now s I). reflexivity.
  - rewrite (perform_frame (TimerFired h) now s I). reflexivity.
Qed.

(** X8.  In every state a controller can reach from its creation, through
    any calls, socket events and timers: when the state is [connected],
    [reconnectAttempts] is 0 and [connectedAt] is set; when it is
    [disconnected] or [reconnecting], [getRooms()] is empty and
    [connectedAt] is null; [isReconnecting] implies at least one attempt
    was counted; and with a limit ([maxAttempts > 0]) [reconnectAttempts]
    never exceeds it. *)
Theorem lifecycle_invariant (o : NormalizedSockeonOptions) (trace : list (Action * Z)) :
  let s := run trace (Sockeon.create o) in
  let info := getConnectionInfo s in
  (ci_state info = connected ->
     ci_reconnectAttempts info = 0%nat /\ ci_connectedAt info <> None)
  /\ (ci_state info = disconnected \/ ci_state info = reconnecting ->
     Sockeon.getRooms s = [] /\ ci_connectedAt info = None)
  /\ (ci_isReconnecting info = true -> (1 <= ci_reconnectAttempts info)%nat)
  /\ ((0 < maxAttempts (reconnect o))%Z ->
      (Z.of_nat (ci_reconnectAttempts info) <= maxAttempts (reconnect o))%Z)
  /\ options (client s) = o.
Proof.
  cbv zeta.
  assert (H : lifecycle_ok (run trace (Sockeon.create o))
              /\ options (client (run trace (Sockeon.create o))) = o).
  { assert (H0 : lifecycle_ok (Sockeon.create o) /\ options (client (Sockeon.create o)) = o).
    { split; [|reflexivity]. split; [split; reflexivity|]. simpl. lia. }
    revert H0. generalize (Sockeon.create o).
    induction trace as [|[a now] rest IH]; intros s H0; simpl; [exact H0|].
    apply IH. destruct H0 as [H0 Ho]. split; [apply perform_lifecycle_ok, H0|].
    rewrite perform_options. exact Ho. }
  destruct H as [[Hst Hmax] Ho].
  unfold getConnectionInfo, Sockeon.getRooms, Sockeon.this. simpl.
  rewrite Ho in Hmax.
  destruct (state (client (run trace (Sockeon.create o)))); simpl;
    repeat split; try tauto; try discriminate; try (intros [|]; discriminate);
    try (intros; tauto);
    try match goal with H : _ \/ _ |- _ => destruct H; discriminate end.
Qed.

(** * Timers in every run *)

Lemma Forall_handle_filter (q : Timer -> bool) (n : nat) (l : list Timer) :
  Forall (fun t => (handle t < n)%nat) l ->
  Forall (fun t => (handle t < n)%nat) (filter q l).
Proof.
  intros H. apply Forall_forall. intros t Hin. apply filter_In in Hin.
  rewrite Forall_forall in H. apply H. tauto.
Qed.

Lemma Forall_handle_weaken (n : nat) (l : list Timer) :
  Forall (fun t => (handle t < n)%nat) l ->
  Forall (fun t => (handle t < S n)%nat) l.
Proof. apply Forall_impl. intros t Ht. lia. Qed.

Lemma NoDup_handle_filter (q : Timer -> bool) (l : list Timer) :
  NoDup (map handle l) -> NoDup (map handle (filter q l)).
Proof.
  induction l as [|t l IH]; simpl; [auto|]. intros H. inversion H; subst.
  destruct (q t); simpl; [|auto]. constructor; [|auto].
  intros Hin. apply in_map_iff in Hin. destruct Hin as (u & Hu & Hin).
  apply filter_In in Hin. destruct Hin as [Hin _].
  match goal with H : ~ In _ _ |- _ => apply H end.
  apply in_map_iff. exists u. tauto.
Qed.

Lemma NoDup_handle_fresh (n : nat) (l : list Timer) :
  Forall (fun u => (handle u < n)%nat) l ->
  NoDup (map handle l) -> NoDup (n :: map handle l).
Proof.
  intros Hlt Hnd. constructor; [|exact Hnd].
  intros Hin. apply in_map_iff in Hin. destruct Hin as (u & Hu & Hin).
  rewrite Forall_forall in Hlt. specialize (Hlt u Hin). lia.
Qed.

Lemma NoDup_handle_eq (l : list Timer) (t u : Timer) :
  NoDup (map handle l) -> In t l -> In u l -> handle t = handle u -> t = u.
Proof.
  induction l as [|a l IH]; simpl; [contradiction|].
  intros H [<- | Ht] [<- | Hu] E; inversion H; subst; auto.
  - exfalso. match goal with H : ~ In _ _ |- _ => apply H end.
    rewrite E. apply in_map. exact Hu.
  - exfalso. match goal with H : ~ In _ _ |- _ => apply H end.
    rewrite <- E. apply in_map. exact Ht.
Qed.

Ltac timers_side :=
  try solve
    [ assumption
    | reflexivity
    | apply Forall_handle_filter; assumption
    | apply Forall_handle_weaken; assumption
    | apply NoDup_handle_filter; assumption
    | intros; discriminate
    | eauto
    | match goal with
      | |- forall t, In t (filter _ _) -> _ =>
          let t := fresh "t" in let Hin := fresh "Hin" in
          intros t Hin; apply filter_In in Hin; destruct Hin; eauto
      | H : In ?t (filter _ _) |- _ =>
          apply filter_In in H; destruct H;
          match goal with
          | T : forall t, In t _ -> _ -> _ /\ _, H1 : In t _, H2 : _ = true |- _ =>
              apply (T t H1 H2)
          end
      | T : forall t, In t _ -> _ -> _ /\ _, H1 : In ?t _, H2 : _ = true |- _ =>
          apply (T t H1 H2)
      end ].

Ltac open_timers_ok :=
  let s := fresh "s" in
  intros s (T1 & T2 & T3 & T4 & T5 & T6 & T7 & T8 & T9);
  unfold timers_ok in *; open_system s; js_unfold; cbn in *.

Ltac split_timers_ok :=
  split; [|split; [|split; [|split; [|split; [|split; [|split; [|split]]]]]]].

Lemma clearHeartbeatTimer_timers_ok : preserves timers_ok Sockeon.clearHeartbeatTimer.
Proof.
  open_timers_ok. destruct htimer as [h|]; cbn in *.
  - split_timers_ok; timers_side.
    intros t Hin Hhb. apply filter_In in Hin. destruct Hin as [Hin Hne].
    specialize (T5 t Hin Hhb). inversion T5; subst.
    rewrite Nat.eqb_refl in Hne. discriminate.
  - split_timers_ok; timers_side.
Qed.

Lemma heartbeat_timer_cleared (h : nat) (l : list Timer) (t : Timer) :
  (forall t, In t l -> is_heartbeat_timer t = true -> Some h = Some (handle t)) ->
  In t (filter (fun t => negb (handle t =? h)%nat) l) ->
  is_heartbeat_timer t = true -> False.
Proof.
  intros T5 Hin Hhb. apply filter_In in Hin. destruct Hin as [Hin Hne].
  specialize (T5 t Hin Hhb). inversion T5; subst.
  rewrite Nat.eqb_refl in Hne. discriminate.
Qed.

Lemma startHeartbeat_timers_ok : preserves timers_ok Sockeon.startHeartbeat.
Proof.
  open_timers_ok.
  destruct htimer as [h|]; cbn in *; split_timers_ok; timers_side.
  - constructor; [simpl; lia|].
    apply Forall_handle_weaken, Forall_handle_filter. exact T1.
  - apply NoDup_handle_fresh; [apply Forall_handle_filter; exact T1|].
    apply NoDup_handle_filter. exact T2.
  - intros h' Hh'. specialize (T3 h' Hh'). lia.
  - intros h' Hh'. inversion Hh'. lia.
  - intros t [<- | Hin] Hhb; [reflexivity|].
    exfalso. exact (heartbeat_timer_cleared h tms t T5 Hin Hhb).
  - intros t [<- | Hin] Hhb; simpl.
    + intros E. specialize (T3 fr E). lia.
    + exfalso. exact (heartbeat_timer_cleared h tms t T5 Hin Hhb).
  - intros t [<- | Hin] Hhb; [split; reflexivity|].
    exfalso. exact (heartbeat_timer_cleared h tms t T5 Hin Hhb).
  - constructor; [simpl; lia|]. apply Forall_handle_weaken. exact T1.
  - apply NoDup_handle_fresh; assumption.
  - intros h' Hh'. specialize (T3 h' Hh'). lia.
  - intros h' Hh'. inversion Hh'. lia.
  - intros t [<- | Hin] Hhb; [reflexivity|].
    specialize (T5 t Hin Hhb). discriminate.
  - intros t [<- | Hin] Hhb; simpl.
    + intros E. specialize (T3 fr E). lia.
    + specialize (T5 t Hin Hhb). discriminate.
  - intros t [<- | Hin] Hhb; [split; reflexivity|].
    specialize (T5 t Hin Hhb). discriminate.
Qed.

Lemma schedule_timer_timers_ok (ms : Double.Number) :
  preserves timers_ok
    (bind (Window.setTimeout ReconnectCallback ms)
          (fun h => modify (on_client (with_reconnectTimer (Some h))))).
Proof.
  open_timers_ok. split_timers_ok; timers_side.
  - constructor; [simpl; lia|]. apply Forall_handle_weaken. exact T1.
  - apply NoDup_handle_fresh; assumption.
  - intros h' Hh'. inversion Hh'. lia.
  - intros h' Hh'. specialize (T4 h' Hh'). lia.
  - intros t [<- | Hin] Hhb; [discriminate|]. apply T5; assumption.
  - intros t [<- | Hin] Hhb; [discriminate|]. intros E. inversion E; subst.
    rewrite Forall_forall in T1. specialize (T1 t Hin). lia.
  - intros t [<- | Hin] Hhb; [discriminate|]. apply (T7 t Hin Hhb).
Qed.

Lemma newWebSocket_timers_ok : preserves timers_ok Window.newWebSocket.
Proof.
  open_timers_ok. split_timers_ok; timers_side.
  - intros h Hh. specialize (T3 h Hh). lia.
  - intros h Hh. specialize (T4 h Hh). lia.
Qed.

Ltac preserve_timers :=
  repeat match goal with
    | |- preserves _ Window.newWebSocket => apply newWebSocket_timers_ok
    | |- preserves _ Sockeon.clearHeartbeatTimer => apply clearHeartbeatTimer_timers_ok
    | |- preserves _ Sockeon.startHeartbeat => apply startHeartbeat_timers_ok
    | |- preserves _ (bind (Window.setTimeout ReconnectCallback _) _) =>
        apply schedule_timer_timers_ok
    | |- preserves _ (bind _ _) => apply preserves_bind; [|intro]
    | |- preserves _ (ret _) => apply preserves_ret
    | |- preserves _ (throw _) => apply preserves_throw
    | |- preserves _ (gets _) => apply preserves_gets
    | |- preserves _ (try_catch _ _) => apply preserves_try_catch; [|intro]
    | |- preserves _ (modify _) =>
        open_timers_ok; split_timers_ok; timers_side
    | |- preserves _ (match ?x with _ => _ end) => destruct x
    end.

Ltac methods_keeping_timers :=
  cbv beta iota zeta delta
    [perform
     Sockeon.connect Sockeon.disconnect Sockeon.handleDisconnect
     Sockeon.handleConnect Sockeon.handleMessage Sockeon.scheduleReconnect
     Sockeon.clearReconnectTimer
     Sockeon.heartbeatTick Sockeon.reconnectTick Sockeon.handleError
     Sockeon.handlePong Sockeon.joinRoom Sockeon.leaveRoom Sockeon.emit
     Sockeon.assign Sockeon.handlers
     Transport.ws_onclose Transport.ws_onopen Transport.ws_onerror
     Transport.ws_onmessage Transport.handleMessage Transport.JSON_parse
     Transport.connect Transport.disconnect Transport.send Transport.sendPing
     Transport.stopHeartbeat Transport.heartbeatTick Transport.assign
     Window.close Window.send Window.call
     Window.set_readyState Window.clearTimer
     Browser.fire Browser.run_callback Browser.opened Browser.message
     Browser.closed Browser.errored
     events_emit onOpen onMessage onClose onError onPong].

Lemma perform_timers_ok (a : Action) (now : Z) : preserves timers_ok (perform a now).
Proof. destruct a; methods_keeping_timers; preserve_timers. Qed.

Lemma reachable_timers_ok (o : NormalizedSockeonOptions) (trace : list (Action * Z)) :
  timers_ok (run trace (Sockeon.create o)).
Proof.
  assert (H : timers_ok (Sockeon.create o)).
  { unfold timers_ok. simpl. split_timers_ok; try reflexivity;
      try (intros; discriminate); try (intros; contradiction); constructor. }
  revert H. generalize (Sockeon.create o).
  induction trace as [|[a now] rest IH]; intros s H; simpl; [exact H|].
  apply IH, perform_timers_ok, H.
Qed.

(** ** The heartbeat interval and the connection state *)

Lemma returns_ret {A} (a : A) : returns (ret a).
Proof. intros s. exists a. reflexivity. Qed.

Lemma returns_gets {A} (f : System -> A) : returns (gets f).
Proof. intros s. exists (f s). reflexivity. Qed.

Lemma returns_modify (f : System -> System) : returns (modify f).
Proof. intros s. exists tt. reflexivity. Qed.

Lemma returns_bind {A B} (m : M A) (k : A -> M B) :
  returns m -> (forall a, returns (k a)) -> returns (bind m k).
Proof.
  intros Hm Hk s. destruct (Hm s) as [a Ha]. unfold completion, bind in *.
  destruct (m s) as [[a'|e] s']; simpl in Ha; [|discriminate].
  apply Hk.
Qed.

Ltac returns_always :=
  repeat match goal with
    | |- returns (bind _ _) => apply returns_bind; [|intro]
    | |- returns (ret _) => apply returns_ret
    | |- returns (gets _) => apply returns_gets
    | |- returns (modify _) => apply returns_modify
    | |- returns (match ?x with _ => _ end) => destruct x
    end.

Lemma hoare_seq {A B} (P Q R : System -> Prop) (m : M A) (k : A -> M B) :
  returns m -> hoare P m Q -> (forall a, hoare Q (k a) R) -> hoare P (bind m k) R.
Proof.
  intros Hr Hm Hk s H. rewrite exec_bind. specialize (Hm s H).
  destruct (Hr s) as [a Ha]. unfold exec, completion in *.
  destruct (m s) as [[a'|e] s']; simpl in *; [|discriminate].
  apply Hk, Hm.
Qed.

Lemma existsb_filter_false {X} (p q : X -> bool) (l : list X) :
  existsb p l = false -> existsb p (filter q l) = false.
Proof.
  induction l as [|a l IH]; simpl; [reflexivity|].
  intros H. apply orb_false_iff in H. destruct H as [Ha Hl].
  destruct (q a); simpl; [rewrite Ha|]; auto.
Qed.

Lemma existsb_filter_same {X} (p q : X -> bool) (l : list X) :
  (forall a, In a l -> p a = true -> q a = true) ->
  existsb p (filter q l) = existsb p l.
Proof.
  induction l as [|a l IH]; simpl; [reflexivity|]. intros H.
  destruct (q a) eqn:Eq; simpl.
  - rewrite IH; [reflexivity|]. intros b Hb. apply H. right. exact Hb.
  - destruct (p a) eqn:Ep.
    + rewrite (H a (or_introl eq_refl) Ep) in Eq. discriminate.
    + simpl. apply IH. intros b Hb. apply H. right. exact Hb.
Qed.

Lemma clearHeartbeatTimer_clears :
  hoare timers_ok Sockeon.clearHeartbeatTimer (fun s => heartbeat_pending s = false).
Proof.
  unfold hoare, heartbeat_pending. open_timers_ok.
  destruct htimer as [h|]; cbn in *; apply not_true_is_false; intros E;
    apply existsb_exists in E; destruct E as (t & Hin & Hhb).
  - exact (heartbeat_timer_cleared h tms t T5 Hin Hhb).
  - specialize (T5 t Hin Hhb). discriminate.
Qed.

Ltac preserve_no_heartbeat :=
  repeat match goal with
    | |- preserves _ (bind _ _) => apply preserves_bind; [|intro]
    | |- preserves _ (ret _) => apply preserves_ret
    | |- preserves _ (throw _) => apply preserves_throw
    | |- preserves _ (gets _) => apply preserves_gets
    | |- preserves _ (try_catch _ _) => apply preserves_try_catch; [|intro]
    | |- preserves _ (modify _) =>
        let s := fresh "s" in let H := fresh "H" in
        intros s H; unfold heartbeat_pending in *; open_system s; js_unfold; cbn in *;
        first [exact H | apply existsb_filter_false; exact H]
    | |- preserves _ (match ?x with _ => _ end) => destruct x
    end.

(** What follows [clearHeartbeatTimer] in [disconnect] and in the closed
    handler starts no heartbeat. *)
Lemma transport_disconnect_no_heartbeat (code : Z) (reason : string) :
  preserves (fun s => heartbeat_pending s = false) (Transport.disconnect code reason).
Proof. methods. preserve_no_heartbeat. Qed.

Lemma disconnect_clears :
  hoare timers_ok Sockeon.disconnect (fun s => heartbeat_pending s = false).
Proof.
  unfold Sockeon.disconnect.
  apply hoare_seq with (Q := timers_ok);
    [unfold Sockeon.assign; returns_always
    | change (preserves timers_ok (Sockeon.assign (with_manualDisconnect true)));
      methods_keeping_timers; preserve_timers
    | intros _].
  apply hoare_seq with (Q := timers_ok);
    [unfold Sockeon.clearReconnectTimer, Window.clearTimer, Sockeon.assign; returns_always
    | change (preserves timers_ok Sockeon.clearReconnectTimer);
      methods_keeping_timers; preserve_timers
    | intros _].
  apply hoare_seq with (Q := fun s => heartbeat_pending s = false);
    [unfold Sockeon.clearHeartbeatTimer, Window.clearTimer, Sockeon.assign; returns_always
    | apply clearHeartbeatTimer_clears
    | intros _].
  match goal with |- hoare ?P ?m ?P' => change (preserves P m) end.
  methods. preserve_no_heartbeat.
Qed.

Lemma handleDisconnect_clears (code : Z) (reason : string) :
  hoare timers_ok (Sockeon.handleDisconnect code reason)
        (fun s => heartbeat_pending s = false).
Proof.
  unfold Sockeon.handleDisconnect.
  apply hoare_seq with (Q := fun s => heartbeat_pending s = false);
    [unfold Sockeon.clearHeartbeatTimer, Window.clearTimer, Sockeon.assign; returns_always
    | apply clearHeartbeatTimer_clears
    | intros _].
  match goal with |- hoare ?P ?m ?P' => change (preserves P m) end.
  methods. preserve_no_heartbeat.
Qed.

Lemma closed_clears (id : nat) (code : Z) (reason : string) (s : System) :
  timers_ok s ->
  ReadyState_eqb (Window.readyState id (world s)) CLOSED = false ->
  heartbeat_pending (exec (Browser.closed id code reason) s) = false.
Proof.
  intros W Hrs. unfold exec. rewrite closed_unfold, Hrs.
  assert (W1 : timers_ok (closed_socket id s)).
  { revert W. unfold closed_socket. generalize s. open_timers_ok.
    split_timers_ok; timers_side. }
  revert W1. generalize (closed_socket id s). clear s W Hrs.
  change (hoare timers_ok (Transport.ws_onclose Sockeon.handlers code reason)
                (fun s => heartbeat_pending s = false)).
  unfold Transport.ws_onclose.
  apply hoare_seq with (Q := timers_ok);
    [unfold Transport.stopHeartbeat, Window.clearTimer, Transport.assign; returns_always
    | change (preserves timers_ok Transport.stopHeartbeat);
      methods_keeping_timers; preserve_timers
    | intros _].
  apply handleDisconnect_clears.
Qed.

Lemma opened_arms (id : nat) (now : Z) (s : System) :
  ReadyState_eqb (Window.readyState id (world s)) CONNECTING = true ->
  heartbeat_enabled (heartbeat (options (client s))) = true ->
  heartbeat_pending (exec (Browser.opened id now) s) = true.
Proof.
  unfold heartbeat_pending. open_system s. js_unfold. cbn.
  intros Hrs Hen. rewrite Hrs. cbn.
  destruct rtimer; cbn; rewrite Hen; destruct htimer; reflexivity.
Qed.

Lemma opened_skip (id : nat) (now : Z) (s : System) :
  ReadyState_eqb (Window.readyState id (world s)) CONNECTING = false ->
  exec (Browser.opened id now) s = s.
Proof.
  unfold Browser.opened, Browser.ready. js_step. intros ->. reflexivity.
Qed.

Lemma stopHeartbeat_unused (s : System) :
  pingInterval (Transport.this s) = None ->
  pongTimeout (Transport.this s) = None ->
  Transport.stopHeartbeat s = (Normal tt, s).
Proof. open_system s. js_unfold. cbn. intros -> ->. reflexivity. Qed.

Lemma stopHeartbeat_frame (X : list Timer) :
  preserves (fun t => timer_frame t = (X, None, None)) Transport.stopHeartbeat.
Proof.
  intros s H. unfold exec. rewrite stopHeartbeat_unused; [exact H | |];
    unfold timer_frame in H; congruence.
Qed.

Ltac preserve_timer_frame :=
  repeat match goal with
    | |- preserves _ Transport.stopHeartbeat => apply stopHeartbeat_frame
    | |- preserves _ (bind _ _) => apply preserves_bind; [|intro]
    | |- preserves _ (ret _) => apply preserves_ret
    | |- preserves _ (throw _) => apply preserves_throw
    | |- preserves _ (gets _) => apply preserves_gets
    | |- preserves _ (try_catch _ _) => apply preserves_try_catch; [|intro]
    | |- preserves _ (modify _) =>
        let s := fresh "s" in let H := fresh "H" in
        intros s H; unfold timer_frame in *; open_system s; js_unfold; cbn in *; exact H
    | |- preserves _ (match ?x with _ => _ end) => destruct x
    end.

Ltac methods_above_stopHeartbeat :=
  cbv beta iota zeta delta
    [perform
     Sockeon.connect Sockeon.handleMessage
     Sockeon.heartbeatTick Sockeon.reconnectTick Sockeon.handleError
     Sockeon.handlePong Sockeon.joinRoom Sockeon.leaveRoom Sockeon.emit
     Sockeon.assign Sockeon.handlers
     Transport.ws_onerror
     Transport.ws_onmessage Transport.handleMessage Transport.JSON_parse
     Transport.connect Transport.disconnect Transport.send Transport.sendPing
     Transport.heartbeatTick Transport.assign
     Window.newWebSocket Window.close Window.send Window.call
     Window.set_readyState
     Browser.run_callback Browser.message Browser.errored
     events_emit onOpen onMessage onClose onError onPong].

(** Connecting, sending, room calls, inbound frames and socket errors
    start and stop no timer. *)
Lemma perform_timer_frame (a : Action) (now : Z) (s : System) :
  match a with
  | CallConnect | CallEmit _ _ | CallJoinRoom _ | CallLeaveRoom _
  | SocketMessage _ _ | SocketErrored _ => True
  | _ => False
  end ->
  timers_ok s ->
  timers (world (exec (perform a now) s)) = timers (world s).
Proof.
  intros Ha (_ & _ & _ & _ & _ & _ & _ & T8 & T9).
  assert (P : preserves (fun t => timer_frame t = (timers (world s), None, None))
                        (perform a now)).
  { destruct a; try contradiction; methods_above_stopHeartbeat; preserve_timer_frame. }
  assert (H : timer_frame (exec (perform a now) s) = (timers (world s), None, None)).
  { apply P. unfold timer_frame. rewrite T8, T9. reflexivity. }
  unfold timer_frame in H. congruence.
Qed.

Lemma run_callback_timer_frame (cb : TimerCallback) (now : Z) (X : list Timer) :
  preserves (fun t => timer_frame t = (X, None, None)) (Browser.run_callback cb now).
Proof. destruct cb; methods_above_stopHeartbeat; preserve_timer_frame. Qed.

(** A timer that fires leaves the heartbeat interval pending or not, as
    it was: intervals stay, and the single-shot timer that is taken off
    the list is not the heartbeat. *)
Lemma fire_heartbeat_pending (h : nat) (now : Z) (s : System) :
  timers_ok s ->
  heartbeat_pending (exec (Browser.fire h now) s) = heartbeat_pending s.
Proof.
  intros (T1 & T2 & T3 & T4 & T5 & T6 & T7 & T8 & T9).
  unfold Browser.fire. rewrite exec_bind. cbv beta iota delta [gets].
  destruct (Window.pending h (world s)) as [t|] eqn:E; [|reflexivity].
  rewrite exec_bind.
  destruct (repeating t) eqn:R; cbv beta iota delta [ret Window.clearTimer modify].
  - pose proof (run_callback_timer_frame (callback t) now (timers (world s)) s) as F.
    unfold heartbeat_pending, timer_frame in *.
    rewrite T8, T9 in F. specialize (F eq_refl). congruence.
  - set (s1 := on_world _ s).
    pose proof (run_callback_timer_frame (callback t) now (timers (world s1)) s1) as F.
    unfold heartbeat_pending, timer_frame in *.
    assert (E1 : pingInterval (Transport.this s1) = None) by exact T8.
    assert (E2 : pongTimeout (Transport.this s1) = None) by exact T9.
    rewrite E1, E2 in F. specialize (F eq_refl).
    replace (timers (world (exec (Browser.run_callback (callback t) now) s1)))
      with (timers (world s1)) by congruence.
    unfold s1. simpl. apply existsb_filter_same.
    intros u Hu Hhb. apply negb_true_iff. apply Nat.eqb_neq. intros Hh.
    unfold Window.pending in E. apply find_some in E. destruct E as [Ht Hth].
    apply Nat.eqb_eq in Hth.
    assert (u = t) by (apply (NoDup_handle_eq (timers (world s))); congruence).
    subst u. destruct (T7 t Ht Hhb) as [Hrep _]. congruence.
Qed.

Lemma perform_heartbeat_coupled (a : Action) (now : Z) (s : System) :
  timers_ok s -> heartbeat_coupled s -> heartbeat_coupled (exec (perform a now) s).
Proof.
  intros W [Hc Hd].
  assert (Frame : forall s',
            state (client s') = state (client s) ->
            options (client s') = options (client s) ->
            heartbeat_pending s' = heartbeat_pending s ->
            heartbeat_coupled s').
  { intros s' Es Eo Ep. unfold heartbeat_coupled. rewrite Es, Eo, Ep. split; assumption. }
  assert (Off : forall s',
            state (client s') <> connected ->
            heartbeat_pending s' = false ->
            heartbeat_coupled s').
  { intros s' Es Ep. unfold heartbeat_coupled. rewrite Ep.
    split; [discriminate | intros; contradiction]. }
  assert (Lstate : forall s', lifecycle s' = lifecycle s ->
            state (client s') = state (client s) /\ options (client s') = options (client s)).
  { intros s' L. unfold lifecycle in L. split; congruence. }
  destruct a as [ | | e d | room | room | id | id payload | id code reason | id | h].
  - pose proof (perform_timer_frame CallConnect now s I W) as Ft.
    pose proof (connect_lifecycle s) as L. simpl perform in *.
    unfold lifecycle in L. injection L as Lo Ls _ _ _.
    unfold heartbeat_coupled, heartbeat_pending in *. rewrite Ft, Lo, Ls.
    destruct (state (client s)); split; try assumption; try discriminate;
      intros Hp; specialize (Hc Hp); discriminate.
  - simpl perform. apply Off; [apply disconnect_effect | apply disconnect_clears, W].
  - destruct (Lstate _ (perform_frame (CallEmit e d) now s I)) as [Es Eo].
    apply Frame; [exact Es | exact Eo |].
    unfold heartbeat_pending.
    rewrite (perform_timer_frame (CallEmit e d) now s I W). reflexivity.
  - pose proof (joinRoom_lifecycle room s) as L. unfold lifecycle in L.
    injection L as Lo Ls _ _ _.
    apply Frame; [exact Ls | exact Lo |].
    unfold heartbeat_pending.
    rewrite (perform_timer_frame (CallJoinRoom room) now s I W). reflexivity.
  - pose proof (leaveRoom_lifecycle room s) as L. unfold lifecycle in L.
    injection L as Lo Ls _ _ _.
    apply Frame; [exact Ls | exact Lo |].
    unfold heartbeat_pending.
    rewrite (perform_timer_frame (CallLeaveRoom room) now s I W). reflexivity.
  - simpl perform.
    destruct (ReadyState_eqb (Window.readyState id (world s)) CONNECTING) eqn:Hrs.
    + pose proof (opened_lifecycle id now s) as L. rewrite Hrs in L.
      unfold lifecycle in L. injection L as Lo Ls _ _ _.
      unfold heartbeat_coupled. rewrite Ls, Lo. split; [reflexivity|].
      intros _ Hen. apply opened_arms; assumption.
    + rewrite opened_skip by exact Hrs. split; assumption.
  - destruct (Lstate _ (perform_frame (SocketMessage id payload) now s I)) as [Es Eo].
    apply Frame; [exact Es | exact Eo |].
    unfold heartbeat_pending.
    rewrite (perform_timer_frame (SocketMessage id payload) now s I W). reflexivity.
  - simpl perform.
    destruct (ReadyState_eqb (Window.readyState id (world s)) CLOSED) eqn:Hrs.
    + unfold exec. rewrite closed_unfold, Hrs. split; assumption.
    + apply Off; [|apply closed_clears; assumption].
      pose proof (closed_lifecycle id code reason s) as L. rewrite Hrs in L.
      unfold lifecycle in L.
      destruct (wants_reconnect s && _); injection L as _ Ls _ _ _;
        rewrite Ls; discriminate.
  - destruct (Lstate _ (perform_frame (SocketErrored id) now s I)) as [Es Eo].
    apply Frame; [exact Es | exact Eo |].
    unfold heartbeat_pending.
    rewrite (perform_timer_frame (SocketErrored id) now s I W). reflexivity.
  - destruct (Lstate _ (perform_frame (TimerFired h) now s I)) as [Es Eo].
    apply Frame; [exact Es | exact Eo |].
    apply fire_heartbeat_pending, W.
Qed.

Lemma filter_at_most_one {X} (f : X -> nat) (p : X -> bool) (l : list X) :
  NoDup (map f l) ->
  (forall a b, In a l -> In b l -> p a = true -> p b = true -> f a = f b) ->
  (List.length (filter p l) <= 1)%nat.
Proof.
  induction l as [|a l IH]; simpl; [lia|]. intros Hnd Hsame.
  inversion Hnd as [|? ? Hnotin Hnd']; subst.
  destruct (p a) eqn:Ep; simpl.
  - assert (Hnone : filter p l = []).
    { destruct (filter p l) as [|b rest] eqn:Ef; [reflexivity|]. exfalso.
      assert (Hb : In b (filter p l)) by (rewrite Ef; left; reflexivity).
      apply filter_In in Hb. destruct Hb as [Hb Hpb].
      apply Hnotin. rewrite (Hsame a b); auto. apply in_map. exact Hb. }
    rewrite Hnone. simpl. lia.
  - apply IH; [exact Hnd'|]. intros x y Hx Hy. apply Hsame; right; assumption.
Qed.

(** X9.  In every state a controller can reach from its creation, through
    any calls, socket events and timers: no two pending timers share a
    handle; a pending heartbeat interval is the one recorded in
    [heartbeatTimer], it repeats every [heartbeat.interval] ms, and the
    state is [connected]; at most one heartbeat interval is pending; and
    while the state is [connected] with the heartbeat option enabled, the
    recorded heartbeat interval is pending. *)
Theorem heartbeat_interval_invariant (o : NormalizedSockeonOptions)
    (trace : list (Action * Z)) :
  let s := run trace (Sockeon.create o) in
  let tick h := {| handle := h; repeating := true;
                   after := Double.of_Z (interval (heartbeat o));
                   callback := HeartbeatCallback |} in
  NoDup (map handle (timers (world s)))
  /\ (forall t, In t (timers (world s)) -> is_heartbeat_timer t = true ->
        heartbeatTimer (client s) = Some (handle t)
        /\ t = tick (handle t)
        /\ Sockeon.getState s = connected)
  /\ (List.length (filter is_heartbeat_timer (timers (world s))) <= 1)%nat
  /\ (Sockeon.getState s = connected ->
      heartbeat_enabled (heartbeat o) = true ->
      exists h, heartbeatTimer (client s) = Some h
                /\ Window.pending h (world s) = Some (tick h)).
Proof.
  cbv zeta.
  assert (H : timers_ok (run trace (Sockeon.create o))
              /\ heartbeat_coupled (run trace (Sockeon.create o))
              /\ options (client (run trace (Sockeon.create o))) = o).
  { assert (H0 : timers_ok (Sockeon.create o) /\ heartbeat_coupled (Sockeon.create o)
                 /\ options (client (Sockeon.create o)) = o).
    { split; [apply (reachable_timers_ok o [])|]. split; [|reflexivity].
      split; simpl; discriminate. }
    revert H0. generalize (Sockeon.create o).
    induction trace as [|[a now] rest IH]; intros s H0; simpl; [exact H0|].
    apply IH. destruct H0 as (W & C & Ho).
    split; [apply perform_timers_ok, W|].
    split; [apply perform_heartbeat_coupled; assumption|].
    rewrite perform_options. exact Ho. }
  destruct H as ((T1 & T2 & T3 & T4 & T5 & T6 & T7 & T8 & T9) & [Hc Hd] & Ho).
  set (s := run trace (Sockeon.create o)) in *. rewrite Ho in *.
  assert (Shape : forall t, In t (timers (world s)) -> is_heartbeat_timer t = true ->
            t = {| handle := handle t; repeating := true;
                   after := Double.of_Z (interval (heartbeat o));
                   callback := HeartbeatCallback |}).
  { intros t Hin Hhb. destruct (T7 t Hin Hhb) as [Hrep Haft].
    destruct t as [th tr ta tc]. unfold is_heartbeat_timer in Hhb. simpl in *.
    subst tr ta. destruct tc; try discriminate. reflexivity. }
  split; [exact T2|]. split; [|split].
  - intros t Hin Hhb. split; [apply T5; assumption|]. split; [apply Shape; assumption|].
    apply Hc. unfold heartbeat_pending. apply existsb_exists. exists t. tauto.
  - apply (filter_at_most_one handle); [exact T2|].
    intros a b Ha Hb Hpa Hpb.
    pose proof (T5 a Ha Hpa) as Ea. pose proof (T5 b Hb Hpb) as Eb. congruence.
  - intros Hst Hen. specialize (Hd Hst Hen). unfold heartbeat_pending in Hd.
    apply existsb_exists in Hd. destruct Hd as (t & Hin & Hhb).
    exists (handle t). split; [apply T5; assumption|].
    unfold Window.pending.
    destruct (find (fun u => (handle u =? handle t)%nat) (timers (world s))) as [u|] eqn:E.
    + apply find_some in E. destruct E as [Hu Hh]. apply Nat.eqb_eq in Hh.
      assert (u = t) by (apply (NoDup_handle_eq (timers (world s))); assumption).
      subst u. f_equal. apply Shape; assumption.
    + exfalso. apply (find_none _ _ E) in Hin. rewrite Nat.eqb_refl in Hin. discriminate.
Qed.

(** * Sockets in every run *)

Ltac sockets_side :=
  try solve
    [ assumption
    | match goal with
      | H : forall id, is_live _ = true -> _ |- forall id, _ -> _ =>
          let id := fresh "id" in let L := fresh "L" in
          intros id L; cbn in L;
          repeat match type of L with
                 | context [(?a =? ?b)%nat] => destruct (a =? b)%nat eqn:?
                 end;
          first [discriminate L | apply H; exact L]
      end ].

Ltac preserve_sockets :=
  repeat match goal with
    | |- preserves _ (bind _ _) => apply preserves_bind; [|intro]
    | |- preserves _ (ret _) => apply preserves_ret
    | |- preserves _ (throw _) => apply preserves_throw
    | |- preserves _ (gets _) => apply preserves_gets
    | |- preserves _ (try_catch _ _) => apply preserves_try_catch; [|intro]
    | |- preserves _ (modify _) =>
        let s := fresh "s" in let H := fresh "H" in
        intros s H; unfold sockets_ok in *; open_system s; js_unfold; cbn in *;
        sockets_side
    | |- preserves _ (match ?x with _ => _ end) => destruct x
    end.

Lemma stopHeartbeat_sockets_ok : preserves sockets_ok Transport.stopHeartbeat.
Proof.
  unfold Transport.stopHeartbeat, Window.clearTimer, Transport.assign.
  preserve_sockets.
Qed.

(** [connect()] of the transport replaces [ws] only when it holds no
    socket or a closed one. *)
Lemma transport_connect_sockets_ok : preserves sockets_ok Transport.connect.
Proof.
  intros s H. unfold exec. rewrite transport_connect_spec. cbn [snd].
  unfold transport_idle, socket_opened, sockets_ok in *.
  open_system s. js_unfold. cbn in *.
  destruct tws as [w|]; cbn.
  - destruct (ReadyState_eqb _ CLOSED) eqn:Hc; [|exact H].
    intros id L. cbn in L. destruct (fr =? id)%nat eqn:E.
    + apply Nat.eqb_eq in E. congruence.
    + pose proof (H id L) as Hw. injection Hw as <-.
      destruct (find _ sks) as [[? []]|]; discriminate.
  - intros id L. cbn in L. destruct (fr =? id)%nat eqn:E.
    + apply Nat.eqb_eq in E. congruence.
    + specialize (H id L). discriminate.
Qed.

(** [disconnect()] of the transport starts the closing handshake of a
    socket that is connecting or open before it lets go of it. *)
Lemma transport_disconnect_sockets_ok (code : Z) (reason : string) :
  preserves sockets_ok (Transport.disconnect code reason).
Proof.
  unfold Transport.disconnect.
  apply preserves_bind; [apply stopHeartbeat_sockets_ok | intros _].
  intros s H. unfold sockets_ok in *. open_system s. js_unfold. cbn in *.
  destruct tws as [w|]; cbn; [|exact H].
  destruct (find _ sks) as [[? r]|] eqn:Ew; cbn.
  - destruct r; cbn; intros id L; cbn in L.
    + destruct (w =? id)%nat eqn:E; [discriminate L|].
      pose proof (H id L) as Hw. injection Hw as <-.
      rewrite Nat.eqb_refl in E. discriminate.
    + destruct (w =? id)%nat eqn:E; [discriminate L|].
      pose proof (H id L) as Hw. injection Hw as <-.
      rewrite Nat.eqb_refl in E. discriminate.
    + pose proof (H id L) as Hw. injection Hw as <-. rewrite Ew in L. discriminate.
    + pose proof (H id L) as Hw. injection Hw as <-. rewrite Ew in L. discriminate.
  - intros id L. pose proof (H id L) as Hw. injection Hw as <-.
    rewrite Ew in L. discriminate.
Qed.

Ltac preserve_sockets_methods :=
  repeat match goal with
    | |- preserves _ Transport.stopHeartbeat => apply stopHeartbeat_sockets_ok
    | |- preserves _ Transport.connect => apply transport_connect_sockets_ok
    | |- preserves _ (Transport.disconnect _ _) => apply transport_disconnect_sockets_ok
    | |- preserves _ (bind _ _) => apply preserves_bind; [|intro]
    | |- preserves _ (ret _) => apply preserves_ret
    | |- preserves _ (throw _) => apply preserves_throw
    | |- preserves _ (gets _) => apply preserves_gets
    | |- preserves _ (try_catch _ _) => apply preserves_try_catch; [|intro]
    | |- preserves _ (modify _) =>
        let s := fresh "s" in let H := fresh "H" in
        intros s H; unfold sockets_ok in *; open_system s; js_unfold; cbn in *;
        sockets_side
    | |- preserves _ (match ?x with _ => _ end) => destruct x
    end.

Ltac methods_keeping_sockets :=
  cbv beta iota zeta delta
    [perform
     Sockeon.connect Sockeon.disconnect Sockeon.handleDisconnect
     Sockeon.handleConnect Sockeon.handleMessage Sockeon.scheduleReconnect
     Sockeon.startHeartbeat Sockeon.clearReconnectTimer Sockeon.clearHeartbeatTimer
     Sockeon.heartbeatTick Sockeon.reconnectTick Sockeon.handleError
     Sockeon.handlePong Sockeon.joinRoom Sockeon.leaveRoom Sockeon.emit
     Sockeon.assign Sockeon.handlers
     Transport.ws_onclose Transport.ws_onopen Transport.ws_onerror
     Transport.ws_onmessage Transport.handleMessage Transport.JSON_parse
     Transport.send Transport.sendPing
     Transport.heartbeatTick Transport.assign
     Window.send Window.call
     Window.set_readyState Window.setTimeout Window.setInterval
     Window.setTimer Window.clearTimer
     Browser.fire Browser.run_callback Browser.message
     Browser.closed Browser.errored
     events_emit onOpen onMessage onClose onError onPong].

(** The handshake of a socket completes only for the socket the
    transport holds. *)
Lemma opened_sockets_ok (id : nat) (now : Z) : preserves sockets_ok (Browser.opened id now).
Proof.
  intros s H. unfold Browser.opened. rewrite exec_bind. cbv beta iota delta [gets].
  destruct (Browser.ready id CONNECTING s) eqn:R; [|exact H].
  rewrite exec_bind. cbv beta iota delta [Window.set_readyState modify].
  assert (P : preserves sockets_ok (Transport.ws_onopen Sockeon.handlers now))
    by (methods_keeping_sockets; preserve_sockets_methods).
  apply P. clear P. unfold sockets_ok, Browser.ready in *.
  assert (Hid : ws (Transport.this s) = Some id).
  { apply H. destruct (Window.readyState id (world s)); try discriminate; reflexivity. }
  clear R. revert H Hid. open_system s. js_unfold. cbn. intros H Hid id' L.
  destruct (id =? id')%nat eqn:E.
  - apply Nat.eqb_eq in E. congruence.
  - apply H. exact L.
Qed.

Lemma perform_sockets_ok (a : Action) (now : Z) : preserves sockets_ok (perform a now).
Proof.
  destruct a; try apply opened_sockets_ok;
    methods_keeping_sockets; preserve_sockets_methods.
Qed.

(** X10.  In every state a controller can reach from its creation, a
    socket that is connecting or open is the socket the transport holds:
    the transport starts the closing handshake of a socket before it
    lets go of it, and replaces only a closed one.  So at most one
    socket is connecting or open at any time. *)
Theorem live_socket_is_transport_socket (o : NormalizedSockeonOptions)
    (trace : list (Action * Z)) :
  let s := run trace (Sockeon.create o) in
  (forall id, is_live (Window.readyState id (world s)) = true ->
              ws (Transport.this s) = Some id)
  /\ (forall id id', is_live (Window.readyState id (world s)) = true ->
                     is_live (Window.readyState id' (world s)) = true ->
                     id = id').
Proof.
  cbv zeta.
  assert (H : sockets_ok (run trace (Sockeon.create o))).
  { assert (H0 : sockets_ok (Sockeon.create o)) by (intros id L; discriminate L).
    revert H0. generalize (Sockeon.create o).
    induction trace as [|[a now] rest IH]; intros s H0; simpl; [exact H0|].
    apply IH, perform_sockets_ok, H0. }
  split; [exact H|]. intros id id' L L'.
  pose proof (H id L) as E. pose proof (H id' L') as E'. congruence.
Qed.

(** * Reconnection switched off *)

Lemma reconnect_off_wants (why : Suppression) (s : System) :
  reconnect_off why s -> wants_reconnect s = false.
Proof.
  unfold wants_reconnect. destruct why; simpl; intros ->;
    [apply andb_false_r | reflexivity].
Qed.

Ltac open_quiet :=
  let s := fresh "s" in
  intros s (Q1 & Q2 & Q3 & Q4 & Q5 & Q6);
  unfold quiet, reconnect_off, reconnect_policy in *; open_system s; js_unfold; cbn in *.

Ltac split_quiet := split; [|split; [|split; [|split; [|split]]]].

Ltac quiet_side :=
  try solve
    [ assumption
    | reflexivity
    | discriminate
    | lia
    | rewrite filter_app; cbn; rewrite app_nil_r; assumption
    | match goal with
      | |- forall u, In u (filter _ _) -> _ =>
          let u := fresh "u" in let Hin := fresh "Hin" in
          intros u Hin; apply filter_In in Hin; destruct Hin; eauto
      | |- forall u, _ \/ In u _ -> _ =>
          let u := fresh "u" in let Hin := fresh "Hin" in
          intros u [<- | Hin]; [intros; discriminate | eauto]
      end ].

(** With reconnection off the closed handler stops after the teardown. *)
Lemma handleDisconnect_quiet (why : Suppression) (n0 : nat) (X : list Emitted)
    (T0 : list Timer) (code : Z) (reason : string) :
  preserves (quiet why n0 X T0) (Sockeon.handleDisconnect code reason).
Proof.
  intros s H. unfold exec. rewrite handleDisconnect_spec.
  rewrite (reconnect_off_wants why s) by apply H. cbn [snd].
  revert H. unfold torn_down, delivered. generalize s. clear s. open_quiet.
  destruct why, htimer, st; cbn in *; split_quiet; quiet_side.
Qed.

Ltac preserve_quiet :=
  repeat match goal with
    | |- preserves _ (Sockeon.handleDisconnect _ _) => apply handleDisconnect_quiet
    | |- preserves _ (bind _ _) => apply preserves_bind; [|intro]
    | |- preserves _ (ret _) => apply preserves_ret
    | |- preserves _ (throw _) => apply preserves_throw
    | |- preserves _ (gets _) => apply preserves_gets
    | |- preserves _ (try_catch _ _) => apply preserves_try_catch; [|intro]
    | |- preserves _ (modify _) => open_quiet; split_quiet; quiet_side
    | |- preserves _ (match ?x with _ => _ end) => destruct x
    end.

Ltac methods_above_handleDisconnect :=
  cbv beta iota zeta delta
    [perform
     Sockeon.connect Sockeon.disconnect
     Sockeon.handleConnect Sockeon.handleMessage
     Sockeon.startHeartbeat Sockeon.clearReconnectTimer Sockeon.clearHeartbeatTimer
     Sockeon.heartbeatTick Sockeon.reconnectTick Sockeon.handleError
     Sockeon.handlePong Sockeon.joinRoom Sockeon.leaveRoom Sockeon.emit
     Sockeon.assign
     Transport.ws_onclose Transport.ws_onopen Transport.ws_onerror
     Transport.ws_onmessage Transport.handleMessage Transport.JSON_parse
     Transport.connect Transport.disconnect Transport.send Transport.sendPing
     Transport.stopHeartbeat Transport.heartbeatTick Transport.assign
     Window.newWebSocket Window.close Window.send Window.call
     Window.set_readyState Window.setTimeout Window.setInterval
     Window.setTimer Window.clearTimer
     Browser.fire Browser.run_callback Browser.opened Browser.message
     Browser.closed Browser.errored
     events_emit];
  cbv beta iota delta [Sockeon.handlers onOpen onMessage onClose onError onPong];
  cbv beta iota zeta delta
    [Sockeon.handleConnect Sockeon.handleMessage Sockeon.handleError Sockeon.handlePong
     Sockeon.startHeartbeat Sockeon.clearReconnectTimer Sockeon.clearHeartbeatTimer
     Sockeon.assign Window.setInterval Window.setTimer Window.clearTimer events_emit].

Lemma perform_quiet (why : Suppression) (n0 : nat) (X : list Emitted) (T0 : list Timer)
    (a : Action) (now : Z) :
  match why with ByOption => true | ByManualDisconnect => negb (calls_connect a) end = true ->
  preserves (quiet why n0 X T0) (perform a now).
Proof.
  intros Ha. destruct why, a; try discriminate Ha;
    methods_above_handleDisconnect; preserve_quiet.
Qed.

Lemma run_quiet (why : Suppression) (n0 : nat) (X : list Emitted) (T0 : list Timer)
    (trace : list (Action * Z)) (s : System) :
  match why with
  | ByOption => true
  | ByManualDisconnect => forallb (fun a => negb (calls_connect (fst a))) trace
  end = true ->
  quiet why n0 X T0 s -> quiet why n0 X T0 (run trace s).
Proof.
  revert s. induction trace as [|[a now] rest IH]; intros s Ht H; simpl; [exact H|].
  apply IH.
  - destruct why; [reflexivity|]. simpl in Ht. apply andb_true_iff in Ht. tauto.
  - apply perform_quiet; [|exact H].
    destruct why; [reflexivity|]. simpl in Ht. apply andb_true_iff in Ht. tauto.
Qed.

Lemma no_reconnect_timer_due (l : list Timer) :
  (forall u, In u l -> is_reconnect_timer u = true -> In u []) ->
  find is_reconnect_timer l = None.
Proof.
  intros H. destruct (find is_reconnect_timer l) as [u|] eqn:E; [|reflexivity].
  apply find_some in E. destruct (H u (proj1 E) (proj2 E)).
Qed.

Lemma disconnect_unfold (s : System) :
  Sockeon.disconnect s
  = let s1 := exec Sockeon.clearHeartbeatTimer
                (exec Sockeon.clearReconnectTimer
                   (on_client (with_manualDisconnect true) s)) in
    if Sockeon.state_is disconnected s then (Normal tt, s1)
    else Transport.disconnect 1000 "Client disconnect" (on_client (with_state closing) s1).
Proof.
  open_system s.
  cbv beta iota zeta delta
    [Sockeon.disconnect Sockeon.clearReconnectTimer Sockeon.clearHeartbeatTimer
     Sockeon.assign Sockeon.state_is Sockeon.this Window.clearTimer
     bind gets modify ret exec snd on_client on_world
     with_manualDisconnect with_reconnectTimer with_heartbeatTimer with_timers
     client world state reconnectTimer heartbeatTimer].
  destruct rtimer, htimer, st; reflexivity.
Qed.

Lemma disconnect_quiet (s : System) :
  quiet ByManualDisconnect (reconnectAttempts (client s))
        (filter is_reconnect_event (emitted (world s))) (timers (world s))
        (exec Sockeon.disconnect s).
Proof.
  unfold exec. rewrite disconnect_unfold. cbv zeta.
  set (s1 := exec Sockeon.clearHeartbeatTimer _).
  set (Q := quiet ByManualDisconnect (reconnectAttempts (client s))
                  (filter is_reconnect_event (emitted (world s))) (timers (world s))).
  assert (Sub : forall q (l : list Timer) u, In u (filter q l) -> In u l).
  { intros q l u Hu. apply filter_In in Hu. tauto. }
  assert (H1 : Q (on_client (with_state closing) s1)
               /\ (state (client s) = disconnected -> Q s1)).
  { unfold Q, s1, quiet, reconnect_off. open_system s. js_unfold.
    destruct rtimer, htimer; cbn; split; try intros ->;
      split_quiet; try reflexivity; try discriminate; try lia;
      intros u Hu _; repeat apply Sub in Hu; exact Hu. }
  destruct H1 as [Hc Hd].
  unfold Sockeon.state_is, Sockeon.this.
  destruct (ConnectionState_eqb (state (client s)) disconnected) eqn:E.
  - apply ConnectionState_eqb_eq in E. apply Hd, E.
  - assert (P : preserves Q (Transport.disconnect 1000 "Client disconnect"))
      by (unfold Q; methods_above_handleDisconnect; preserve_quiet).
    apply P, Hc.
Qed.

(** * The transport's queries and its calls *)

(** X13.  [isConnected()] of the transport is [getState() === OPEN], and
    it decides [send]: when it holds, [send(message)] passes the message
    to [ws.send] of the held socket and changes nothing else; when it
    does not, [send] throws [WebSocket is not connected] and changes
    nothing; [sendPing()] sends nothing either way. *)
Theorem transport_send_iff_connected (m : SockeonMessage) (s : System) :
  TransportQueries.isConnected s = ReadyState_eqb (TransportQueries.getState s) OPEN
  /\ (TransportQueries.isConnected s = true ->
      exists id, ws (Transport.this s) = Some id
                 /\ Transport.send m s = (Normal tt, sent (WsSend id m) s))
  /\ (TransportQueries.isConnected s = false ->
      Transport.send m s = (Throw (Error "WebSocket is not connected"), s))
  /\ Transport.sendPing s = (Normal tt, s).
Proof.
  unfold TransportQueries.isConnected, TransportQueries.getState, sent.
  open_system s. js_unfold. cbn.
  destruct tws as [id|]; cbn.
  - split; [reflexivity|].
    destruct (ReadyState_eqb _ OPEN); cbn.
    + split; [intros _; exists id; split; reflexivity|].
      split; [discriminate | reflexivity].
    + split; [discriminate|]. split; [intros _|]; reflexivity.
  - split; [reflexivity|]. split; [discriminate|]. split; [intros _|]; reflexivity.
Qed.


Lemma disconnect_settles (s : System) : settled (exec Sockeon.disconnect s).
Proof.
  unfold exec. rewrite disconnect_unfold. cbv zeta.
  set (s1 := exec Sockeon.clearHeartbeatTimer _).
  assert (H1 : manualDisconnect (client s1) = true
               /\ reconnectTimer (client s1) = None
               /\ heartbeatTimer (client s1) = None
               /\ state (client s1) = state (client s)).
  { unfold s1. open_system s. js_unfold. destruct rtimer, htimer; repeat split. }
  destruct H1 as (M & R & Hb & St).
  unfold Sockeon.state_is, Sockeon.this.
  destruct (ConnectionState_eqb (state (client s)) disconnected) eqn:E.
  - apply ConnectionState_eqb_eq in E. unfold settled. cbn [snd].
    rewrite M, R, Hb, St, E. auto.
  - revert M R Hb. generalize s1. clear. intros t M R Hb.
    unfold settled. open_system t. js_unfold. cbn in *. subst.
    destruct tping, tpong, tws as [w|]; cbn;
      try (destruct (find _ sks) as [[? []]|]; cbn); auto 10.
Qed.

Lemma disconnect_settled (t : System) :
  settled t -> Sockeon.disconnect t = (Normal tt, t).
Proof.
  unfold settled. open_system t. js_unfold. cbn.
  intros (-> & -> & -> & [-> | (-> & -> & -> & ->)]); reflexivity.
Qed.

(** X15.  [connect()] and [disconnect()] of the controller are
    idempotent: a second call in a row returns without changing
    anything. *)
Theorem connect_disconnect_idempotent (s : System) :
  Sockeon.connect (exec Sockeon.connect s) = (Normal tt, exec Sockeon.connect s)
  /\ Sockeon.disconnect (exec Sockeon.disconnect s)
     = (Normal tt, exec Sockeon.disconnect s).
Proof.
  split; [|apply disconnect_settled, disconnect_settles].
  pose proof (connect_lifecycle s) as L. unfold lifecycle in L.
  injection L as _ Ls _ _ _.
  set (t := exec Sockeon.connect s) in *.
  unfold Sockeon.connect. js_step. unfold Sockeon.state_is, Sockeon.this.
  rewrite Ls. destruct (state (client s)); reflexivity.
Qed.

(** * What the socket events do *)

(** X16.  When the handshake of a socket completes ([ws.onopen]), the
    handler returns normally; the state is [connected], [connectedAt]
    and the transport's [lastPongTime] are the current time, the attempt
    counter is 0 and no reconnect timer is recorded; exactly one event is
    emitted, [connect] with the namespace and with [connectedAt] as its
    timestamp; rooms, sockets and the calls made on them are as before;
    the reconnect timer that was recorded (under a handle the window
    has handed out) is no longer pending; and the heartbeat interval is
    armed afresh when the heartbeat is enabled and left alone
    otherwise. *)
Theorem handshake_completed (now : Z) (s : System) :
  let s' := exec (Transport.ws_onopen Sockeon.handlers now) s in
  let o := options (client s) in
  completion (Transport.ws_onopen Sockeon.handlers now) s = Normal tt
  /\ getConnectionInfo s'
     = {| ci_state := connected; ci_namespace := namespace o; ci_connectedAt := Some now;
          ci_reconnectAttempts := 0; ci_isReconnecting := false |}
  /\ lastPongTime (Transport.this s') = now
  /\ reconnectTimer (client s') = None
  /\ emitted (world s')
     = emitted (world s) ++ [{| ev_name := "connect"; ev_payload := PConnect (namespace o) now |}]
  /\ (Sockeon.getRooms s', manualDisconnect (client s'), ws (Transport.this s'),
      sockets (world s'), wire (world s'))
     = (Sockeon.getRooms s, manualDisconnect (client s), ws (Transport.this s),
        sockets (world s), wire (world s))
  /\ (forall h, reconnectTimer (client s) = Some h -> (h < fresh (world s))%nat ->
                Window.pending h (world s') = None)
  /\ (if heartbeat_enabled (heartbeat o)
      then heartbeatTimer (client s') = Some (fresh (world s))
           /\ Window.pending (fresh (world s)) (world s')
              = Some {| handle := fresh (world s); repeating := true;
                        after := Double.of_Z (interval (heartbeat o));
                        callback := HeartbeatCallback |}
      else heartbeatTimer (client s') = heartbeatTimer (client s)
           /\ fresh (world s') = fresh (world s)).
Proof.
  cbv zeta. unfold getConnectionInfo, Sockeon.getRooms.
  assert (Hcut : forall h (l : list Timer),
             find (fun t => (handle t =? h)%nat)
                  (filter (fun t => negb (handle t =? h)%nat) l) = None).
  { intros h l. induction l as [|t l IH]; simpl; [reflexivity|].
    destruct (handle t =? h)%nat eqn:E; simpl; [exact IH|]. rewrite E. exact IH. }
  open_system s. js_unfold.
  destruct rtimer as [r|], (heartbeat_enabled (heartbeat o)), htimer as [h0|]; cbn;
    rewrite ?Nat.eqb_refl;
    repeat split; try reflexivity; try discriminate;
    intros h E Hlt; inversion E; subst;
    try (destruct (Nat.eqb_spec fr h); [lia|]);
    first [apply Hcut | apply find_filter_none; apply Hcut].
Qed.

(** X17.  An inbound frame and a socket error touch nothing but the
    emitted events and the transport's [lastPongTime]: state, rooms,
    counters, timers, sockets and the calls made on sockets stay as they
    are.  A binary frame sets [lastPongTime] to the current time and
    emits nothing; a text frame leaves [lastPongTime] alone and emits
    exactly one event (its own, or [error]); a frame on a socket that is
    not open is not delivered; a socket error emits one [error] event
    with the message [WebSocket error occurred] and the current time. *)
Theorem inbound_frames_and_errors (id : nat) (payload : Frame) (now : Z) (s : System) :
  let s' := exec (Browser.message id payload now) s in
  let e := exec (Browser.errored id now) s in
  connection s' = connection s
  /\ (Window.readyState id (world s) <> OPEN -> s' = s)
  /\ (Window.readyState id (world s) = OPEN ->
      match payload with
      | BinaryFrame =>
          lastPongTime (Transport.this s') = now
          /\ emitted (world s') = emitted (world s)
      | TextFrame _ =>
          lastPongTime (Transport.this s') = lastPongTime (Transport.this s)
          /\ exists x, emitted (world s') = emitted (world s) ++ [x]
      end)
  /\ e = delivered "error" (PError "WebSocket error occurred" now) s
  /\ completion (Browser.message id payload now) s = Normal tt
  /\ completion (Browser.errored id now) s = Normal tt.
Proof.
  cbv zeta.
  unfold connection, delivered, Browser.message, Transport.ws_onmessage,
    Transport.handleMessage, Transport.JSON_parse, Sockeon.handleMessage.
  open_system s. js_unfold. cbn.
  assert (Hno : forall r : ReadyState, r <> r -> False) by (intros r H; apply H; reflexivity).
  destruct (find _ sks) as [[? r]|]; [destruct r|]; cbn;
    try destruct payload as [|[v|]]; cbn;
    try (destruct (Transport.isValidMessage v); cbn);
    (split; [|split; [|split; [|split; [|split]]]]);
    try reflexivity;
    try (intros H; discriminate H);
    try (intros H; destruct (Hno _ H));
    intros _; split; try reflexivity; eexists; reflexivity.
Qed.

(** * Backoff after a successful connection *)

(** X18.  A successful connection restarts the backoff: whatever number
    of attempts was counted before, when a socket opens and the
    connection is then lost (no manual disconnect, reconnection
    enabled), the closed handler emits [disconnect] and schedules attempt
    number 1, with the initial delay [min(delay, maxDelay)], and the
    limit [maxAttempts] is not in the way.  Between the two, exactly
    [connect], [disconnect] and [reconnect_attempt] are emitted. *)
Theorem backoff_restarts_after_success (now code : Z) (reason : string) (s : System) :
  manualDisconnect (client s) = false ->
  reconnect_enabled (reconnect_policy s) = true ->
  let up := exec (Transport.ws_onopen Sockeon.handlers now) s in
  let down := exec (Transport.ws_onclose Sockeon.handlers code reason) up in
  let r := reconnect_policy s in
  let first := Sockeon.currentDelay r 0 in
  first = Double.min (delay r) (maxDelay r)
  /\ Sockeon.getState down = reconnecting
  /\ reconnectAttempts (client down) = 1%nat
  /\ emitted (world down)
     = emitted (world s)
       ++ [{| ev_name := "connect";
              ev_payload := PConnect (namespace (options (client s))) now |};
           {| ev_name := "disconnect"; ev_payload := PDisconnect code reason |};
           {| ev_name := "reconnect_attempt"; ev_payload := PReconnectAttempt 1 first |}]
  /\ exists h, reconnectTimer (client down) = Some h
               /\ Window.pending h (world down)
                  = Some {| handle := h; repeating := false; after := first;
                            callback := ReconnectCallback |}.
Proof.
  intros Hm Hen. cbv zeta. split.
  { apply currentDelay_0. }
  revert Hm Hen. unfold reconnect_policy, Sockeon.getState.
  open_system s. js_unfold. cbn. intros -> Hen.
  assert (Hlim : (0 <? maxAttempts (reconnect o))%Z && (maxAttempts (reconnect o) <=? 0)%Z
                 = false).
  { destruct (0 <? _)%Z eqn:A; [|reflexivity]. simpl.
    apply Z.ltb_lt in A. apply Z.leb_gt. exact A. }
  destruct rtimer, (heartbeat_enabled (heartbeat o)), htimer, tping, tpong; cbn;
    rewrite Hen; cbn; rewrite Hlim; cbn;
    rewrite ?Nat.eqb_refl, <- ?app_assoc; cbn;
    (split; [reflexivity|]); (split; [reflexivity|]); (split; [reflexivity|]);
    eexists; (split; [reflexivity|]); cbn; rewrite ?Nat.eqb_refl; reflexivity.
Qed.

Lemma backoff_restarts_after_success_dropped :
  reconnectAttempts (client dropped) = 1%nat
  /\ reconnectAttempts
       (client (exec (Transport.ws_onclose Sockeon.handlers 1006 "")
                  (exec (Transport.ws_onopen Sockeon.handlers 7) dropped))) = 1%nat.
Proof.
  split; [vm_compute; reflexivity|].
  apply (backoff_restarts_after_success 7 1006 "" dropped); reflexivity.
Defined.
(** * Room calls on the wire *)

(** X19.  Outside [connected], [joinRoom] and [leaveRoom] throw and change
    nothing.  While [connected] they first update the room set and then
    send: with the transport's socket open, exactly one message goes out,
    [join_room] (or [leave_room]) with data [{room, namespace}]; with the
    transport's socket not open the call throws [WebSocket is not
    connected], and the room set has been updated all the same. *)
Theorem room_calls_on_the_wire (room : string) (s : System) :
  let joined := on_client (fun c => with_rooms (Sockeon.set_add room (rooms c)) c) s in
  let left := on_client (fun c => with_rooms (Sockeon.set_delete room (rooms c)) c) s in
  let payload :=
    JObj [("room", JStr room); ("namespace", JStr (namespace (options (client s))))] in
  (Sockeon.getState s <> connected ->
     Sockeon.joinRoom room s = (Throw (Error "Cannot join room: not connected"), s)
     /\ Sockeon.leaveRoom room s = (Throw (Error "Cannot leave room: not connected"), s))
  /\ (Sockeon.getState s = connected ->
      (TransportQueries.isConnected s = true ->
         exists id, ws (Transport.this s) = Some id
           /\ Sockeon.joinRoom room s
              = (Normal tt, sent (WsSend id {| event := "join_room"; data := payload |}) joined)
           /\ Sockeon.leaveRoom room s
              = (Normal tt, sent (WsSend id {| event := "leave_room"; data := payload |}) left))
      /\ (TransportQueries.isConnected s = false ->
            Sockeon.joinRoom room s = (Throw (Error "WebSocket is not connected"), joined)
            /\ Sockeon.leaveRoom room s = (Throw (Error "WebSocket is not connected"), left))).
Proof.
  cbv zeta. unfold TransportQueries.isConnected, Sockeon.getState, sent.
  open_system s. js_unfold.
  change (Js.event_name_test "join_room") with true.
  change (Js.event_name_test "leave_room") with true.
  cbn. split.
  - intros Hst. destruct st; try (split; reflexivity). contradiction Hst. reflexivity.
  - intros ->. cbn. destruct tws as [id|]; cbn.
    + destruct (ReadyState_eqb _ OPEN); cbn; split; try discriminate.
      * intros _. exists id. repeat split.
      * intros _. split; reflexivity.
    + split; [discriminate|]. intros _. split; reflexivity.
Qed.
(** * The URL of the transport *)

Lemma named_removed (n : string) (l : Url.SearchParams) :
  filter (Url.named n) (filter (fun q => negb (Url.named n q)) l) = [].
Proof.
  induction l as [|q l IH]; simpl; [reflexivity|].
  destruct (Url.named n q) eqn:E; simpl; [exact IH|]. rewrite E. exact IH.
Qed.

Lemma named_apart (k n : string) (p : string * string) :
  k <> n -> Url.named n p = true -> Url.named k p = false.
Proof.
  unfold Url.named. intros Hk E. apply String.eqb_eq in E. apply String.eqb_neq. congruence.
Qed.

Lemma named_kept (k n : string) (l : Url.SearchParams) :
  k <> n ->
  filter (Url.named k) (filter (fun q => negb (Url.named n q)) l) = filter (Url.named k) l.
Proof.
  intros Hk. induction l as [|q l IH]; simpl; [reflexivity|].
  destruct (Url.named n q) eqn:E; simpl.
  - rewrite (named_apart k n q Hk E). exact IH.
  - destruct (Url.named k q); [f_equal|]; exact IH.
Qed.

Lemma getAll_set_same (n v : string) (l : Url.SearchParams) :
  Url.getAll n (Url.set n v l) = [v].
Proof.
  unfold Url.getAll. induction l as [|p l IH]; simpl.
  - unfold Url.named. simpl. rewrite String.eqb_refl. reflexivity.
  - destruct (Url.named n p) eqn:E; simpl.
    + unfold Url.named at 1. simpl. rewrite String.eqb_refl. simpl.
      rewrite named_removed. reflexivity.
    + rewrite E. exact IH.
Qed.

Lemma getAll_set_other (k n v : string) (l : Url.SearchParams) :
  k <> n -> Url.getAll k (Url.set n v l) = Url.getAll k l.
Proof.
  intros Hk. unfold Url.getAll.
  assert (Hn : Url.named k (n, v) = false).
  { unfold Url.named. simpl. apply String.eqb_neq. congruence. }
  induction l as [|p l IH]; simpl.
  - rewrite Hn. reflexivity.
  - destruct (Url.named n p) eqn:E; simpl.
    + rewrite Hn, (named_apart k n p Hk E), (named_kept k n l Hk). reflexivity.
    + destruct (Url.named k p); simpl; [f_equal|]; exact IH.
Qed.

Lemma getAll_entries_other (k : string) (entries : list (string * string))
    (l : Url.SearchParams) :
  ~ In k (map fst entries) ->
  Url.getAll k (fold_left (fun acc kv => Url.set (fst kv) (snd kv) acc) entries l)
  = Url.getAll k l.
Proof.
  revert l. induction entries as [|[n v] entries IH]; intros l Hk; simpl; [reflexivity|].
  simpl in Hk. rewrite IH by tauto. apply getAll_set_other. intros ->. tauto.
Qed.

Lemma getAll_entries_same (k v : string) (entries : list (string * string))
    (l : Url.SearchParams) :
  NoDup (map fst entries) -> In (k, v) entries ->
  Url.getAll k (fold_left (fun acc kv => Url.set (fst kv) (snd kv) acc) entries l) = [v].
Proof.
  revert l. induction entries as [|[n w] entries IH]; intros l Hnd Hin; simpl;
    [contradiction|].
  simpl in Hnd. inversion Hnd as [|? ? Hnotin Hnd']; subst.
  destruct Hin as [E | Hin].
  - injection E as -> ->. rewrite getAll_entries_other by exact Hnotin.
    apply getAll_set_same.
  - apply IH; assumption.
Qed.

(** X20.  In the URL that [buildUrl] makes, every entry of [query] is a
    parameter with exactly its value; a parameter named in neither
    [query] nor (as [key], with a token) [auth] is as in [options.url];
    the token is the one value of [key] when [query] has no entry named
    [key], and a [query] entry named [key] replaces the token. *)
Theorem buildUrl_parameters (o : TransportOptions) (entries : list (string * string)) :
  query o = Some entries ->
  NoDup (map fst entries) ->
  (forall k v, In (k, v) entries -> Url.getAll k (buildUrl o) = [v])
  /\ (forall k, ~ In k (map fst entries) ->
        Url.getAll k (buildUrl o)
        = match auth_token o with
          | Some t => if String.eqb k "key" then [t] else Url.getAll k (url_search o)
          | None => Url.getAll k (url_search o)
          end).
Proof.
  intros Hq Hnd. unfold buildUrl. rewrite Hq. split.
  - intros k v Hin. apply getAll_entries_same; assumption.
  - intros k Hk. rewrite getAll_entries_other by exact Hk.
    destruct (auth_token o) as [t|]; [|reflexivity].
    destruct (String.eqb k "key") eqn:E.
    + apply String.eqb_eq in E. subst k. apply getAll_set_same.
    + apply getAll_set_other. apply String.eqb_neq. exact E.
Qed.

Lemma buildUrl_parameters_sample :
  buildUrl sample_transport_options = [("room", "a"); ("key", "override"); ("lang", "en")]
  /\ Url.getAll "key" (buildUrl sample_transport_options) = ["override"].
Proof.
  split; [reflexivity|].
  apply (buildUrl_parameters sample_transport_options [("key", "override"); ("lang", "en")]).
  - reflexivity.
  - repeat constructor; simpl; intuition discriminate.
  - left. reflexivity.
Defined.
(** * The heartbeat of the transport class *)

(** X21.  [startHeartbeat(interval, timeout)] of the transport leaves
    exactly its own interval recorded and pending, repeating every
    [interval] ms, and the interval recorded before (under a handle the
    window has handed out) is no longer pending; [stopHeartbeat()] leaves
    no timer recorded.  A tick within the timeout (time since the last
    pong not above [timeout]) changes nothing; a tick past it is
    [disconnect(1000, 'Heartbeat timeout')]: it stops the heartbeat and
    lets go of the socket. *)
Theorem transport_heartbeat (interval_ms timeout_ms now : Z) (s : System) :
  let armed := exec (Transport.startHeartbeat interval_ms timeout_ms) s in
  let stopped := exec Transport.stopHeartbeat s in
  let ticked := exec (Transport.heartbeatTick timeout_ms now) s in
  let h := fresh (world s) in
  (pingInterval (Transport.this armed) = Some h
   /\ pongTimeout (Transport.this armed) = None
   /\ Window.pending h (world armed)
      = Some {| handle := h; repeating := true; after := Double.of_Z interval_ms;
                callback := PingCallback timeout_ms |}
   /\ forall h0, pingInterval (Transport.this s) = Some h0 -> (h0 < h)%nat ->
                 Window.pending h0 (world armed) = None)
  /\ (pingInterval (Transport.this stopped) = None
      /\ pongTimeout (Transport.this stopped) = None)
  /\ ((now - lastPongTime (Transport.this s) <= timeout_ms)%Z ->
      Transport.heartbeatTick timeout_ms now s = (Normal tt, s))
  /\ ((now - lastPongTime (Transport.this s) > timeout_ms)%Z ->
      Transport.heartbeatTick timeout_ms now s
      = Transport.disconnect 1000 "Heartbeat timeout" s
      /\ pingInterval (Transport.this ticked) = None
      /\ ws (Transport.this ticked) = None).
Proof.
  cbv zeta.
  assert (Hcut : forall h (l : list Timer),
             find (fun t => (handle t =? h)%nat)
                  (filter (fun t => negb (handle t =? h)%nat) l) = None).
  { intros h l. induction l as [|t l IH]; simpl; [reflexivity|].
    destruct (handle t =? h)%nat eqn:E; simpl; [exact IH|]. rewrite E. exact IH. }
  split; [|split; [|split]].
  - open_system s. js_unfold.
    destruct tping as [p|], tpong as [q|]; cbn; rewrite ?Nat.eqb_refl;
      repeat split; try reflexivity; try discriminate;
      intros h0 E Hlt; inversion E; subst;
      (destruct (Nat.eqb_spec fr h0); [lia|]);
      first [apply Hcut | apply find_filter_none; apply Hcut].
  - open_system s. js_unfold. destruct tping, tpong; split; reflexivity.
  - intros Hle. unfold Transport.heartbeatTick, Transport.sendPing. js_step.
    destruct (timeout_ms <? _)%Z eqn:E; [apply Z.ltb_lt in E; lia|].
    destruct (negb _); reflexivity.
  - intros Hgt.
    assert (E : (timeout_ms <? now - lastPongTime (Transport.this s))%Z = true)
      by (apply Z.ltb_lt; lia).
    split.
    + unfold Transport.heartbeatTick. js_step. rewrite E. reflexivity.
    + revert E. open_system s. js_unfold. cbn. intros ->.
      destruct tping, tpong, tws as [w|]; cbn;
        try (destruct (find _ sks) as [[? []]|]; cbn); split; reflexivity.
Qed.

(** * The state machine *)

(** X22.  The state changes only in these ways: [connect()] moves a state
    other than [connected] and [connecting] to [connecting];
    [disconnect()] moves a state other than [disconnected] to [closing];
    the open event of a connecting socket moves any state to
    [connected]; the close event of a socket not yet closed moves any
    state to [reconnecting] when a reconnect is wanted and the limit is
    not reached, and to [disconnected] otherwise.  Sending, room calls,
    inbound frames, socket errors and timers never change the state. *)
Theorem state_transitions (a : Action) (now : Z) (s : System) :
  let from := Sockeon.getState s in
  let to := Sockeon.getState (exec (perform a now) s) in
  match a with
  | CallConnect =>
      to = match from with connected => connected | _ => connecting end
  | CallDisconnect =>
      to = match from with disconnected => disconnected | _ => closing end
  | SocketOpened id =>
      to = if ReadyState_eqb (Window.readyState id (world s)) CONNECTING
           then connected else from
  | SocketClosed id _ _ =>
      to = if ReadyState_eqb (Window.readyState id (world s)) CLOSED then from
           else if wants_reconnect s
                   && negb (limit_reached (reconnect_policy s)
                                          (reconnectAttempts (client s)))
                then reconnecting else disconnected
  | _ => to = from
  end.
Proof.
  cbv zeta. unfold Sockeon.getState, Sockeon.this.
  assert (St : forall t u, lifecycle t = u -> state (client t) = snd (fst (fst (fst u))))
    by (intros t u <-; reflexivity).
  destruct a as [ | | e d | room | room | id | id payload | id code reason | id | h].
  - simpl perform. rewrite (St _ _ (connect_lifecycle s)). simpl.
    destruct (state (client s)); reflexivity.
  - simpl perform. rewrite (St _ _ (disconnect_lifecycle s)). reflexivity.
  - rewrite (St _ _ (perform_frame (CallEmit e d) now s I)). reflexivity.
  - simpl perform. rewrite (St _ _ (joinRoom_lifecycle room s)). reflexivity.
  - simpl perform. rewrite (St _ _ (leaveRoom_lifecycle room s)). reflexivity.
  - simpl perform. rewrite (St _ _ (opened_lifecycle id now s)).
    destruct (ReadyState_eqb _ CONNECTING); reflexivity.
  - rewrite (St _ _ (perform_frame (SocketMessage id payload) now s I)). reflexivity.
  - simpl perform. rewrite (St _ _ (closed_lifecycle id code reason s)).
    destruct (ReadyState_eqb _ CLOSED); [reflexivity|].
    destruct (wants_reconnect s && _); reflexivity.
  - rewrite (St _ _ (perform_frame (SocketErrored id) now s I)). reflexivity.
  - rewrite (St _ _ (perform_frame (TimerFired h) now s I)). reflexivity.
Qed.

(** * Timers that are not cancelled *)

Lemma In_kept (t : Timer) (h : nat) (l : list Timer) :
  In t l -> handle t <> h -> In t (filter (fun u => negb (handle u =? h)%nat) l).
Proof.
  intros Hin Hne. apply filter_In. split; [exact Hin|].
  apply negb_true_iff, Nat.eqb_neq. exact Hne.
Qed.

Lemma transport_disconnect_keeps (code : Z) (reason : string) (t : Timer) (s : System) :
  In t (timers (world s)) ->
  pingInterval (Transport.this s) <> Some (handle t) ->
  pongTimeout (Transport.this s) <> Some (handle t) ->
  In t (timers (world (exec (Transport.disconnect code reason) s))).
Proof.
  open_system s. js_unfold. cbn. intros Hin Hp Hq.
  destruct tping as [p|], tpong as [q|], tws as [w|]; cbn;
    try (destruct (find _ sks) as [[? []]|]; cbn);
    repeat apply In_kept; try exact Hin; congruence.
Qed.

(** X23.  A pending timer is cancelled only through the field that
    records it: [connect()] cancels none, scheduling a reconnect attempt
    cancels none (an earlier reconnect timer that is still pending stays
    pending beside the new one, which alone is recorded), and
    [disconnect()] cancels only the timers recorded in [reconnectTimer],
    [heartbeatTimer] and the transport's two fields. *)
Theorem pending_timers_survive (t : Timer) (s : System) :
  In t (timers (world s)) ->
  In t (timers (world (exec Sockeon.connect s)))
  /\ In t (timers (world (exec Sockeon.scheduleReconnect s)))
  /\ (reconnectTimer (client s) <> Some (handle t) ->
      heartbeatTimer (client s) <> Some (handle t) ->
      pingInterval (Transport.this s) <> Some (handle t) ->
      pongTimeout (Transport.this s) <> Some (handle t) ->
      In t (timers (world (exec Sockeon.disconnect s)))).
Proof.
  intros Hin. split; [|split].
  - revert Hin. open_system s. js_unfold. cbn. intros Hin.
    destruct st, tws as [w|]; cbn; try exact Hin;
      destruct (find _ sks) as [[? []]|]; exact Hin.
  - unfold exec. rewrite scheduleReconnect_spec. cbn [snd].
    destruct (limit_reached _ _); [exact Hin | right; exact Hin].
  - intros Hr Hh Hp Hq. unfold exec at 1. rewrite disconnect_unfold. cbv zeta.
    set (s1 := exec Sockeon.clearHeartbeatTimer _).
    assert (H1 : In t (timers (world s1))
                 /\ Transport.this (on_client (with_state closing) s1) = Transport.this s).
    { unfold s1. revert Hin Hr Hh. open_system s. js_unfold. cbn. intros Hin Hr Hh.
      destruct rtimer, htimer; cbn; (split; [|reflexivity]);
        repeat apply In_kept; try exact Hin; congruence. }
    destruct H1 as [Hin1 Ht].
    destruct (Sockeon.state_is disconnected s); [exact Hin1|].
    apply (transport_disconnect_keeps 1000 "Client disconnect" t
             (on_client (with_state closing) s1)); [exact Hin1 | |]; rewrite Ht; assumption.
Qed.


Lemma pending_timers_survive_dropped :
  In first_attempt_timer (timers (world dropped))
  /\ In first_attempt_timer (timers (world (exec Sockeon.connect dropped))).
Proof.
  assert (H : In first_attempt_timer (timers (world dropped)))
    by (vm_compute; left; reflexivity).
  split; [exact H|].
  exact (proj1 (pending_timers_survive first_attempt_timer dropped H)).
Defined.

(** * The events the application sees *)

Ltac preserve_names :=
  repeat match goal with
    | |- preserves _ (bind _ _) => apply preserves_bind; [|intro]
    | |- preserves _ (ret _) => apply preserves_ret
    | |- preserves _ (throw _) => apply preserves_throw
    | |- preserves _ (gets _) => apply preserves_gets
    | |- preserves _ (try_catch _ _) => apply preserves_try_catch; [|intro]
    | |- preserves _ (modify _) =>
        let s := fresh "s" in let H := fresh "H" in
        intros s H; open_system s; js_unfold; cbn in *;
        first [exact H | apply Forall_app; split; [exact H | repeat constructor]]
    | |- preserves _ (match ?x with _ => _ end) => destruct x
    end.

Lemma perform_well_named (a : Action) (now : Z) :
  preserves (fun s => Forall well_named (emitted (world s))) (perform a now).
Proof. destruct a; methods; preserve_names. Qed.

Lemma run_well_named (trace : list (Action * Z)) (s : System) :
  Forall well_named (emitted (world s)) ->
  Forall well_named (emitted (world (run trace s))).
Proof.
  revert s. induction trace as [|[a now] rest IH]; intros s H; simpl; [exact H|].
  apply IH. apply (perform_well_named a now s H).
Qed.

(** A well-named event under a reconnect name carries an attempt, a
    failure or the data of the server *)
Lemma reconnect_named (x : Emitted) :
  well_named x -> is_reconnect_event x = false ->
  ev_name x = "reconnect_attempt" \/ ev_name x = "reconnect_failed" ->
  exists d, ev_payload x = PData d.
Proof.
  unfold well_named, is_reconnect_event. intros W R N.
  destruct (ev_payload x) as [ns ts | code reason | m ts | k ms | k m | d]; simpl in W;
    try discriminate R;
    try (destruct N as [E | E]; rewrite E in W; discriminate W).
  exists d. reflexivity.
Qed.

(** X24.  Every event the controller emits of its own carries the name
    that goes with its payload: [connect], [disconnect], [error],
    [reconnect_attempt] or [reconnect_failed].  So an event named
    [reconnect] or [reconnect_error] (two of the names listed in
    [SYSTEM_EVENTS]) never comes from the controller: when one is
    emitted, it is a message of the server delivered under that name. *)
Theorem lifecycle_event_names (o : NormalizedSockeonOptions) (trace : list (Action * Z)) :
  let s := run trace (Sockeon.create o) in
  Forall well_named (emitted (world s))
  /\ (forall x, In x (emitted (world s)) ->
        ev_name x = "reconnect" \/ ev_name x = "reconnect_error" ->
        exists d, ev_payload x = PData d).
Proof.
  cbv zeta.
  assert (H : Forall well_named (emitted (world (run trace (Sockeon.create o))))).
  { assert (H0 : Forall well_named (emitted (world (Sockeon.create o)))) by constructor.
    revert H0. generalize (Sockeon.create o).
    induction trace as [|[a now] rest IH]; intros s H0; simpl; [exact H0|].
    apply IH. apply (perform_well_named a now s H0). }
  split; [exact H|]. intros x Hin Hname.
  rewrite Forall_forall in H. specialize (H x Hin). unfold well_named in H.
  destruct (ev_payload x) as [ns ts | code reason | m ts | k ms | k m | d]; simpl in H;
    try (destruct Hname as [E | E]; rewrite E in H; discriminate H).
  exists d. reflexivity.
Qed.

Lemma announced_app (up : bool) (l l' : list Emitted) :
  announced up (l ++ l')
  = match announced up l with Some u => announced u l' | None => None end.
Proof.
  revert up. induction l as [|x l IH]; intros up; simpl; [reflexivity|].
  destruct (ev_payload x); try apply IH. destruct up; [apply IH | reflexivity].
Qed.

Ltac open_announcements :=
  let s := fresh "s" in
  intros s (up & Ha & Hs); unfold announcements_ok in *;
  open_system s; js_unfold; cbn in *.

(** [handleConnect] announces the connection it has just recorded. *)
Lemma handleConnect_announces (now : Z) :
  preserves announcements_ok (Sockeon.handleConnect now).
Proof.
  open_announcements.
  destruct rtimer, (heartbeat_enabled (heartbeat o)), htimer; cbn;
    exists true; rewrite announced_app, Ha; split; reflexivity.
Qed.

(** The closed handler emits [disconnect] only for a connection that was
    announced. *)
Lemma handleDisconnect_announces (code : Z) (reason : string) :
  preserves announcements_ok (Sockeon.handleDisconnect code reason).
Proof.
  open_announcements.
  destruct htimer, st, manual; cbn;
    destruct (reconnect_enabled (reconnect o)); cbn;
    try destruct ((0 <? _)%Z && _); cbn;
    try (rewrite (Hs eq_refl) in Ha);
    eexists; rewrite <- ?app_assoc, ?announced_app, Ha; cbn;
    (split; [reflexivity | intros; discriminate]).
Qed.

Ltac preserve_announcements :=
  repeat match goal with
    | |- preserves _ (Sockeon.handleConnect _) => apply handleConnect_announces
    | |- preserves _ (Sockeon.handleDisconnect _ _) => apply handleDisconnect_announces
    | |- preserves _ (bind _ _) => apply preserves_bind; [|intro]
    | |- preserves _ (ret _) => apply preserves_ret
    | |- preserves _ (throw _) => apply preserves_throw
    | |- preserves _ (gets _) => apply preserves_gets
    | |- preserves _ (try_catch _ _) => apply preserves_try_catch; [|intro]
    | |- preserves _ (modify _) =>
        open_announcements;
        match goal with
        | Ha : announced _ _ = Some ?u |- _ =>
            exists u; rewrite ?announced_app, ?Ha;
            split; first [reflexivity | assumption | intros; discriminate]
        end
    | |- preserves _ (match ?x with _ => _ end) => destruct x
    end.

Ltac methods_above_handlers :=
  cbv beta iota zeta delta
    [perform
     Sockeon.connect Sockeon.disconnect
     Sockeon.clearReconnectTimer Sockeon.clearHeartbeatTimer
     Sockeon.heartbeatTick Sockeon.reconnectTick
     Sockeon.joinRoom Sockeon.leaveRoom Sockeon.emit
     Sockeon.assign
     Transport.ws_onclose Transport.ws_onopen Transport.ws_onerror
     Transport.ws_onmessage Transport.handleMessage Transport.JSON_parse
     Transport.connect Transport.disconnect Transport.send Transport.sendPing
     Transport.stopHeartbeat Transport.heartbeatTick Transport.assign
     Window.newWebSocket Window.close Window.send Window.call
     Window.set_readyState Window.clearTimer
     Browser.fire Browser.run_callback Browser.opened Browser.message
     Browser.closed Browser.errored];
  cbv beta iota delta [Sockeon.handlers onOpen onMessage onClose onError onPong];
  cbv beta iota zeta delta
    [Sockeon.handleMessage Sockeon.handleError Sockeon.handlePong events_emit].

Lemma perform_announcements (a : Action) (now : Z) :
  preserves announcements_ok (perform a now).
Proof. destruct a; methods_above_handlers; preserve_announcements. Qed.

Lemma alternates_announced (up : bool) (l : list Emitted) :
  Forall well_named l ->
  alternates up (map ev_name (filter own l)) = announced up l.
Proof.
  intros W. revert up. induction W as [|x l Wx W IH]; intros up; [reflexivity|].
  unfold well_named in Wx. simpl. unfold own at 1.
  destruct (ev_payload x) as [ns ts | code reason | m ts | k ms | k m | d];
    simpl in *; rewrite ?Wx; simpl; try apply IH.
  destruct up; [apply IH | reflexivity].
Qed.

(** X25.  Of the events the controller emits of its own, every
    [disconnect] follows a [connect] with no other [disconnect] between
    them, in every run from the creation of a controller: on its own
    account the controller never announces [disconnect] before a first
    [connect], nor twice in a row; and whenever the state is
    [connected], the last of its [connect] and [disconnect] events is
    [connect].  This holds of the payloads and of the names of these
    events alike.  The messages of the server are not counted: they
    reach the same handlers under the name the server chose, [connect]
    and [disconnect] included, at any time. *)
Theorem disconnect_follows_connect (o : NormalizedSockeonOptions)
    (trace : list (Action * Z)) :
  let s := run trace (Sockeon.create o) in
  exists up,
    announced false (emitted (world s)) = Some up
    /\ alternates false (map ev_name (filter own (emitted (world s)))) = Some up
    /\ (Sockeon.getState s = connected -> up = true).
Proof.
  cbv zeta.
  assert (H : announcements_ok (run trace (Sockeon.create o))).
  { assert (H0 : announcements_ok (Sockeon.create o)).
    { exists false. split; [reflexivity | discriminate]. }
    revert H0. generalize (Sockeon.create o).
    induction trace as [|[a now] rest IH]; intros s H0; simpl; [exact H0|].
    apply IH. apply (perform_announcements a now s H0). }
  destruct H as (up & Ha & Hc). exists up.
  split; [exact Ha|]. split; [|exact Hc].
  rewrite alternates_announced; [exact Ha|].
  apply run_well_named. constructor.
Qed.

(** * The calls made on sockets *)

Lemma among_In (id : nat) (l : list nat) : among id l = true <-> In id l.
Proof.
  unfold among. rewrite existsb_exists. split.
  - intros (x & Hx & E). apply Nat.eqb_eq in E. subst. exact Hx.
  - intros H. exists id. split; [exact H | apply Nat.eqb_refl].
Qed.

Lemma among_not_In (id : nat) (l : list nat) : among id l = false <-> ~ In id l.
Proof.
  rewrite <- among_In. destruct (among id l); split; intros H; congruence.
Qed.

Lemma follows_app (opened closed : list nat) (l l' : list WsCall) :
  follows opened closed (l ++ l')
  = follows opened closed l
    && follows (opened ++ created l) (closed ++ asked_to_close l) l'.
Proof.
  revert opened closed. induction l as [|c l IH]; intros opened closed; simpl.
  - rewrite !app_nil_r. reflexivity.
  - destruct c as [id | id m | id code reason]; simpl; rewrite IH, <- ?app_assoc, ?andb_assoc;
      reflexivity.
Qed.

Lemma follows_closed_created (opened closed : list nat) (l : list WsCall) :
  follows opened closed l = true ->
  forall id, In id (asked_to_close l) -> In id (opened ++ created l).
Proof.
  revert opened closed. induction l as [|c l IH]; intros opened closed H id Hin; simpl in *;
    [contradiction|].
  destruct c as [n | n m | n code reason]; simpl in *.
  - apply andb_true_iff in H. destruct H as [_ H].
    specialize (IH _ _ H id Hin). rewrite <- app_assoc in IH. exact IH.
  - apply andb_true_iff in H. destruct H as [_ H]. exact (IH _ _ H id Hin).
  - apply andb_true_iff in H. destruct H as [H1 H].
    apply andb_true_iff in H1. destruct H1 as [Ho _].
    destruct Hin as [<- | Hin]; [|exact (IH _ _ H id Hin)].
    apply among_In in Ho. apply in_or_app. left. exact Ho.
Qed.

Lemma created_app (l l' : list WsCall) : created (l ++ l') = created l ++ created l'.
Proof. apply flat_map_app. Qed.

Lemma asked_to_close_app (l l' : list WsCall) :
  asked_to_close (l ++ l') = asked_to_close l ++ asked_to_close l'.
Proof. apply flat_map_app. Qed.

Lemma not_live_false (r : ReadyState) : is_live r <> true -> is_live r = false.
Proof. destruct (is_live r); congruence. Qed.

Ltac open_wire_ok :=
  let s := fresh "s" in
  intros s (F & B & C & D); unfold wire_ok in *; open_system s; js_unfold; cbn in *.

Ltac split_wire_ok := split; [|split; [|split]].

Lemma setTimer_wire_ok (rep : bool) (cb : TimerCallback) (ms : Double.Number) :
  preserves wire_ok (Window.setTimer rep cb ms).
Proof.
  open_wire_ok. split_wire_ok; try assumption.
  intros id Hin. specialize (D id Hin). lia.
Qed.

(** [send] reaches [ws.send] only on an open socket. *)
Lemma transport_send_wire_ok (m : SockeonMessage) : preserves wire_ok (Transport.send m).
Proof.
  open_wire_ok. destruct tws as [w|]; cbn; [|split_wire_ok; assumption].
  destruct (find _ sks) as [[? r]|] eqn:Ew; [destruct r|]; cbn;
    try (split_wire_ok; assumption).
  assert (L : In w (created wi)) by (apply C; rewrite Ew; reflexivity).
  assert (N : ~ In w (asked_to_close wi)).
  { intros Hc. specialize (B w Hc). rewrite Ew in B. discriminate. }
  split_wire_ok.
  - rewrite follows_app, F. simpl.
    apply among_In in L. apply among_not_In in N. rewrite L, N. reflexivity.
  - intros id Hin. rewrite asked_to_close_app in Hin. simpl in Hin.
    rewrite app_nil_r in Hin. apply B, Hin.
  - intros id Hl. rewrite created_app. simpl. rewrite app_nil_r. apply C, Hl.
  - intros id Hin. rewrite created_app in Hin. simpl in Hin.
    rewrite app_nil_r in Hin. apply D, Hin.
Qed.

Lemma stopHeartbeat_wire_ok : preserves wire_ok Transport.stopHeartbeat.
Proof.
  intros s H.
  assert (E : (wire (world (exec Transport.stopHeartbeat s)),
               sockets (world (exec Transport.stopHeartbeat s)),
               fresh (world (exec Transport.stopHeartbeat s)))
              = (wire (world s), sockets (world s), fresh (world s))).
  { open_system s. js_unfold. destruct tping, tpong; reflexivity. }
  injection E as Ew Es Ef. unfold wire_ok, Window.readyState in *.
  rewrite Ew, Es, Ef. exact H.
Qed.

(** [connect()] of the transport names a socket that no call has named
    before. *)
Lemma transport_connect_wire_ok : preserves wire_ok Transport.connect.
Proof.
  intros s H. unfold exec. rewrite transport_connect_spec. cbn [snd].
  destruct (transport_idle s); [|exact H].
  revert H. unfold socket_opened. generalize s. clear s. open_wire_ok.
  assert (New : ~ In fr (created wi)) by (intros Hin; specialize (D fr Hin); lia).
  split_wire_ok.
  - rewrite follows_app, F. simpl. apply among_not_In in New. rewrite New. reflexivity.
  - intros id Hin. rewrite asked_to_close_app in Hin. simpl in Hin.
    rewrite app_nil_r in Hin.
    destruct (fr =? id)%nat eqn:E; [|apply B, Hin].
    apply Nat.eqb_eq in E. subst id. exfalso. apply New.
    exact (follows_closed_created [] [] wi F fr Hin).
  - intros id Hl. rewrite created_app. simpl. apply in_or_app.
    destruct (fr =? id)%nat eqn:E.
    + apply Nat.eqb_eq in E. subst id. right. left. reflexivity.
    + left. apply C, Hl.
  - intros id Hin. rewrite created_app in Hin. simpl in Hin.
    apply in_app_or in Hin. destruct Hin as [Hin | [<- | []]]; [|lia].
    specialize (D id Hin). lia.
Qed.

(** [disconnect()] of the transport asks a socket to close only while
    it is connecting or open, hence once. *)
Lemma transport_disconnect_wire_ok (code : Z) (reason : string) :
  preserves wire_ok (Transport.disconnect code reason).
Proof.
  unfold Transport.disconnect.
  apply preserves_bind; [apply stopHeartbeat_wire_ok | intros _].
  open_wire_ok. destruct tws as [w|]; cbn; [|split_wire_ok; assumption].
  destruct (find _ sks) as [[? r]|] eqn:Ew; [destruct r|]; cbn;
    try (split_wire_ok; assumption).
  all: assert (L : In w (created wi)) by (apply C; rewrite Ew; reflexivity).
  all: assert (N : ~ In w (asked_to_close wi))
         by (intros Hc; specialize (B w Hc); rewrite Ew in B; discriminate).
  all: split_wire_ok.
  all: try (rewrite follows_app, F; simpl;
            apply among_In in L; apply among_not_In in N; rewrite L, N; reflexivity).
  all: try (intros id Hin; rewrite created_app in Hin; simpl in Hin;
            rewrite app_nil_r in Hin; apply D, Hin).
  all: try (intros id Hl; rewrite created_app; simpl; rewrite app_nil_r;
            destruct (w =? id)%nat eqn:E; [discriminate Hl | apply C, Hl]).
  all: intros id Hin; rewrite asked_to_close_app in Hin; simpl in Hin;
       apply in_app_or in Hin;
       destruct (w =? id)%nat eqn:E; [reflexivity|];
       destruct Hin as [Hin | [<- | []]]; [apply B, Hin|];
       rewrite Nat.eqb_refl in E; discriminate E.
Qed.

Ltac wire_side :=
  try solve
    [ assumption
    | match goal with
      | B : forall id, In id _ -> is_live _ = false |- forall id, In id _ -> _ =>
          let id := fresh "id" in let Hin := fresh "Hin" in
          intros id Hin; cbn;
          repeat match goal with
                 | |- context [(?a =? ?b)%nat] => destruct (a =? b)%nat eqn:?
                 end;
          first [reflexivity | apply B; exact Hin]
      | C : forall id, is_live _ = true -> In id _ |- forall id, is_live _ = true -> _ =>
          let id := fresh "id" in let L := fresh "L" in
          intros id L; cbn in L;
          repeat match type of L with
                 | context [(?a =? ?b)%nat] => destruct (a =? b)%nat eqn:?
                 end;
          first [discriminate L | apply C; exact L]
      end ].

Ltac preserve_wire :=
  repeat match goal with
    | |- preserves _ (Window.setTimer _ _ _) => apply setTimer_wire_ok
    | |- preserves _ Transport.stopHeartbeat => apply stopHeartbeat_wire_ok
    | |- preserves _ Transport.connect => apply transport_connect_wire_ok
    | |- preserves _ (Transport.disconnect _ _) => apply transport_disconnect_wire_ok
    | |- preserves _ (Transport.send _) => apply transport_send_wire_ok
    | |- preserves _ (bind _ _) => apply preserves_bind; [|intro]
    | |- preserves _ (ret _) => apply preserves_ret
    | |- preserves _ (throw _) => apply preserves_throw
    | |- preserves _ (gets _) => apply preserves_gets
    | |- preserves _ (try_catch _ _) => apply preserves_try_catch; [|intro]
    | |- preserves _ (modify _) => open_wire_ok; split_wire_ok; wire_side
    | |- preserves _ (match ?x with _ => _ end) => destruct x
    end.

Ltac methods_above_wire :=
  cbv beta iota zeta delta
    [perform
     Sockeon.connect Sockeon.disconnect Sockeon.handleDisconnect
     Sockeon.handleConnect Sockeon.handleMessage Sockeon.scheduleReconnect
     Sockeon.startHeartbeat Sockeon.clearReconnectTimer Sockeon.clearHeartbeatTimer
     Sockeon.heartbeatTick Sockeon.reconnectTick Sockeon.handleError
     Sockeon.handlePong Sockeon.joinRoom Sockeon.leaveRoom Sockeon.emit
     Sockeon.assign Sockeon.handlers
     Transport.ws_onclose Transport.ws_onopen Transport.ws_onerror
     Transport.ws_onmessage Transport.handleMessage Transport.JSON_parse
     Transport.sendPing Transport.heartbeatTick Transport.assign
     Window.set_readyState Window.setTimeout Window.setInterval Window.clearTimer
     Browser.fire Browser.run_callback Browser.message
     Browser.closed Browser.errored
     events_emit onOpen onMessage onClose onError onPong].

Lemma opened_wire_ok (id : nat) (now : Z) : preserves wire_ok (Browser.opened id now).
Proof.
  intros s H. unfold Browser.opened. rewrite exec_bind. cbv beta iota delta [gets].
  destruct (Browser.ready id CONNECTING s) eqn:R; [|exact H].
  rewrite exec_bind. cbv beta iota delta [Window.set_readyState modify].
  assert (P : preserves wire_ok (Transport.ws_onopen Sockeon.handlers now))
    by (methods_above_wire; preserve_wire).
  apply P. clear P.
  assert (Hlive : is_live (Window.readyState id (world s)) = true).
  { unfold Browser.ready in R. destruct (Window.readyState id (world s));
      try discriminate; reflexivity. }
  clear R. revert H Hlive. generalize s. clear s. open_wire_ok. intros Hlive.
  split_wire_ok; try assumption.
  - intros id' Hin. destruct (id =? id')%nat eqn:E; [|apply B, Hin].
    apply Nat.eqb_eq in E. subst id'. specialize (B id Hin). congruence.
  - intros id' L. destruct (id =? id')%nat eqn:E; [|apply C, L].
    apply Nat.eqb_eq in E. subst id'. apply C, Hlive.
Qed.

Lemma perform_wire_ok (a : Action) (now : Z) : preserves wire_ok (perform a now).
Proof.
  destruct a; try apply opened_wire_ok; methods_above_wire; preserve_wire.
Qed.

(** X26.  In every run from the creation of a controller, the calls made
    on sockets keep to the life of a socket: each socket is created by
    one [new WebSocket], [send] and [close] are called only on a socket
    that was created and not yet asked to close, so nothing is sent on a
    socket after [close] and no socket is asked to close twice.  A
    socket that was asked to close is never connecting or open again. *)
Theorem socket_calls_follow_protocol (o : NormalizedSockeonOptions)
    (trace : list (Action * Z)) :
  let s := run trace (Sockeon.create o) in
  follows [] [] (wire (world s)) = true
  /\ NoDup (created (wire (world s)))
  /\ (forall id, In id (asked_to_close (wire (world s))) ->
                 In id (created (wire (world s)))
                 /\ is_live (Window.readyState id (world s)) = false).
Proof.
  cbv zeta.
  assert (H : wire_ok (run trace (Sockeon.create o))).
  { assert (H0 : wire_ok (Sockeon.create o)).
    { split_wire_ok; try reflexivity; intros id; simpl; try contradiction; discriminate. }
    revert H0. generalize (Sockeon.create o).
    induction trace as [|[a now] rest IH]; intros s H0; simpl; [exact H0|].
    apply IH, perform_wire_ok, H0. }
  destruct H as (F & B & _ & _). split; [exact F|]. split.
  - clear B. revert F. generalize (wire (world (run trace (Sockeon.create o)))).
    intros l. change (created l) with ([] ++ created l) at 1.
    assert (G : forall opened closed, NoDup opened -> follows opened closed l = true ->
                                      NoDup (opened ++ created l)).
    { induction l as [|c l IH]; intros opened closed Hnd Hf; simpl in *.
      - rewrite app_nil_r. exact Hnd.
      - destruct c as [n | n m | n code reason]; simpl in *.
        + apply andb_true_iff in Hf. destruct Hf as [Hn Hf].
          apply negb_true_iff, among_not_In in Hn.
          specialize (IH (opened ++ [n]) closed). rewrite <- app_assoc in IH.
          apply IH; [|exact Hf].
          apply NoDup_app; [exact Hnd | repeat constructor; intros [] |].
          intros x Hx [<- | []]. exact (Hn Hx).
        + apply andb_true_iff in Hf. destruct Hf as [_ Hf]. exact (IH _ _ Hnd Hf).
        + apply andb_true_iff in Hf. destruct Hf as [_ Hf]. exact (IH _ _ Hnd Hf). }
    intros F. apply (G [] []); [constructor | exact F].
  - intros id Hin. split; [|apply B, Hin].
    exact (follows_closed_created [] [] _ F id Hin).
Qed.

(** * From the socket to the application's handlers *)

(** X27.  A well-formed envelope arriving on the open socket under a
    name other than ["*"] makes exactly one call of the emitter, and that
    call runs every handler registered under the envelope's event name
    and then every wildcard handler, each once, in registration order,
    with the envelope's data, whichever of them throw.  The name is the
    server's: handlers registered for [connect] or [disconnect] are run
    by an envelope of that name just the same. *)
Theorem inbound_message_reaches_listeners (throws : nat -> Payload -> bool)
    (m : EventEmitter.Events) (id : nat) (v : JSON) (e : string) (d : JSON)
    (now : Z) (s : System) :
  Window.readyState id (world s) = OPEN ->
  envelope_shape v e d ->
  e <> "*" ->
  let s' := exec (Browser.message id (TextFrame (Some v)) now) s in
  exists x,
    emitted (world s') = emitted (world s) ++ [x]
    /\ snd (dispatch throws m x)
       = calls_of (EventEmitter.listeners e m) (PData d)
         ++ calls_of (EventEmitter.listeners "*" m) (PData d).
Proof.
  intros Hopen Hshape Hne. cbv zeta.
  exists {| ev_name := e; ev_payload := PData d |}. split.
  - unfold Browser.message, Browser.ready. rewrite exec_bind.
    cbv beta iota delta [gets]. rewrite Hopen. simpl ReadyState_eqb. cbv iota.
    unfold exec. rewrite (onmessage_accepted v e d s now Hshape). reflexivity.
  - unfold dispatch. simpl. apply emit_calls_in_registration_order_aux. exact Hne.
Qed.

Lemma inbound_message_reaches_listeners_live :
  Window.readyState 0 (world live) = OPEN
  /\ exists x,
       emitted (world (exec (Browser.message 0 (TextFrame (Some chat_send_ok)) 5) live))
       = emitted (world live) ++ [x]
       /\ snd (dispatch first_throws sample_emitter x)
          = calls_of (EventEmitter.listeners "chat.send" sample_emitter) (PData (JObj []))
            ++ calls_of (EventEmitter.listeners "*" sample_emitter) (PData (JObj [])).
Proof.
  assert (Hopen : Window.readyState 0 (world live) = OPEN) by (vm_compute; reflexivity).
  split; [exact Hopen|].
  refine (inbound_message_reaches_listeners first_throws sample_emitter 0 chat_send_ok
            "chat.send" (JObj []) 5 live Hopen _ _).
  - exists [("event", JStr "chat.send"); ("data", JObj [])].
    repeat split; try reflexivity. discriminate.
  - discriminate.
Defined.

(** * Reconnection switched off *)

Ltac preserve_created :=
  repeat match goal with
    | |- preserves _ (bind _ _) => apply preserves_bind; [|intro]
    | |- preserves _ (ret _) => apply preserves_ret
    | |- preserves _ (throw _) => apply preserves_throw
    | |- preserves _ (gets _) => apply preserves_gets
    | |- preserves _ (try_catch _ _) => apply preserves_try_catch; [|intro]
    | |- preserves _ (modify _) =>
        let s := fresh "s" in let H := fresh "H" in
        intros s H; open_system s; unfold creates_nothing in *; js_unfold; cbn in *;
        first [exact H | rewrite created_app; cbn; rewrite app_nil_r; exact H]
    | |- preserves _ (match ?x with _ => _ end) => destruct x
    end.

Lemma action_creates_nothing (C : list nat) (a : Action) (now : Z) :
  match a with CallConnect | TimerFired _ => false | _ => true end = true ->
  preserves (creates_nothing C) (perform a now).
Proof.
  intros Ha. destruct a; try discriminate Ha; methods; preserve_created.
Qed.

Lemma fire_creates_nothing (C : list nat) (h : nat) (now : Z) (s : System) :
  (forall u, In u (timers (world s)) -> is_reconnect_timer u = true -> In u []) ->
  creates_nothing C s -> creates_nothing C (exec (Browser.fire h now) s).
Proof.
  intros Hno H. unfold Browser.fire. rewrite exec_bind. cbv beta iota delta [gets].
  destruct (Window.pending h (world s)) as [t|] eqn:E; [|exact H].
  apply find_some in E. destruct E as [Hin _].
  assert (P : preserves (creates_nothing C)
                ((if repeating t then ret tt else Window.clearTimer h) ;;
                 Browser.run_callback (callback t) now)).
  { pose proof (Hno t Hin) as Ht. unfold is_reconnect_timer in Ht.
    destruct (callback t); [destruct (Ht eq_refl)| |]; methods; preserve_created. }
  apply P. exact H.
Qed.

Lemma perform_creates_nothing (C : list nat) (a : Action) (now : Z) (s : System) :
  calls_connect a = false ->
  (forall u, In u (timers (world s)) -> is_reconnect_timer u = true -> In u []) ->
  creates_nothing C s -> creates_nothing C (exec (perform a now) s).
Proof.
  intros Ha Hno H. destruct a; try discriminate Ha;
    try (apply action_creates_nothing; [reflexivity | exact H]).
  apply fire_creates_nothing; assumption.
Qed.

(** [connect()] creates one socket at most *)
Lemma connect_creates_one (s : System) :
  (List.length (created (wire (world (exec Sockeon.connect s))))
   <= S (List.length (created (wire (world s)))))%nat.
Proof.
  open_system s. unfold created. js_unfold. cbn.
  destruct st, tws as [w|], tping, tpong; cbn; try lia;
    try (destruct (find _ sks) as [[? []]|]; cbn);
    rewrite ?flat_map_app, ?length_app; cbn; lia.
Qed.

Lemma run_creates_nothing (n0 : nat) (X : list Emitted) (trace : list (Action * Z))
    (s : System) :
  forallb (fun a => negb (calls_connect (fst a))) trace = true ->
  quiet ByManualDisconnect n0 X [] s ->
  created (wire (world (run trace s))) = created (wire (world s)).
Proof.
  revert s. induction trace as [|[a now] rest IH]; intros s Ht Hq; simpl; [reflexivity|].
  simpl in Ht. apply andb_true_iff in Ht. destruct Ht as [Ha Ht].
  apply negb_true_iff in Ha.
  rewrite IH; [|exact Ht|].
  - apply (perform_creates_nothing _ a now s Ha); [apply Hq | reflexivity].
  - apply perform_quiet; [rewrite Ha; reflexivity | exact Hq].
Qed.

Lemma run_creates_on_connect (n0 : nat) (X : list Emitted) (trace : list (Action * Z))
    (s : System) :
  quiet ByOption n0 X [] s ->
  (List.length (created (wire (world (run trace s))))
   <= List.length (created (wire (world s))) + connect_calls trace)%nat.
Proof.
  revert s. induction trace as [|[a now] rest IH]; intros s Hq; simpl.
  - unfold connect_calls. simpl. lia.
  - assert (Hq' : quiet ByOption n0 X [] (exec (perform a now) s))
      by (apply perform_quiet; [reflexivity | exact Hq]).
    specialize (IH _ Hq'). unfold connect_calls in *. simpl.
    destruct (calls_connect a) eqn:Ha; simpl.
    + destruct a; try discriminate Ha. simpl in IH.
      pose proof (connect_creates_one s). simpl. lia.
    + rewrite (perform_creates_nothing _ a now s Ha (proj2 (proj2 (proj2 (proj2 (proj2 Hq)))))
                 eq_refl) in IH.
      lia.
Qed.

Ltac preserve_grown :=
  repeat match goal with
    | |- preserves _ (bind _ _) => apply preserves_bind; [|intro]
    | |- preserves _ (ret _) => apply preserves_ret
    | |- preserves _ (throw _) => apply preserves_throw
    | |- preserves _ (gets _) => apply preserves_gets
    | |- preserves _ (try_catch _ _) => apply preserves_try_catch; [|intro]
    | |- preserves _ (modify _) =>
        let s := fresh "s" in let H := fresh "H" in
        let added := fresh "added" in let E := fresh "E" in let W := fresh "W" in
        intros s H; open_system s; unfold grown in *; js_unfold; cbn in *;
        destruct H as (added & E & W);
        first [ exists added; split; assumption
              | eexists; split;
                [rewrite E, <- app_assoc; reflexivity
                | apply Forall_app; split; [exact W | repeat constructor]] ]
    | |- preserves _ (match ?x with _ => _ end) => destruct x
    end.

Lemma perform_grown (E0 : list Emitted) (a : Action) (now : Z) :
  preserves (grown E0) (perform a now).
Proof. destruct a; methods; preserve_grown. Qed.

Lemma run_grown (E0 : list Emitted) (trace : list (Action * Z)) (s : System) :
  grown E0 s -> grown E0 (run trace s).
Proof.
  revert s. induction trace as [|[a now] rest IH]; intros s H; simpl; [exact H|].
  apply IH. apply (perform_grown E0 a now s H).
Qed.

(** [disconnect()] clears the recorded reconnect timer *)
Lemma disconnect_quiet_clean (s : System) :
  (forall u, In u (timers (world s)) -> is_reconnect_timer u = true ->
             reconnectTimer (client s) = Some (handle u)) ->
  quiet ByManualDisconnect (reconnectAttempts (client s))
        (filter is_reconnect_event (emitted (world s))) []
        (exec Sockeon.disconnect s).
Proof.
  intros Hrec. unfold exec. rewrite disconnect_unfold. cbv zeta.
  set (s1 := exec Sockeon.clearHeartbeatTimer _).
  set (Q := quiet ByManualDisconnect (reconnectAttempts (client s))
                  (filter is_reconnect_event (emitted (world s))) []).
  assert (H1 : Q (on_client (with_state closing) s1)
               /\ (state (client s) = disconnected -> Q s1)).
  { revert Hrec. unfold Q, s1, quiet, reconnect_off. open_system s. js_unfold.
    intros Hrec.
    assert (Sub : forall q (l : list Timer) u, In u (filter q l) -> In u l).
    { intros q l u Hu. apply filter_In in Hu. tauto. }
    destruct rtimer as [h|], htimer; cbn in *; split; try intros ->;
      split_quiet; try reflexivity; try discriminate; try lia;
      intros u Hu Hr; exfalso.
    all: try (repeat (apply filter_In in Hu; destruct Hu as [Hu ?]);
              specialize (Hrec u Hu Hr); first [discriminate Hrec | idtac]).
    all: try (injection Hrec as ->;
              repeat match goal with
                     | H : negb (_ =? _)%nat = true |- _ =>
                         rewrite Nat.eqb_refl in H; discriminate H
                     end). }
  destruct H1 as [Hc Hd].
  unfold Sockeon.state_is, Sockeon.this.
  destruct (ConnectionState_eqb (state (client s)) disconnected) eqn:E.
  - apply ConnectionState_eqb_eq in E. apply Hd, E.
  - assert (P : preserves Q (Transport.disconnect 1000 "Client disconnect"))
      by (unfold Q; methods_above_handleDisconnect; preserve_quiet).
    apply P, Hc.
Qed.

(** X11.  A controller created with [reconnect: false] (or
    [reconnect.enabled: false]) never reconnects: in every state it can
    reach, whatever is called and whatever the sockets and timers do, the
    state is not [reconnecting], no attempt is counted, no reconnect
    timer is recorded or pending, and there are at most as many sockets
    as calls of [connect()], which alone creates them.  The controller
    has emitted neither [reconnect_attempt] nor [reconnect_failed]: no
    event of the trace carries an attempt or a failure, and an event of
    the trace under one of these two names is a message of the server,
    delivered under the name the server chose with the server's data. *)
Theorem reconnect_disabled_never_reconnects (o : NormalizedSockeonOptions)
    (trace : list (Action * Z)) :
  reconnect_enabled (reconnect o) = false ->
  let s := run trace (Sockeon.create o) in
  let info := getConnectionInfo s in
  ci_state info <> reconnecting
  /\ ci_isReconnecting info = false
  /\ ci_reconnectAttempts info = 0%nat
  /\ reconnectTimer (client s) = None
  /\ due_reconnect (world s) = None
  /\ (List.length (created (wire (world s))) <= connect_calls trace)%nat
  /\ filter is_reconnect_event (emitted (world s)) = []
  /\ (forall x, In x (emitted (world s)) ->
        ev_name x = "reconnect_attempt" \/ ev_name x = "reconnect_failed" ->
        exists d, ev_payload x = PData d).
Proof.
  intros Hoff. cbv zeta.
  assert (H0 : quiet ByOption 0 [] [] (Sockeon.create o)).
  { unfold quiet. simpl. split_quiet; try reflexivity; try discriminate; try lia;
      try exact Hoff; try (intros u []). }
  assert (H : quiet ByOption 0 [] [] (run trace (Sockeon.create o)))
    by (apply run_quiet; [reflexivity | exact H0]).
  pose proof (run_creates_on_connect 0 [] trace _ H0) as Hc.
  assert (W : Forall well_named (emitted (world (run trace (Sockeon.create o)))))
    by (apply run_well_named; constructor).
  destruct H as (_ & Q2 & Q3 & Q4 & Q5 & Q6).
  unfold getConnectionInfo, due_reconnect. simpl.
  split; [exact Q2|]. split.
  { destruct (state (client (run trace (Sockeon.create o)))); try reflexivity.
    contradiction Q2. reflexivity. }
  split; [lia|]. split; [exact Q4|]. split.
  { rewrite (no_reconnect_timer_due _ Q6). reflexivity. }
  split; [exact Hc|]. split; [exact Q5|].
  intros x Hin Hname. rewrite Forall_forall in W.
  apply reconnect_named; [apply W, Hin | | exact Hname].
  destruct (is_reconnect_event x) eqn:R; [|reflexivity].
  assert (Hx : In x (filter is_reconnect_event
                       (emitted (world (run trace (Sockeon.create o))))))
    by (apply filter_In; split; assumption).
  rewrite Q5 in Hx. destruct Hx.
Qed.

Lemma reconnect_disabled_never_reconnects_open_then_lost :
  Sockeon.getState (run open_then_lost (Sockeon.create without_reconnect)) = disconnected
  /\ created (wire (world (run open_then_lost (Sockeon.create without_reconnect)))) = [0%nat]
  /\ filter is_reconnect_event
       (emitted (world (run open_then_lost (Sockeon.create without_reconnect)))) = [].
Proof.
  split; [vm_compute; reflexivity|]. split; [vm_compute; reflexivity|].
  apply (reconnect_disabled_never_reconnects without_reconnect open_then_lost).
  reflexivity.
Defined.

(** X12.  After [disconnect()], as long as [connect()] is not called,
    the controller schedules no reconnection, whatever the sockets and
    the timers still pending do: [manualDisconnect] stays set, the state
    is never [reconnecting], the attempt counter does not grow, no
    reconnect timer is recorded, the reconnect timers pending are among
    those pending before the call, and the controller emits neither
    [reconnect_attempt] nor [reconnect_failed]: the events added to the
    trace carry no attempt and no failure, and one of them under such a
    name is a message of the server.  This does not keep the connection
    down: [disconnect()] clears the recorded reconnect timer only, and
    another one left pending from before opens a socket when it fires
    (computed below on a session that called [connect()] while
    reconnecting).  Where every reconnect timer pending before the call
    is the recorded one, none is pending after it and no socket is
    created. *)
Theorem no_reconnect_after_disconnect (s : System) (trace : list (Action * Z)) :
  forallb (fun a => negb (calls_connect (fst a))) trace = true ->
  let s' := run trace (exec Sockeon.disconnect s) in
  manualDisconnect (client s') = true
  /\ Sockeon.getState s' <> reconnecting
  /\ (reconnectAttempts (client s') <= reconnectAttempts (client s))%nat
  /\ reconnectTimer (client s') = None
  /\ filter is_reconnect_event (emitted (world s'))
     = filter is_reconnect_event (emitted (world s))
  /\ (exists added,
        emitted (world s') = emitted (world s) ++ added
        /\ forall x, In x added ->
             ev_name x = "reconnect_attempt" \/ ev_name x = "reconnect_failed" ->
             exists d, ev_payload x = PData d)
  /\ (forall u, In u (timers (world s')) -> is_reconnect_timer u = true ->
                In u (timers (world s)))
  /\ ((forall u, In u (timers (world s)) -> is_reconnect_timer u = true ->
                 reconnectTimer (client s) = Some (handle u)) ->
      (forall u, In u (timers (world s')) -> is_reconnect_timer u = false)
      /\ created (wire (world s')) = created (wire (world s))).
Proof.
  intros Ht. cbv zeta.
  pose proof (run_quiet ByManualDisconnect _ _ _ trace _ Ht (disconnect_quiet s))
    as (Q1 & Q2 & Q3 & Q4 & Q5 & Q6).
  assert (G : grown (emitted (world s)) (run trace (exec Sockeon.disconnect s))).
  { change (run trace (exec Sockeon.disconnect s))
      with (run ((CallDisconnect, 0%Z) :: trace) s).
    apply run_grown. exists []. split; [rewrite app_nil_r; reflexivity | constructor]. }
  split; [exact Q1|]. split; [exact Q2|]. split; [exact Q3|]. split; [exact Q4|].
  split; [exact Q5|]. split.
  { destruct G as (added & E & W). exists added. split; [exact E|].
    intros x Hin Hname. rewrite Forall_forall in W.
    apply reconnect_named; [apply W, Hin | | exact Hname].
    destruct (is_reconnect_event x) eqn:R; [|reflexivity].
    rewrite E, filter_app in Q5.
    assert (Hnil : filter is_reconnect_event added = []).
    { apply (app_inv_head (filter is_reconnect_event (emitted (world s)))).
      rewrite app_nil_r. exact Q5. }
    assert (Hx : In x (filter is_reconnect_event added))
      by (apply filter_In; split; assumption).
    rewrite Hnil in Hx. destruct Hx. }
  split; [exact Q6|].
  intros Hrec.
  pose proof (disconnect_quiet_clean s Hrec) as Hq.
  pose proof (run_quiet ByManualDisconnect _ _ _ trace _ Ht Hq)
    as (_ & _ & _ & _ & _ & C6).
  split.
  - intros u Hu. destruct (is_reconnect_timer u) eqn:R; [|reflexivity].
    destruct (C6 u Hu R).
  - rewrite (run_creates_nothing _ _ trace _ Ht Hq).
    exact (action_creates_nothing _ CallDisconnect 0 eq_refl s eq_refl).
Qed.

Lemma no_reconnect_after_disconnect_live :
  Sockeon.getState (run closing_events (exec Sockeon.disconnect live)) = disconnected
  /\ created (wire (world (run closing_events (exec Sockeon.disconnect live)))) = [0%nat]
  /\ map handle (timers (world (exec Sockeon.disconnect with_stale_timer))) = [2%nat]
  /\ created (wire (world (exec Sockeon.disconnect with_stale_timer))) = [0%nat; 3%nat]
  /\ created (wire (world (run [(TimerFired 2, 5%Z)]
                             (exec Sockeon.disconnect with_stale_timer))))
     = [0%nat; 3%nat; 5%nat]
  /\ Sockeon.getState (run [(TimerFired 2, 5%Z); (SocketOpened 5, 6%Z)]
                          (exec Sockeon.disconnect with_stale_timer)) = connected
  /\ manualDisconnect (client (run closing_events (exec Sockeon.disconnect live))) = true.
Proof.
  split; [vm_compute; reflexivity|]. split; [vm_compute; reflexivity|].
  split; [vm_compute; reflexivity|]. split; [vm_compute; reflexivity|].
  split; [vm_compute; reflexivity|]. split; [vm_compute; reflexivity|].
  apply (no_reconnect_after_disconnect live closing_events). reflexivity.
Defined.
